(** * quantum_playground: stationary-state solvers and their dispatcher

    A shallow embedding of [src/QuantVisualizer.py] and of
    [src/SimPlayground.py].

    Numbers.  The Python code computes with IEEE doubles through numpy.  The
    embedding keeps every float *value* as a real number ([R]): the rounding
    of a value, NaN and infinities are not represented.  What is discrete is
    computed the way the code computes it: a sample count is taken of the
    binary64 result of the expression that gives it ([Binary64.round]: round
    to nearest, ties to even, with an unbounded exponent, so that overflow
    and underflow are not represented), and the integer product
    [2**n * n!] is an [np.int64] that wraps around.  Where Python itself
    raises (a missing dictionary key, a division of Python scalars by zero, a
    negative sample count, [np.sqrt] of an integer that no numpy type holds)
    the embedding raises the same exception; where numpy would only warn and
    produce NaN/inf (for instance [np.pi * n / L] with [L = 0], or the square
    root of a product that wrapped to a negative number) the real-valued
    result of the embedding carries no meaning, and the theorems below that
    speak of such a value assume the parameters that rule those cases out. *)

From Stdlib Require Import Reals Lra Lia ZArith.
From stdpp Require Import gmap strings list.

#[local] Open Scope string_scope.
#[local] Open Scope R_scope.

(** ** Python values, exceptions and outcomes *)

(** What the parameter dictionaries hold: Python ints, floats and bools, numpy
    arrays of floats and Python lists of floats. *)
Inductive value : Type :=
  | VInt (z : Z)
  | VFloat (r : R)
  | VBool (b : bool)
  | VArray (a : list R)
  | VList (l : list R).

Inductive exn : Type :=
  | KeyError (key : string)
  | ZeroDivisionError
  | ValueError
  | TypeError
  | IndexError.

Inductive outcome (A : Type) : Type :=
  | Ret (a : A)
  | Raise (e : exn).
Arguments Ret {A} a.
Arguments Raise {A} e.

(** The object stored in the [soln] / [prob_dens] attributes: a list of
    arrays, or Python's [None] (what [FinSqWell] returns). *)
Inductive pyobj : Type :=
  | PyNone
  | PyArrays (l : list (list R)).

(** A [QuantSim] object, as far as the solvers touch it.  The class itself
    lives in QuantSimObj.py; the fields are the attributes read or written by
    the two source files.  [soln] and [prob_dens] are attributes created by
    [simulate]: [None] here means the attribute does not exist yet. *)
Record QuantSim : Type := mkQuantSim {
  sys : string;
  exp_vals : gmap string value;
  sim_params : gmap string value;
  soln : option pyobj;
  prob_dens : option pyobj
}.

(** The world a call runs in: the (mutable) object and what was printed. *)
Record World : Type := mkWorld {
  quantsim : QuantSim;
  stdout : list string
}.

(** ** A small state-and-exception monad *)

Definition Py (A : Type) : Type := World -> outcome A * World.

Definition ret {A} (a : A) : Py A := fun w => (Ret a, w).
Definition bind {A B} (m : Py A) (k : A -> Py B) : Py B :=
  fun w => match m w with
           | (Ret a, w') => k a w'
           | (Raise e, w') => (Raise e, w')
           end.
Definition lift {A} (o : outcome A) : Py A := fun w => (o, w).

Notation "'let*' x ':=' m 'in' k" := (bind m (fun x => k))
  (at level 10, x pattern, m at level 100, k at level 200).
Notation "'run' m 'then' k" := (bind m (fun _ => k))
  (at level 10, m at level 100, k at level 200).

(** [quantsim.sim_params[key]] *)
Definition get_sim_param (key : string) : Py value :=
  fun w => match sim_params (quantsim w) !! key with
           | Some v => (Ret v, w)
           | None => (Raise (KeyError key), w)
           end.

(** [quantsim.exp_vals[key]] *)
Definition get_exp_val (key : string) : Py value :=
  fun w => match exp_vals (quantsim w) !! key with
           | Some v => (Ret v, w)
           | None => (Raise (KeyError key), w)
           end.

(** [quantsim.sim_params[key] = v] *)
Definition set_sim_param (key : string) (v : value) : Py unit :=
  fun w =>
    let q := quantsim w in
    (Ret tt,
     mkWorld (mkQuantSim (sys q) (exp_vals q) (<[key := v]> (sim_params q))
                         (soln q) (prob_dens q))
             (stdout w)).

(** [quantsim.soln = o] *)
Definition set_soln (o : pyobj) : Py unit :=
  fun w =>
    let q := quantsim w in
    (Ret tt,
     mkWorld (mkQuantSim (sys q) (exp_vals q) (sim_params q) (Some o) (prob_dens q))
             (stdout w)).

(** [quantsim.prob_dens = o] *)
Definition set_prob_dens (o : pyobj) : Py unit :=
  fun w =>
    let q := quantsim w in
    (Ret tt,
     mkWorld (mkQuantSim (sys q) (exp_vals q) (sim_params q) (soln q) (Some o))
             (stdout w)).

(** [print(s)] *)
Definition print (s : string) : Py unit :=
  fun w => (Ret tt, mkWorld (quantsim w) (stdout w ++ [s])).

(** [quantsim.sys] *)
Definition get_sys : Py string := fun w => (Ret (sys (quantsim w)), w).

(** A Python scalar used in arithmetic: ints and bools are numbers too.
    Array-valued parameters are outside the model and reported as a type
    error. *)
Definition to_num (v : value) : outcome R :=
  match v with
  | VInt z => Ret (IZR z)
  | VFloat r => Ret r
  | VBool b => Ret (if b then 1 else 0)
  | VArray _ | VList _ => Raise TypeError
  end.

(** [a / b] on Python scalars, as a value. *)
Definition py_div (a b : R) : outcome R :=
  if Req_dec_T b 0 then Raise ZeroDivisionError else Ret (a / b).

(** ** Doubles

    The binary64 number nearest to a real, for the places where the code
    turns a float into an integer. *)

Module Binary64.

(** The binade of [x]: [2^(mag x) <= |x| < 2^(mag x + 1)]. *)
Definition mag (x : R) : Z := Int_part (ln (Rabs x) / ln 2).

(** The spacing of the doubles in the binade of [x]: 53 significant bits. *)
Definition ulp (x : R) : R := powerRZ 2 (mag x - 52).

(** The integer nearest to [r], the even one of the two when [r] lies half
    way. *)
Definition nearest_even (r : R) : Z :=
  let f := Int_part r in
  if Rlt_dec (r - IZR f) (1 / 2) then f
  else if Rlt_dec (1 / 2) (r - IZR f) then (f + 1)%Z
  else if Z.even f then f else (f + 1)%Z.

(** The double nearest to [x]. *)
Definition round (x : R) : R :=
  if Req_dec_T x 0 then 0 else IZR (nearest_even (x / ulp x)) * ulp x.

(** [a + b], [a - b] and [a / b] on doubles: the exact result, rounded.  The
    operands are rounded first, so that a parameter given as a real stands
    for the double a Python literal of that value denotes. *)
Definition add (a b : R) : R := round (round a + round b).
Definition sub (a b : R) : R := round (round a - round b).
Definition div (a b : R) : R := round (round a / round b).

End Binary64.

(** [a / b] on Python floats, as the double it is. *)
Definition float_div (a b : R) : outcome R :=
  if Req_dec_T b 0 then Raise ZeroDivisionError else Ret (Binary64.div a b).

(** ** Interaction: what the prompting and plotting code needs in addition *)

(** [quantsim.sim_params = sp] *)
Definition put_sim_params (sp : gmap string value) : Py unit :=
  fun w =>
    let q := quantsim w in
    (Ret tt,
     mkWorld (mkQuantSim (sys q) (exp_vals q) sp (soln q) (prob_dens q)) (stdout w)).

(** [v / c] for a Python value [v] and a non-zero number [c]: true division
    on numbers, elementwise on an array, a type error on a list. *)
Definition div_by (v : value) (c : R) : outcome value :=
  match v with
  | VInt z => Ret (VFloat (IZR z / c))
  | VFloat r => Ret (VFloat (r / c))
  | VBool b => Ret (VFloat ((if b then 1 else 0) / c))
  | VArray a => Ret (VArray (map (fun x => x / c) a))
  | VList _ => Raise TypeError
  end.

(** The exceptions of the interactive and plotting code: those of the
    solvers, the end of the input, and a missing attribute of the object. *)
Inductive io_exn : Type :=
  | PyExn (e : exn)
  | EOFError
  | AttributeError (name : string).

Inductive io_outcome (A : Type) : Type :=
  | Done (a : A)
  | Fail (e : io_exn).
Arguments Done {A} a.
Arguments Fail {A} e.

(** *** Plotting

    [plot_func] talks to matplotlib.  The embedding records the calls it
    makes, in order, with their arguments; matplotlib is taken to accept
    every call.  What can fail is what Python itself checks on the way: a
    missing key or attribute, an index out of range, iterating or indexing
    [None], [min]/[max] of an empty array, negating a list. *)

(** The label of a plotted line: the mode's position in the list, or the
    energy that the format string renders. *)
Inductive plot_label : Type :=
  | IndexLabel (n : nat)
  | EnergyLabel (e : R).

Inductive draw : Type :=
  | Subplots
  | AxisOff
  | PlotLine (x : value) (y : list R) (lab : plot_label)
  | VLines (xs : list value) (ymin ymax : R)
  | HLines (y : R) (xmin xmax : value)
  | SetXLim (lo hi : Z)
  | SetYLim (lo hi : Z)
  | Legend.

(** A plotting computation: from the world and the calls made so far to an
    outcome, the world and the calls made. *)
Definition Plt (A : Type) : Type :=
  World -> list draw -> io_outcome A * World * list draw.

Definition pret {A} (a : A) : Plt A := fun w t => (Done a, w, t).
Definition pbind {A B} (m : Plt A) (k : A -> Plt B) : Plt B :=
  fun w t => match m w t with
             | (Done a, w', t') => k a w' t'
             | (Fail e, w', t') => (Fail e, w', t')
             end.
Definition plift {A} (o : outcome A) : Plt A :=
  fun w t => match o with
             | Ret a => (Done a, w, t)
             | Raise e => (Fail (PyExn e), w, t)
             end.
Definition emit (d : draw) : Plt unit := fun w t => (Done tt, w, (t ++ [d])%list).
Definition pprint (s : string) : Plt unit :=
  fun w t => (Done tt, snd (print s w), t).

Notation "'let+' x ':=' m 'in' k" := (pbind m (fun x => k))
  (at level 10, x pattern, m at level 100, k at level 200).
Notation "'call' m 'then' k" := (pbind m (fun _ => k))
  (at level 10, m at level 100, k at level 200).

(** [quantsim.sim_params[key]] while plotting. *)
Definition read_param (key : string) : Plt value :=
  fun w t => match sim_params (quantsim w) !! key with
             | Some v => (Done v, w, t)
             | None => (Fail (PyExn (KeyError key)), w, t)
             end.

(** [quantsim.soln] *)
Definition read_soln : Plt pyobj :=
  fun w t => match soln (quantsim w) with
             | Some o => (Done o, w, t)
             | None => (Fail (AttributeError "soln"), w, t)
             end.

(** [o[i]] for the object in [soln]. *)
Definition item (o : pyobj) (i : nat) : outcome (list R) :=
  match o with
  | PyNone => Raise TypeError
  | PyArrays l => match l !! i with
                  | Some a => Ret a
                  | None => Raise IndexError
                  end
  end.

(** [quantsim.soln[i]] *)
Definition soln_item (i : nat) : Plt (list R) :=
  let+ o := read_soln in plift (item o i).

(** [v[n]] for a stored value. *)
Definition getitem (v : value) (n : nat) : outcome R :=
  match v with
  | VArray l | VList l => match l !! n with
                          | Some e => Ret e
                          | None => Raise IndexError
                          end
  | VInt _ | VFloat _ | VBool _ => Raise TypeError
  end.

(** [min(a)] and [max(a)] of an array. *)
Definition py_min (a : list R) : outcome R :=
  match a with
  | [] => Raise ValueError
  | x :: rest => Ret (fold_left Rmin rest x)
  end.

Definition py_max (a : list R) : outcome R :=
  match a with
  | [] => Raise ValueError
  | x :: rest => Ret (fold_left Rmax rest x)
  end.

(** [-v] *)
Definition neg_value (v : value) : outcome value :=
  match v with
  | VInt z => Ret (VInt (- z))
  | VFloat r => Ret (VFloat (- r))
  | VBool b => Ret (VInt (- (if b then 1 else 0)))
  | VArray a => Ret (VArray (map Ropp a))
  | VList _ => Raise TypeError
  end.

(** [for n, wfn in enumerate(l): body(n, wfn)], counting from [n]. *)
Fixpoint for_enumerate (body : nat -> list R -> Plt unit) (n : nat)
    (l : list (list R)) : Plt unit :=
  match l with
  | [] => pret tt
  | wfn :: rest => call body n wfn then for_enumerate body (S n) rest
  end.

(** [enumerate(o)] for the object in [soln]: [None] is not iterable. *)
Definition iterate (o : pyobj) : outcome (list (list R)) :=
  match o with
  | PyNone => Raise TypeError
  | PyArrays l => Ret l
  end.

(** ** The numpy functions the solvers call *)

Module Numpy.

(** [int(r)] for a float: truncation toward zero. *)
Definition int_of_float (r : R) : Z :=
  if Rle_dec 0 r then Int_part r else (- Int_part (- r))%Z.

(** [math.ceil] *)
Definition ceil (r : R) : Z := (- Int_part (- r))%Z.

(** [np.linspace(start, stop, num)] with the default [endpoint=True], for a
    float [num] as the solvers pass it (the numpy releases the code was
    written for accept one): the count is converted with [int],
    a negative count is a [ValueError], the samples are [i * step + start]
    with [step = (stop - start) / (num - 1)], and the last sample is
    overwritten with [stop] when there are at least two. *)
Definition linspace (start stop : R) (num : R) : outcome (list R) :=
  let n := int_of_float num in
  if (n <? 0)%Z then Raise ValueError
  else
    let n := Z.to_nat n in
    let div := (n - 1)%nat in
    let delta := stop - start in
    let y :=
      if (1 <? n)%nat
      then map (fun i : nat => INR i * (delta / INR div) + start) (seq 0 n)
      else map (fun i : nat => INR i * delta + start) (seq 0 n) in
    Ret (if (1 <? n)%nat then <[(n - 1)%nat := stop]> y else y).

(** [np.arange(lo, hi)] on integers. *)
Definition arange (lo hi : Z) : list Z :=
  map (fun i : nat => (lo + Z.of_nat i)%Z) (seq 0 (Z.to_nat (hi - lo))).

(** [np.arange(start, stop, step)] on floats: [ceil((stop - start) / step)]
    samples [start + i * step], the quotient being the double that the
    float subtraction and division give; dividing by a zero step raises
    [ZeroDivisionError]. *)
Definition arange_step (start stop step : R) : outcome (list R) :=
  if Req_dec_T step 0 then Raise ZeroDivisionError
  else
    let n := Z.to_nat (ceil (Binary64.div (Binary64.sub stop start) step)) in
    Ret (map (fun i : nat => start + INR i * step) (seq 0 n)).

(** The numbers a Python scalar [v] yields in [np.arange(lo, v + 1)]: for
    an int the integers from [lo] to [v]; for a float the same count rule
    as [arange_step] with step 1 (the entries are then integer-valued
    floats). *)
Definition arange_upto (lo : Z) (v : value) : outcome (list Z) :=
  match v with
  | VInt z => Ret (arange lo (z + 1))
  | VBool b => Ret (arange lo ((if b then 1 else 0) + 1))
  | VFloat r =>
      Ret (arange lo (lo + ceil (Binary64.sub (Binary64.add r 1) (IZR lo))))
  | VArray _ | VList _ => Raise TypeError
  end.

(** An [np.int64], the type of the entries of an integer [np.arange] where
    C's [long] has 64 bits: the integer [z] wrapped into [[-2^63, 2^63)]. *)
Definition int64 (z : Z) : Z := ((z + 2 ^ 63) mod 2 ^ 64 - 2 ^ 63)%Z.

(** [np.math.factorial(n)]: Python's [math.factorial], a Python int of any
    size. *)
Fixpoint factorial (n : nat) : Z :=
  match n with
  | O => 1
  | S n' => (Z.of_nat n * factorial n')%Z
  end.

(** One step of the Clenshaw recursion of [hermval], run over the
    coefficients from the third-last down to the first; [nd] is the
    counter the numpy loop decrements. *)
Fixpoint hermval_loop (x2 : R) (rev_c : list R) (nd : nat) (c0 c1 : R) : R * R :=
  match rev_c with
  | [] => (c0, c1)
  | ci :: rest =>
      let nd := (nd - 1)%nat in
      hermval_loop x2 rest nd (ci - c1 * (2 * (INR nd - 1))) (c0 + c1 * x2)
  end.

(** [np.polynomial.hermite.hermval(x, c)]: the Hermite series with
    coefficients [c] (physicists' convention) at the point [x]. *)
Definition hermval (x : R) (c : list R) : R :=
  let x2 := x * 2 in
  match rev c with
  | [] => 0
  | [a] => a + 0 * x2
  | [b; a] => a + b * x2
  | c_last :: c_prev :: rest =>
      let '(c0, c1) := hermval_loop x2 rest (length c) c_prev c_last in
      c0 + c1 * x2
  end.

(** [z = np.zeros(n + 1); z[n] = 1] *)
Definition unit_coeffs (n : nat) : list R := <[n := 1]> (replicate (S n) 0).

End Numpy.

(** ** src/QuantVisualizer.py *)

Module QuantVisualizer.

(** [hbar = 1] *)
Definition hbar : R := 1.

Section SquareWell.
Variables (L m : R) (x_vals : list R).

(** The body of the [for n in n_array] loop of [InfSqWell]. *)
Definition kn (n : Z) : R := PI * IZR n / L.
Definition amplitude (n : Z) (x : R) : R := sqrt (L / 2) * sin (kn n * x).
Definition wfn_ampl (n : Z) : list R := map (amplitude n) x_vals.
Definition prob_density (n : Z) : list R :=
  map (fun a => a ^ 2) (wfn_ampl n).
Definition energy_level (n : Z) : R :=
  (IZR n * PI * hbar) ^ 2 / (2 * m * L ^ 2).
End SquareWell.

(** A parameter that only the body of the [for n in n_array] loop uses in
    arithmetic: when there is no mode the body never runs and the parameter
    is not looked at. *)
Definition loop_num (v : value) (n_array : list Z) : outcome R :=
  match n_array with
  | [] => Ret 0
  | _ :: _ => to_num v
  end.

Definition InfSqWell : Py (list (list R) * list (list R)) :=
  let* vL := get_sim_param "length" in
  let* vm := get_sim_param "mass" in
  let* vdx := get_sim_param "dx" in
  let* num_of_wfns := get_sim_param "num_modes" in
  let* L := lift (to_num vL) in
  let* dx := lift (to_num vdx) in
  let* num := lift (float_div (Binary64.add L dx) dx) in
  let* x_vals := lift (Numpy.linspace 0 L num) in
  let* n_array := lift (Numpy.arange_upto 1 num_of_wfns) in
  let* m := lift (loop_num vm n_array) in
  let wfn_solns := map (wfn_ampl L x_vals) n_array in
  let prob_densities := map (prob_density L x_vals) n_array in
  let energy_levels := map (energy_level L m) n_array in
  run set_sim_param "x_vals" (VArray x_vals) then
  run set_sim_param "E_array" (VList energy_levels) then
  ret (wfn_solns, prob_densities).

Definition FinSqWell : Py pyobj := ret PyNone.

Section Oscillator.
Variables (m w : R) (x_vals : list R).

(** The nested function [hermite(x, n)] of [ParabSqWell]. *)
Definition hermite (x : R) (n : nat) : R :=
    let xi := sqrt (m * w / hbar) * x in
    Numpy.hermval xi (Numpy.unit_coeffs n).

(** [n] is an [np.int64], so [2**n] and its product with the factorial are
    [np.int64] too. *)
Definition alpha (n : nat) : R :=
    1 / sqrt (IZR (Numpy.int64 (Numpy.int64 (2 ^ Z.of_nat n) * Numpy.factorial n)))
    * Rpower (m * w / (PI * hbar)) 0.25.

Definition exp_decay : list R :=
    map (fun x => exp (- (x ^ 2 / 2) * (m * w / hbar))) x_vals.

Definition osc_wfn_ampl (n : Z) : list R :=
    zip_with (fun e x => alpha (Z.to_nat n) * e * hermite x (Z.to_nat n))
             exp_decay x_vals.

Definition osc_prob_density (n : Z) : list R :=
    map (fun a => a ^ 2) (osc_wfn_ampl n).
End Oscillator.

(** [En = E_array[n]]: an integer index in range is fine, a float index is
    an [IndexError]. *)
Definition index_check (num_of_wfns : value) (n_array : list Z) : outcome unit :=
  match num_of_wfns, n_array with
  | VFloat _, _ :: _ => Raise IndexError
  | _, _ => Ret tt
  end.

(** [np.sqrt(2**n * np.math.factorial(n))]: while the factorial fits 64
    bits the product is the [np.int64] of [alpha]; from [n = 21] on
    ([21! > 2^64], and no factorial lies between [2^63] and [2^64]) the
    factorial, and with it the product, is a Python int that no numpy
    integer type holds, and [np.sqrt] raises on it (a [TypeError]: the
    ufunc has no loop for such an object).  The loop stops at the first such
    [n]; nothing has been stored by then. *)
Definition product_check (n_array : list Z) : outcome unit :=
  if forallb (fun n => (Numpy.factorial (Z.to_nat n) <? 2 ^ 64)%Z) n_array
  then Ret tt else Raise TypeError.

Definition ParabSqWell : Py (list (list R) * list (list R)) :=
  let* vL := get_sim_param "length" in
  let* vm := get_sim_param "mass" in
  let* vk := get_sim_param "force_constant_k" in
  let* vdx := get_sim_param "dx" in
  let* num_of_wfns := get_sim_param "num_modes" in
  let* L := lift (to_num vL) in
  let* dx := lift (to_num vdx) in
  let* x_vals := lift (Numpy.arange_step (- L) L dx) in
  let* n_array := lift (Numpy.arange_upto 0 num_of_wfns) in
  let* k := lift (to_num vk) in
  let* m := lift (to_num vm) in
  let* km := lift (py_div k m) in
  let w := sqrt km in
  let E_array := map (fun n => (IZR n + 0.5) * hbar * w) n_array in
  let* _ := lift (index_check num_of_wfns n_array) in
  let* _ := lift (product_check n_array) in
  let wfn_solns := map (osc_wfn_ampl m w x_vals) n_array in
  let prob_densities := map (osc_prob_density m w x_vals) n_array in
  run set_sim_param "x_vals" (VArray x_vals) then
  run set_sim_param "E_array" (VArray (map (fun e => e / w) E_array)) then
  run set_sim_param "ang_freq" (VFloat w) then
  ret (wfn_solns, prob_densities).

(** Python's [choice in [a, b, c]] on strings. *)
Definition py_in (s : string) (l : list string) : bool :=
  existsb (String.eqb s) l.

Definition nl : string := String (Ascii.ascii_of_nat 10) EmptyString.

Definition not_found_msg : string :=
  nl ++ "System not found. Please reinitialize object." ++ nl.

(** The three alias lists tested by [simulate]. *)
Definition ISW_aliases : list string := ["1"; "Infinite Square Well"; "ISW"].
Definition FSW_aliases : list string := ["2"; "Finite Square Well"; "FSW"].
Definition QHO_aliases : list string := ["3"; "Quantum Harmonic Oscillator"; "QHO"].

Definition simulate : Py unit :=
  let* choice := get_sys in
  if py_in choice ISW_aliases then
    let* r := InfSqWell in
    run set_soln (PyArrays (fst r)) then
    set_prob_dens (PyArrays (snd r))
  else if py_in choice FSW_aliases then
    let* r := FinSqWell in
    set_soln r
  else if py_in choice QHO_aliases then
    let* r := ParabSqWell in
    run set_soln (PyArrays (fst r)) then
    set_prob_dens (PyArrays (snd r))
  else
    print not_found_msg.

(** The square-well branch of [plot_func]. *)
Definition plot_well (x_vals : value) (wfn_list : pyobj) : Plt unit :=
  let+ wfns := plift (iterate wfn_list) in
  call for_enumerate (fun n wfn => emit (PlotLine x_vals wfn (IndexLabel n))) 0 wfns then
  let+ L := read_param "length" in
  let+ s1 := soln_item 1 in
  let+ lo := plift (py_min s1) in
  let+ s1' := soln_item 1 in
  let+ hi := plift (py_max s1') in
  call emit (VLines [VInt 0; L] lo hi) then
  let+ s1'' := soln_item 1 in
  let+ lo' := plift (py_min s1'') in
  let+ L' := read_param "length" in
  emit (HLines lo' (VInt 0) L').

(** The oscillator branch of [plot_func]. *)
Definition plot_oscillator (x_vals : value) (wfn_list : pyobj) (energy_levels : value)
  : Plt unit :=
  let+ wfns := plift (iterate wfn_list) in
  call for_enumerate
         (fun n wfn =>
            let+ e := plift (getitem energy_levels n) in
            emit (PlotLine x_vals wfn (EnergyLabel e)))
         0 wfns then
  let+ L := read_param "length" in
  let+ mL := plift (neg_value L) in
  let+ s0 := soln_item 0 in
  let+ hi := plift (py_max s0) in
  let+ s0' := soln_item 0 in
  let+ hi' := plift (py_max s0') in
  call emit (VLines [mL; L] (- hi) hi') then
  let+ s0'' := soln_item 0 in
  let+ hi'' := plift (py_max s0'') in
  let+ mL' := plift (neg_value L) in
  call emit (HLines (- hi'') mL' L) then
  call emit (SetXLim (-12) 12) then
  emit (SetYLim (-1) 1).

Definition plot_func : Plt unit :=
  fun w =>
    let choice := sys (quantsim w) in
    (call emit Subplots then
     call emit AxisOff then
     let+ x_vals := read_param "x_vals" in
     let+ wfn_list := read_soln in
     let+ energy_levels := read_param "E_array" in
     call (if py_in choice ISW_aliases then plot_well x_vals wfn_list
           else if py_in choice FSW_aliases then pret tt
           else if py_in choice QHO_aliases then
             plot_oscillator x_vals wfn_list energy_levels
           else pprint not_found_msg) then
     emit Legend) w.

End QuantVisualizer.

(** ** src/SimPlayground.py *)

Module SimPlayground.

Definition InfSqWell : Py (list (list R) * list (list R)) :=
  let* vL := get_exp_val "length" in
  let* vdx := get_sim_param "dx" in
  let* num_of_wfns := get_sim_param "num_modes" in
  let* L := lift (to_num vL) in
  let* dx := lift (to_num vdx) in
  let* num := lift (float_div (Binary64.add L dx) dx) in
  let* x_vals := lift (Numpy.linspace 0 L num) in
  let* n_array := lift (Numpy.arange_upto 1 num_of_wfns) in
  let kn_array := map (fun n => PI * IZR n / L) n_array in
  let wfn_solns :=
    map (fun kn => map (fun x => sqrt (L / 2) * sin (kn * x)) x_vals) kn_array in
  let prob_densities :=
    map (fun kn => map (fun a => a ^ 2)
                       (map (fun x => sqrt (L / 2) * sin (kn * x)) x_vals))
        kn_array in
  run set_sim_param "x_vals" (VArray x_vals) then
  run set_sim_param "kn_array" (VArray kn_array) then
  ret (wfn_solns, prob_densities).

Definition FinSqWell : Py pyobj := ret PyNone.

Definition ParabSqWell : Py pyobj := ret PyNone.

(** The alias lists and the message of this [simulate] are, character for
    character, those of QuantVisualizer's. *)
Definition simulate : Py unit :=
  let* choice := get_sys in
  if QuantVisualizer.py_in choice QuantVisualizer.ISW_aliases then
    let* r := InfSqWell in
    run set_soln (PyArrays (fst r)) then
    set_prob_dens (PyArrays (snd r))
  else if QuantVisualizer.py_in choice QuantVisualizer.FSW_aliases then
    let* r := FinSqWell in
    set_soln r
  else if QuantVisualizer.py_in choice QuantVisualizer.QHO_aliases then
    let* r := ParabSqWell in
    set_soln r
  else
    print QuantVisualizer.not_found_msg.

(** *** [set_sim_params]: the interactive choice of simulation parameters *)

(** The text passed to [input]. *)
Definition prompt : string :=
  QuantVisualizer.nl
  ++ "Would you like to enter custom experimental values, or use the default?: "
  ++ QuantVisualizer.nl
  ++ "                           "
  ++ QuantVisualizer.nl
  ++ "    Enter 1 for default, 0 for manual entry: ".

Definition retry_msg : string :=
  QuantVisualizer.nl ++ "System not found. Please retry." ++ QuantVisualizer.nl.

Definition defaults_set_msg : string :=
  QuantVisualizer.nl
  ++ "Set simulation parameters to default. Use quantsim.info() to inspect!".

Definition wip_msg : string := "Manual implementation WIP.".

Definition invalid_msg : string :=
  "Invalid entry. Please try again!" ++ QuantVisualizer.nl.

(** [quantsim.sim_params = {'dx': quantsim.exp_vals['length']/100, 'dt': 0.01}] *)
Definition assign_defaults : Py unit :=
  let* vL := get_exp_val "length" in
  let* dx := lift (div_by vL 100) in
  put_sim_params (<["dt" := VFloat 0.01]> (<["dx" := dx]> ∅)).

(** The two extra entries of the square well. *)
Definition assign_well_extras : Py unit :=
  run set_sim_param "num_modes" (VInt 3) then
  set_sim_param "do_animate" (VBool true).

(** [set_sim_params(quantsim)], reading its answers from the lines [stdin].
    Every call reads one line, and every restart is a call on the remaining
    lines, so the recursion is on [stdin]; when the lines run out [input]
    raises [EOFError].  The prompt that [input] writes is recorded in
    [stdout] like a printed line.  The result is the outcome, the world and
    the lines left unread.  (Python's recursion limit is not represented.) *)
Fixpoint set_sim_params (stdin : list string) (w : World)
  : io_outcome unit * World * list string :=
  let w0 := snd (print prompt w) in
  match stdin with
  | [] => (Fail EOFError, w0, [])
  | use_default :: rest =>
      if String.eqb use_default "1" then
        match assign_defaults w0 with
        | (Raise e, w1) => (Fail (PyExn e), w1, rest)
        | (Ret _, w1) =>
            let choice := sys (quantsim w) in
            if QuantVisualizer.py_in choice QuantVisualizer.ISW_aliases then
              (Done tt, snd (print defaults_set_msg (snd (assign_well_extras w1))), rest)
            else if QuantVisualizer.py_in choice QuantVisualizer.FSW_aliases then
              (Done tt, snd (print defaults_set_msg w1), rest)
            else if QuantVisualizer.py_in choice QuantVisualizer.QHO_aliases then
              (Done tt, snd (print defaults_set_msg w1), rest)
            else
              match set_sim_params rest (snd (print retry_msg w1)) with
              | (Done _, w2, rest') => (Done tt, snd (print defaults_set_msg w2), rest')
              | (Fail e, w2, rest') => (Fail e, w2, rest')
              end
        end
      else if String.eqb use_default "0" then
        set_sim_params rest (snd (print wip_msg w0))
      else
        set_sim_params rest (snd (print invalid_msg w0))
  end.

End SimPlayground.

(** ** The worlds the solvers leave behind *)

(** [sim_params] replaced, everything else kept. *)
Definition with_sim_params (w : World) (sp : gmap string value) : World :=
  let q := quantsim w in
  mkWorld (mkQuantSim (sys q) (exp_vals q) sp (soln q) (prob_dens q)) (stdout w).

(** After QuantVisualizer's [InfSqWell]: grid [xs] and energies [es] stored. *)
Definition well_world (w : World) (xs es : list R) : World :=
  with_sim_params w
    (<["E_array" := VList es]> (<["x_vals" := VArray xs]> (sim_params (quantsim w)))).

(** After [ParabSqWell]: grid, reported energies and angular frequency. *)
Definition osc_world (w : World) (xs es : list R) (om : R) : World :=
  with_sim_params w
    (<["ang_freq" := VFloat om]>
       (<["E_array" := VArray es]>
          (<["x_vals" := VArray xs]> (sim_params (quantsim w))))).

(** After SimPlayground's [InfSqWell]: grid and wavenumbers stored. *)
Definition playground_world (w : World) (xs ks : list R) : World :=
  with_sim_params w
    (<["kn_array" := VArray ks]> (<["x_vals" := VArray xs]> (sim_params (quantsim w)))).

(** ** Grids and sums used to state the properties *)

(** [M + 1] equally spaced points from [0] to [L]. *)
Definition uniform_grid (L : R) (M : nat) : list R :=
  map (fun i : nat => INR i * (L / INR M)) (seq 0 (S M)).

(** [sum(l)] *)
Definition Rsum (l : list R) : R := foldr Rplus 0 l.

(** The discrete normalisation sum of a sampled density [p] with step [dx]:
    the sum over the grid of [p[i] * dx]. *)
Definition riemann_sum (p : list R) (dx : R) : R :=
  Rsum (map (fun v => v * dx) p).

(** A list of reals that increases strictly from each entry to the next. *)
Definition strictly_increasing (l : list R) : Prop :=
  forall (i : nat) (a b : R), l !! i = Some a -> l !! S i = Some b -> a < b.

(** ** Well-typed parameter sets *)

(** The square-well parameters of the context are the numbers [L], [m], [dx]
    and the integer [k]. *)
Definition well_params (w : World) (L m dx : R) (k : Z) : Prop :=
  exists vL vm vdx,
    sim_params (quantsim w) !! "length" = Some vL /\ to_num vL = Ret L /\
    sim_params (quantsim w) !! "mass" = Some vm /\ to_num vm = Ret m /\
    sim_params (quantsim w) !! "dx" = Some vdx /\ to_num vdx = Ret dx /\
    sim_params (quantsim w) !! "num_modes" = Some (VInt k).

(** The oscillator parameters of the context are the numbers [L], [m], [kf]
    (force constant), [dx] and the integer [k]. *)
Definition osc_params (w : World) (L m kf dx : R) (k : Z) : Prop :=
  exists vL vm vk vdx,
    sim_params (quantsim w) !! "length" = Some vL /\ to_num vL = Ret L /\
    sim_params (quantsim w) !! "mass" = Some vm /\ to_num vm = Ret m /\
    sim_params (quantsim w) !! "force_constant_k" = Some vk /\ to_num vk = Ret kf /\
    sim_params (quantsim w) !! "dx" = Some vdx /\ to_num vdx = Ret dx /\
    sim_params (quantsim w) !! "num_modes" = Some (VInt k).

(** ** Concrete contexts *)

(** A fresh context whose [sim_params] is the dictionary
    [{'length': L, 'mass': m, 'dx': dx, 'num_modes': k}]. *)
Definition well_context (name : string) (L m dx : R) (k : Z) : World :=
  mkWorld
    (mkQuantSim name ∅
       (<["length" := VFloat L]> (<["mass" := VFloat m]>
          (<["dx" := VFloat dx]> (<["num_modes" := VInt k]> ∅))))
       None None)
    [].

(** The same with a force constant, for the oscillator. *)
Definition osc_context (name : string) (L m kf dx : R) (k : Z) : World :=
  mkWorld
    (mkQuantSim name ∅
       (<["length" := VFloat L]> (<["mass" := VFloat m]>
          (<["force_constant_k" := VFloat kf]>
             (<["dx" := VFloat dx]> (<["num_modes" := VInt k]> ∅)))))
       None None)
    [].

(** The number of samples of [np.arange(-L, L, dx)]. *)
Definition osc_points (L dx : R) : nat :=
  Z.to_nat (Numpy.ceil (Binary64.div (Binary64.sub L (- L)) dx)).

(** The grid of [np.arange(-L, L, dx)]. *)
Definition osc_grid (L dx : R) : list R :=
  map (fun i : nat => - L + INR i * dx) (seq 0 (osc_points L dx)).

(** The number of samples [int((L + dx) / dx)] that the square well asks
    of [np.linspace], and the number of intervals between them. *)
Definition well_points (L dx : R) : Z :=
  Numpy.int_of_float (Binary64.div (Binary64.add L dx) dx).

Definition well_intervals (L dx : R) : nat := Z.to_nat (well_points L dx - 1).

(** ** Reading the results back from the context *)

(** [sim_params['E_array']] as a sequence of reals (a Python list after the
    square well, a numpy array after the oscillator). *)
Definition energy_levels (w : World) : option (list R) :=
  match sim_params (quantsim w) !! "E_array" with
  | Some (VList l) | Some (VArray l) => Some l
  | _ => None
  end.

(** [sim_params['x_vals']] *)
Definition grid (w : World) : option (list R) :=
  match sim_params (quantsim w) !! "x_vals" with
  | Some (VArray l) => Some l
  | _ => None
  end.

(** [exp_vals['length']] is the number [L]. *)
Definition exp_length (w : World) (L : R) : Prop :=
  exists vL, exp_vals (quantsim w) !! "length" = Some vL /\ to_num vL = Ret L.

(** The parameters each solver reads, in reading order. *)
Definition well_keys : list string := ["length"; "mass"; "dx"; "num_modes"].
Definition osc_keys : list string :=
  ["length"; "mass"; "force_constant_k"; "dx"; "num_modes"].

(** ** Frames and dispatch *)

(** The system identifier is in one of the alias lists of [simulate]. *)
Definition known_system (s : string) : bool :=
  QuantVisualizer.py_in s QuantVisualizer.ISW_aliases
  || QuantVisualizer.py_in s QuantVisualizer.FSW_aliases
  || QuantVisualizer.py_in s QuantVisualizer.QHO_aliases.

(** The [soln] attribute set to [o], everything else kept. *)
Definition with_soln (w : World) (o : pyobj) : World :=
  let q := quantsim w in
  mkWorld (mkQuantSim (sys q) (exp_vals q) (sim_params q) (Some o) (prob_dens q))
          (stdout w).

(** [w'] differs from [w] at most in the entries [keys] of [sim_params]. *)
Definition same_outside (keys : list string) (w w' : World) : Prop :=
  sys (quantsim w') = sys (quantsim w) /\
  exp_vals (quantsim w') = exp_vals (quantsim w) /\
  soln (quantsim w') = soln (quantsim w) /\
  prob_dens (quantsim w') = prob_dens (quantsim w) /\
  stdout w' = stdout w /\
  forall key, key ∉ keys ->
    sim_params (quantsim w') !! key = sim_params (quantsim w) !! key.

(** A context that has the length both in [exp_vals] and in [sim_params],
    with [dx] and [num_modes], and no mass. *)
Definition shared_context (L dx : R) (k : Z) : World :=
  mkWorld
    (mkQuantSim "ISW" (<["length" := VFloat L]> ∅)
       (<["length" := VFloat L]> (<["dx" := VFloat dx]> (<["num_modes" := VInt k]> ∅)))
       None None)
    [].

(** ** The solvers as functions of their parameters *)

(** What a solver hands back: the two returned lists, the grid and the
    energies it stores. *)
Record solved : Type := mkSolved {
  solutions : list (list R);
  densities : list (list R);
  solved_grid : list R;
  solved_energies : list R
}.

(** The computation of QuantVisualizer's [InfSqWell] once the four
    parameters have been read. *)
Definition well_core (vL vm vdx vn : value) : outcome solved :=
  match to_num vL with
  | Raise e => Raise e
  | Ret L =>
  match to_num vdx with
  | Raise e => Raise e
  | Ret dx =>
  match float_div (Binary64.add L dx) dx with
  | Raise e => Raise e
  | Ret num =>
  match Numpy.linspace 0 L num with
  | Raise e => Raise e
  | Ret x_vals =>
  match Numpy.arange_upto 1 vn with
  | Raise e => Raise e
  | Ret n_array =>
  match QuantVisualizer.loop_num vm n_array with
  | Raise e => Raise e
  | Ret m =>
      Ret (mkSolved (map (QuantVisualizer.wfn_ampl L x_vals) n_array)
                    (map (QuantVisualizer.prob_density L x_vals) n_array)
                    x_vals
                    (map (QuantVisualizer.energy_level L m) n_array))
  end end end end end end.

(** The four reads of [InfSqWell], in order. *)
Definition well_reads (w : World) : outcome (value * value * value * value) :=
  match sim_params (quantsim w) !! "length" with
  | None => Raise (KeyError "length")
  | Some vL =>
  match sim_params (quantsim w) !! "mass" with
  | None => Raise (KeyError "mass")
  | Some vm =>
  match sim_params (quantsim w) !! "dx" with
  | None => Raise (KeyError "dx")
  | Some vdx =>
  match sim_params (quantsim w) !! "num_modes" with
  | None => Raise (KeyError "num_modes")
  | Some vn => Ret (vL, vm, vdx, vn)
  end end end end.

(** The computation of [ParabSqWell] once the five parameters have been
    read; the last component is the angular frequency. *)
Definition osc_core (vL vm vk vdx vn : value) : outcome (solved * R) :=
  match to_num vL with
  | Raise e => Raise e
  | Ret L =>
  match to_num vdx with
  | Raise e => Raise e
  | Ret dx =>
  match Numpy.arange_step (- L) L dx with
  | Raise e => Raise e
  | Ret x_vals =>
  match Numpy.arange_upto 0 vn with
  | Raise e => Raise e
  | Ret n_array =>
  match to_num vk with
  | Raise e => Raise e
  | Ret k =>
  match to_num vm with
  | Raise e => Raise e
  | Ret m =>
  match py_div k m with
  | Raise e => Raise e
  | Ret km =>
  match QuantVisualizer.index_check vn n_array with
  | Raise e => Raise e
  | Ret _ =>
  match QuantVisualizer.product_check n_array with
  | Raise e => Raise e
  | Ret _ =>
      Ret (mkSolved
             (map (QuantVisualizer.osc_wfn_ampl m (sqrt km) x_vals) n_array)
             (map (QuantVisualizer.osc_prob_density m (sqrt km) x_vals) n_array)
             x_vals
             (map (fun e => e / sqrt km)
                  (map (fun n => (IZR n + 0.5) * QuantVisualizer.hbar * sqrt km)
                       n_array)),
           sqrt km)
  end end end end end end end end end.

(** The five reads of [ParabSqWell], in order. *)
Definition osc_reads (w : World)
  : outcome (value * value * value * value * value) :=
  match sim_params (quantsim w) !! "length" with
  | None => Raise (KeyError "length")
  | Some vL =>
  match sim_params (quantsim w) !! "mass" with
  | None => Raise (KeyError "mass")
  | Some vm =>
  match sim_params (quantsim w) !! "force_constant_k" with
  | None => Raise (KeyError "force_constant_k")
  | Some vk =>
  match sim_params (quantsim w) !! "dx" with
  | None => Raise (KeyError "dx")
  | Some vdx =>
  match sim_params (quantsim w) !! "num_modes" with
  | None => Raise (KeyError "num_modes")
  | Some vn => Ret (vL, vm, vk, vdx, vn)
  end end end end end.

(** The three reads of SimPlayground's [InfSqWell], in order. *)
Definition playground_reads (w : World) : outcome (value * value * value) :=
  match exp_vals (quantsim w) !! "length" with
  | None => Raise (KeyError "length")
  | Some vL =>
  match sim_params (quantsim w) !! "dx" with
  | None => Raise (KeyError "dx")
  | Some vdx =>
  match sim_params (quantsim w) !! "num_modes" with
  | None => Raise (KeyError "num_modes")
  | Some vn => Ret (vL, vdx, vn)
  end end end.

(** The wavenumbers [pi n / L] that SimPlayground's [InfSqWell] stores. *)
Definition wavenumbers (vL vn : value) : list R :=
  match to_num vL, Numpy.arange_upto 1 vn with
  | Ret L, Ret ns => map (QuantVisualizer.kn L) ns
  | _, _ => []
  end.

(** The dictionary [set_sim_params] assigns for every system, and the one
    the square well ends up with. *)
Definition default_params (dx : value) : gmap string value :=
  <["dt" := VFloat 0.01]> (<["dx" := dx]> ∅).

Definition default_well_params (dx : value) : gmap string value :=
  <["do_animate" := VBool true]> (<["num_modes" := VInt 3]> (default_params dx)).

(** What [set_sim_params] prints for a rejected answer, after the prompt. *)
Definition rejection (answer : string) : list string :=
  [SimPlayground.prompt;
   if String.eqb answer "0" then SimPlayground.wip_msg else SimPlayground.invalid_msg].

(** The calls [ax.plot(x, wfn, label=n)] of the square-well loop, for the
    arrays [l] counted from [n]. *)
Definition index_lines (x : value) (n : nat) (l : list (list R)) : list draw :=
  imap (fun j wfn => PlotLine x wfn (IndexLabel (n + j))) l.

(** The calls [ax.plot(x, wfn, label=...)] of the oscillator loop, for the
    arrays [l] and energies [es]. *)
Definition energy_lines (x : value) (l : list (list R)) (es : list R) : list draw :=
  zip_with (fun wfn e => PlotLine x wfn (EnergyLabel e)) l es.

(** A plotting computation that leaves the world alone and only adds
    calls. *)
Definition plt_pure {A} (m : Plt A) : Prop :=
  forall w t, exists o ext, m w t = (o, w, (t ++ ext)%list).

(** The context with another system identifier. *)
Definition with_sys (w : World) (s : string) : World :=
  let q := quantsim w in
  mkWorld (mkQuantSim s (exp_vals q) (sim_params q) (soln q) (prob_dens q))
          (stdout w).

(** The context after a dispatch that stored the lists [sol] and [pd]. *)
Definition with_results (w : World) (sol pd : list (list R)) : World :=
  let q := quantsim w in
  mkWorld (mkQuantSim (sys q) (exp_vals q) (sim_params q)
             (Some (PyArrays sol)) (Some (PyArrays pd)))
          (stdout w).

(** ** Hermite polynomials *)

(** The physicists' Hermite polynomials by their three-term recurrence. *)
Fixpoint Hermite (n : nat) (x : R) : R :=
  match n with
  | O => 1
  | S n' =>
      match n' with
      | O => 2 * x
      | S n'' => 2 * x * Hermite n' x - 2 * INR n' * Hermite n'' x
      end
  end.

(** The Hermite series [sum_j c_j H_(k+j)(x)] of the coefficients [c]. *)
Fixpoint herm_series (c : list R) (k : nat) (x : R) : R :=
  match c with
  | [] => 0
  | cj :: rest => cj * Hermite k x + herm_series rest (S k) x
  end.

(** Decompose the next scrutinee of a run: either it raises (and the run
    stops where it started) or the run goes on. *)
Ltac run_step :=
  match goal with
  | |- context [sim_params ?q !! ?k] =>
      destruct (sim_params q !! k) eqn:?; simpl; [| left; eexists; reflexivity]
  | |- context [exp_vals ?q !! ?k] =>
      destruct (exp_vals q !! k) eqn:?; simpl; [| left; eexists; reflexivity]
  | |- context [Req_dec_T ?a ?b] =>
      destruct (Req_dec_T a b); simpl; [left; eexists; reflexivity |]
  | |- context [to_num ?v] =>
      destruct (to_num v) eqn:?; simpl; [| left; eexists; reflexivity]
  | |- context [Numpy.linspace ?a ?b ?c] =>
      destruct (Numpy.linspace a b c) eqn:?; simpl; [| left; eexists; reflexivity]
  | |- context [Numpy.arange_upto ?a ?b] =>
      destruct (Numpy.arange_upto a b) eqn:?; simpl; [| left; eexists; reflexivity]
  | |- context [Numpy.arange_step ?a ?b ?c] =>
      destruct (Numpy.arange_step a b c) eqn:?; simpl; [| left; eexists; reflexivity]
  | |- context [QuantVisualizer.index_check ?a ?b] =>
      destruct (QuantVisualizer.index_check a b) eqn:?; simpl; [| left; eexists; reflexivity]
  | |- context [QuantVisualizer.product_check ?a] =>
      destruct (QuantVisualizer.product_check a) eqn:?; simpl; [| left; eexists; reflexivity]
  | |- context [QuantVisualizer.loop_num ?a ?b] =>
      destruct (QuantVisualizer.loop_num a b) eqn:?; simpl; [| left; eexists; reflexivity]
  end.

(** Replace the powers of two with literal exponents by their values. *)
Ltac pow2_literals :=
  repeat match goal with
         | |- context [(2 ^ ?k)%Z] =>
             let v := eval vm_compute in (2 ^ k)%Z in
             progress change (2 ^ k)%Z with v
         end.

(** * Properties *)

(** ** Evaluation of the solvers on well-typed parameters *)

Lemma InfSqWell_run w vL vm vdx vn L m dx xs ns :
  sim_params (quantsim w) !! "length" = Some vL ->
  sim_params (quantsim w) !! "mass" = Some vm ->
  sim_params (quantsim w) !! "dx" = Some vdx ->
  sim_params (quantsim w) !! "num_modes" = Some vn ->
  to_num vL = Ret L -> to_num vm = Ret m -> to_num vdx = Ret dx ->
  dx <> 0 ->
  Numpy.linspace 0 L (Binary64.div (Binary64.add L dx) dx) = Ret xs ->
  Numpy.arange_upto 1 vn = Ret ns ->
  QuantVisualizer.InfSqWell w =
    (Ret (map (QuantVisualizer.wfn_ampl L xs) ns,
          map (QuantVisualizer.prob_density L xs) ns),
     well_world w xs (map (QuantVisualizer.energy_level L m) ns)).
Proof.
  intros HL Hm Hdx Hn EL Em Edx Hnz Hxs Hns.
  unfold QuantVisualizer.InfSqWell, bind, get_sim_param, lift, float_div.
  rewrite HL; simpl. rewrite Hm; simpl. rewrite Hdx; simpl.
  rewrite Hn; simpl. rewrite EL, Edx; simpl.
  destruct (Req_dec_T dx 0) as [?|_]; [contradiction|].
  rewrite Hxs, Hns. unfold QuantVisualizer.loop_num.
  destruct ns; [reflexivity |]. rewrite Em. reflexivity.
Qed.

(** ** Truncation and the sample count *)

Lemma Int_part_bounds r : IZR (Int_part r) <= r < IZR (Int_part r) + 1.
Proof. destruct (base_Int_part r). lra. Qed.

Lemma int_of_float_nonneg r : 0 <= r -> Numpy.int_of_float r = Int_part r.
Proof.
  intros Hr. unfold Numpy.int_of_float.
  destruct (Rle_dec 0 r); [reflexivity | contradiction].
Qed.

Lemma Int_part_IZR z : Int_part (IZR z) = z.
Proof. symmetry. apply Int_part_spec. lra. Qed.

(** ** Binary64 rounding *)

Lemma Rabs_le_inv x a : Rabs x <= a -> - a <= x <= a.
Proof. unfold Rabs. destruct (Rcase_abs x); lra. Qed.

(** ** Powers of two *)

Lemma pow2_pos e : 0 < powerRZ 2 e.
Proof. apply powerRZ_lt. lra. Qed.

Lemma pow2_add a b : powerRZ 2 (a + b) = powerRZ 2 a * powerRZ 2 b.
Proof. apply powerRZ_add. lra. Qed.

Lemma pow2_succ e : powerRZ 2 (e + 1) = 2 * powerRZ 2 e.
Proof. rewrite pow2_add. simpl. lra. Qed.

Lemma pow2_nonneg_IZR k : (0 <= k)%Z -> powerRZ 2 k = IZR (2 ^ k).
Proof.
  intros Hk. destruct k as [| p | p]; [reflexivity | | lia].
  unfold powerRZ. rewrite pow_IZR, positive_nat_Z. reflexivity.
Qed.

Lemma pow2_ge_1 k : (0 <= k)%Z -> 1 <= powerRZ 2 k.
Proof.
  intros Hk. rewrite pow2_nonneg_IZR by assumption.
  apply IZR_le. assert (0 < 2 ^ k)%Z by (apply Z.pow_pos_nonneg; lia). lia.
Qed.

Lemma pow2_le a b : (a <= b)%Z -> powerRZ 2 a <= powerRZ 2 b.
Proof.
  intros H. replace b with (a + (b - a))%Z by lia. rewrite pow2_add.
  pose proof (pow2_pos a). assert (1 <= powerRZ 2 (b - a)) by (apply pow2_ge_1; lia). nra.
Qed.

Lemma pow2_lt_inv a b : powerRZ 2 a < powerRZ 2 b -> (a < b)%Z.
Proof.
  intros H. destruct (Z_lt_le_dec a b) as [|Hle]; [assumption |].
  apply pow2_le in Hle. lra.
Qed.

(** ** The binade of a real *)

Lemma ln2_pos : 0 < ln 2.
Proof. pose proof ln_lt_2. lra. Qed.

Lemma pow2_exp e : powerRZ 2 e = exp (IZR e * ln 2).
Proof. rewrite powerRZ_Rpower by lra. reflexivity. Qed.

Lemma mag_spec x :
  x <> 0 -> powerRZ 2 (Binary64.mag x) <= Rabs x < powerRZ 2 (Binary64.mag x + 1).
Proof.
  intros Hx. unfold Binary64.mag.
  assert (Ha : 0 < Rabs x) by (apply Rabs_pos_lt; assumption).
  pose proof ln2_pos as H2.
  destruct (Int_part_bounds (ln (Rabs x) / ln 2)) as [Hlo Hhi].
  set (e := Int_part (ln (Rabs x) / ln 2)) in *.
  assert (Hq : ln (Rabs x) / ln 2 * ln 2 = ln (Rabs x)) by (field; lra).
  rewrite !pow2_exp, plus_IZR.
  pose proof (exp_ln (Rabs x) Ha) as Ex.
  split.
  - rewrite <- Ex.
    destruct (Req_dec (IZR e * ln 2) (ln (Rabs x))) as [-> | Hne]; [lra |].
    left. apply exp_increasing. nra.
  - rewrite <- Ex at 1. apply exp_increasing. nra.
Qed.

Lemma mag_unique x e :
  powerRZ 2 e <= Rabs x < powerRZ 2 (e + 1) -> Binary64.mag x = e.
Proof.
  intros [Hlo Hhi].
  assert (Hx : x <> 0).
  { intros ->. rewrite Rabs_R0 in Hlo. pose proof (pow2_pos e). lra. }
  destruct (mag_spec x Hx) as [Hlo' Hhi'].
  assert (Binary64.mag x < e + 1)%Z by (apply pow2_lt_inv; lra).
  assert (e < Binary64.mag x + 1)%Z by (apply pow2_lt_inv; lra).
  lia.
Qed.

Lemma mag_opp x : Binary64.mag (- x) = Binary64.mag x.
Proof. unfold Binary64.mag. rewrite Rabs_Ropp. reflexivity. Qed.

Lemma mag_double x : x <> 0 -> Binary64.mag (2 * x) = (Binary64.mag x + 1)%Z.
Proof.
  intros Hx. apply mag_unique. destruct (mag_spec x Hx) as [Hlo Hhi].
  rewrite Rabs_mult, (Rabs_pos_eq 2) by lra. rewrite !pow2_succ in *. lra.
Qed.

(** ** Rounding to the nearest integer, ties to even *)

Lemma nearest_even_spec r :
  Rabs (IZR (Binary64.nearest_even r) - r) < 1 / 2 \/
  (Rabs (IZR (Binary64.nearest_even r) - r) = 1 / 2 /\
   Z.even (Binary64.nearest_even r) = true).
Proof.
  unfold Binary64.nearest_even.
  destruct (Int_part_bounds r) as [Hlo Hhi]. set (f := Int_part r) in *.
  destruct (Rlt_dec (r - IZR f) (1 / 2)) as [H1 | H1].
  - left. apply Rabs_def1; lra.
  - destruct (Rlt_dec (1 / 2) (r - IZR f)) as [H2 | H2].
    + left. rewrite plus_IZR. apply Rabs_def1; lra.
    + assert (E : r - IZR f = 1 / 2) by lra.
      destruct (Z.even f) eqn:Ef.
      * right. split; [| assumption].
        rewrite Rabs_left1 by lra. lra.
      * right. split.
        -- rewrite plus_IZR, Rabs_pos_eq by lra. lra.
        -- rewrite Z.even_add, Ef. reflexivity.
Qed.

Lemma nearest_even_error r : Rabs (IZR (Binary64.nearest_even r) - r) <= 1 / 2.
Proof. destruct (nearest_even_spec r) as [H | [H _]]; lra. Qed.

Lemma nearest_even_char r n :
  Rabs (IZR n - r) < 1 / 2 \/ (Rabs (IZR n - r) = 1 / 2 /\ Z.even n = true) ->
  Binary64.nearest_even r = n.
Proof.
  intros Hn. pose proof (nearest_even_spec r) as Hm.
  set (m := Binary64.nearest_even r) in *.
  assert (Hd : Rabs (IZR m - IZR n) <= 1).
  { replace (IZR m - IZR n) with ((IZR m - r) + - (IZR n - r)) by lra.
    eapply Rle_trans; [apply Rabs_triang |]. rewrite Rabs_Ropp.
    destruct Hn as [Hn | [Hn _]], Hm as [Hm | [Hm _]]; lra. }
  rewrite <- minus_IZR in Hd.
  destruct (Z.eq_dec m n) as [| Hne]; [assumption | exfalso].
  assert (Hmn : (m - n = 1 \/ m - n = -1)%Z).
  { destruct (Z_lt_le_dec (m - n) 0).
    - right. assert (-1 <= m - n)%Z; [| lia]. apply le_IZR.
      rewrite Rabs_left1 in Hd by (apply IZR_le; lia). lra.
    - left. assert (m - n <= 1)%Z; [| lia]. apply le_IZR.
      rewrite Rabs_pos_eq in Hd by (apply IZR_le; lia). lra. }
  assert (Ht : Rabs (IZR m - r) + Rabs (IZR n - r) >= 1).
  { assert (1 <= Rabs (IZR m - IZR n)).
    { rewrite <- minus_IZR. destruct Hmn as [-> | ->].
      - rewrite Rabs_pos_eq; lra.
      - rewrite Rabs_left1; lra. }
    replace (IZR m - IZR n) with ((IZR m - r) + - (IZR n - r)) in H by lra.
    pose proof (Rabs_triang (IZR m - r) (- (IZR n - r))) as Ht.
    rewrite Rabs_Ropp in Ht. lra. }
  destruct Hn as [Hn | [Hn En]], Hm as [Hm | [Hm Em]]; try lra.
  assert (Z.even m = negb (Z.even n)).
  { replace m with (n + (m - n))%Z by lia. rewrite Z.even_add.
    destruct Hmn as [-> | ->]; destruct (Z.even n); reflexivity. }
  rewrite En, Em in H. discriminate.
Qed.

Lemma nearest_even_unique r n :
  IZR n - 1 / 2 < r < IZR n + 1 / 2 -> Binary64.nearest_even r = n.
Proof. intros H. apply nearest_even_char. left. apply Rabs_def1; lra. Qed.

Lemma nearest_even_IZR z : Binary64.nearest_even (IZR z) = z.
Proof. apply nearest_even_unique. lra. Qed.

Lemma nearest_even_opp r :
  Binary64.nearest_even (- r) = (- Binary64.nearest_even r)%Z.
Proof.
  apply nearest_even_char. rewrite opp_IZR, Z.even_opp.
  replace (- IZR (Binary64.nearest_even r) - - r)
    with (- (IZR (Binary64.nearest_even r) - r)) by lra.
  rewrite Rabs_Ropp. apply nearest_even_spec.
Qed.

Lemma nearest_even_le r s :
  r <= s -> (Binary64.nearest_even r <= Binary64.nearest_even s)%Z.
Proof.
  intros Hrs.
  destruct (Z_lt_le_dec (Binary64.nearest_even s) (Binary64.nearest_even r)) as [Hlt |];
    [exfalso | assumption].
  pose proof (nearest_even_error r) as Er. pose proof (nearest_even_error s) as Es.
  apply Rabs_le_inv in Er, Es.
  assert (IZR (Binary64.nearest_even s) + 1 <= IZR (Binary64.nearest_even r)).
  { rewrite <- plus_IZR. apply IZR_le. lia. }
  assert (r = s) by lra. subst s. lia.
Qed.

(** ** Rounding to binary64 *)

Lemma round_0 : Binary64.round 0 = 0.
Proof.
  unfold Binary64.round. destruct (Req_dec_T 0 0) as [_ | H]; [reflexivity |].
  contradiction H. reflexivity.
Qed.

Lemma round_nonzero x :
  x <> 0 ->
  Binary64.round x =
    IZR (Binary64.nearest_even (x / Binary64.ulp x)) * Binary64.ulp x.
Proof.
  intros Hx. unfold Binary64.round.
  destruct (Req_dec_T x 0); [contradiction | reflexivity].
Qed.

Lemma ulp_pos x : 0 < Binary64.ulp x.
Proof. apply pow2_pos. Qed.

Lemma round_opp x : Binary64.round (- x) = - Binary64.round x.
Proof.
  destruct (Req_dec x 0) as [-> | Hx].
  - rewrite Ropp_0, round_0. lra.
  - rewrite !round_nonzero by lra.
    unfold Binary64.ulp. rewrite mag_opp.
    pose proof (pow2_pos (Binary64.mag x - 52)) as Hp.
    replace (- x / powerRZ 2 (Binary64.mag x - 52))
      with (- (x / powerRZ 2 (Binary64.mag x - 52))) by (field; lra).
    rewrite nearest_even_opp, opp_IZR. ring.
Qed.

Lemma pow2_split e : powerRZ 2 e = IZR (2 ^ 52) * powerRZ 2 (e - 52).
Proof.
  rewrite <- (pow2_nonneg_IZR 52) by lia. rewrite <- pow2_add. f_equal. lia.
Qed.

(** In the binade [[2^e, 2^(e+1))] the doubles are the multiples of
    [2^(e-52)]. *)
Lemma round_in_binade x e :
  powerRZ 2 e <= x < powerRZ 2 (e + 1) ->
  Binary64.round x =
    IZR (Binary64.nearest_even (x / powerRZ 2 (e - 52))) * powerRZ 2 (e - 52) /\
  (2 ^ 52 <= Binary64.nearest_even (x / powerRZ 2 (e - 52)) <= 2 ^ 53)%Z.
Proof.
  intros [Hlo Hhi]. pose proof (pow2_pos e) as He.
  assert (Hx : 0 < x) by lra.
  assert (Hm : Binary64.mag x = e).
  { apply mag_unique. rewrite Rabs_pos_eq by lra. split; assumption. }
  rewrite round_nonzero by lra. unfold Binary64.ulp. rewrite Hm.
  split; [reflexivity |].
  pose proof (pow2_pos (e - 52)) as Hp. set (p := powerRZ 2 (e - 52)) in *.
  assert (E1 : powerRZ 2 e = IZR (2 ^ 52) * p) by apply pow2_split.
  assert (E2 : powerRZ 2 (e + 1) = IZR (2 ^ 53) * p).
  { rewrite pow2_succ, E1. change (2 ^ 53)%Z with (2 * 2 ^ 52)%Z.
    rewrite mult_IZR. lra. }
  assert (Hq1 : IZR (2 ^ 52) <= x / p).
  { apply Rmult_le_reg_r with p; [assumption |].
    replace (x / p * p) with x by (field; lra). lra. }
  assert (Hq2 : x / p <= IZR (2 ^ 53)).
  { apply Rmult_le_reg_r with p; [assumption |].
    replace (x / p * p) with x by (field; lra). lra. }
  apply nearest_even_le in Hq1, Hq2. rewrite nearest_even_IZR in Hq1, Hq2.
  split; assumption.
Qed.

Lemma round_binade_bounds x e :
  powerRZ 2 e <= x < powerRZ 2 (e + 1) ->
  powerRZ 2 e <= Binary64.round x <= powerRZ 2 (e + 1).
Proof.
  intros H. destruct (round_in_binade x e H) as [-> [Hlo Hhi]].
  pose proof (pow2_pos (e - 52)) as Hp.
  rewrite pow2_succ, (pow2_split e).
  apply IZR_le in Hlo, Hhi.
  change (2 ^ 53)%Z with (2 * 2 ^ 52)%Z in Hhi. rewrite mult_IZR in Hhi.
  set (n := IZR (Binary64.nearest_even (x / powerRZ 2 (e - 52)))) in *.
  set (p := powerRZ 2 (e - 52)) in *. set (c := IZR (2 ^ 52)) in *.
  split; nra.
Qed.

Lemma round_pos x : 0 < x -> 0 < Binary64.round x.
Proof.
  intros Hx. assert (Hx' : x <> 0) by lra.
  pose proof (mag_spec x Hx') as Hm. rewrite Rabs_pos_eq in Hm by lra.
  destruct (round_binade_bounds x _ Hm) as [Hlo _].
  pose proof (pow2_pos (Binary64.mag x)). lra.
Qed.

Lemma round_neg x : x < 0 -> Binary64.round x < 0.
Proof.
  intros Hx. replace x with (- - x) by lra. rewrite round_opp.
  assert (0 < Binary64.round (- x)) by (apply round_pos; lra). lra.
Qed.

Lemma round_le_pos x y : 0 < x -> x <= y -> Binary64.round x <= Binary64.round y.
Proof.
  intros Hx Hxy.
  assert (Hx' : x <> 0) by lra. assert (Hy' : y <> 0) by lra.
  pose proof (mag_spec x Hx') as Hmx. rewrite Rabs_pos_eq in Hmx by lra.
  pose proof (mag_spec y Hy') as Hmy. rewrite Rabs_pos_eq in Hmy by lra.
  assert (Hle : (Binary64.mag x <= Binary64.mag y)%Z).
  { assert (Binary64.mag x < Binary64.mag y + 1)%Z by (apply pow2_lt_inv; lra). lia. }
  destruct (Z.eq_dec (Binary64.mag x) (Binary64.mag y)) as [E | Hne].
  - rewrite !round_nonzero by assumption. unfold Binary64.ulp. rewrite E.
    pose proof (pow2_pos (Binary64.mag y - 52)) as Hp.
    apply Rmult_le_compat_r; [lra |]. apply IZR_le, nearest_even_le.
    apply Rmult_le_compat_r; [| assumption].
    left. apply Rinv_0_lt_compat. assumption.
  - destruct (round_binade_bounds x _ Hmx) as [_ Hux].
    destruct (round_binade_bounds y _ Hmy) as [Hly _].
    assert (powerRZ 2 (Binary64.mag x + 1) <= powerRZ 2 (Binary64.mag y))
      by (apply pow2_le; lia).
    lra.
Qed.

(** Rounding is monotone. *)
Lemma round_le x y : x <= y -> Binary64.round x <= Binary64.round y.
Proof.
  intros Hxy.
  destruct (Rtotal_order x 0) as [Hx | [-> | Hx]].
  - destruct (Rtotal_order y 0) as [Hy | [-> | Hy]].
    + replace x with (- - x) by lra. replace y with (- - y) by lra.
      rewrite (round_opp (- x)), (round_opp (- y)).
      assert (Binary64.round (- y) <= Binary64.round (- x))
        by (apply round_le_pos; lra).
      lra.
    + rewrite round_0. left. apply round_neg. assumption.
    + pose proof (round_neg x Hx). pose proof (round_pos y Hy). lra.
  - rewrite round_0. destruct Hxy as [Hy | <-].
    + left. apply round_pos. assumption.
    + rewrite round_0. lra.
  - apply round_le_pos; assumption.
Qed.

Lemma round_representable_pos m e :
  (0 < m < 2 ^ 53)%Z ->
  Binary64.round (IZR m * powerRZ 2 e) = IZR m * powerRZ 2 e.
Proof.
  intros [Hm0 Hm]. pose proof (pow2_pos e) as He.
  assert (Hm0' : 0 < IZR m) by (apply IZR_lt; assumption).
  assert (Hm' : IZR m < IZR (2 ^ 53)) by (apply IZR_lt; assumption).
  set (x := IZR m * powerRZ 2 e).
  assert (Hx : 0 < x) by (unfold x; nra).
  assert (Hx' : x <> 0) by lra.
  pose proof (mag_spec x Hx') as [Hlo Hhi]. rewrite Rabs_pos_eq in Hlo, Hhi by lra.
  set (g := Binary64.mag x) in *.
  assert (Hg : (g < e + 53)%Z).
  { apply pow2_lt_inv. rewrite (pow2_add e 53), (pow2_nonneg_IZR 53) by lia.
    unfold x in Hlo. nra. }
  rewrite round_nonzero by assumption. unfold Binary64.ulp. fold g.
  pose proof (pow2_pos (g - 52)) as Hp.
  assert (Ee : powerRZ 2 e = IZR (2 ^ (e - (g - 52))) * powerRZ 2 (g - 52)).
  { rewrite <- pow2_nonneg_IZR by lia. rewrite <- pow2_add. f_equal. lia. }
  replace (x / powerRZ 2 (g - 52)) with (IZR (m * 2 ^ (e - (g - 52)))).
  - rewrite nearest_even_IZR, mult_IZR. unfold x. rewrite Ee. ring.
  - rewrite mult_IZR. unfold x. rewrite Ee. field. lra.
Qed.

(** A number [m * 2^e] with [|m| <= 2^53] is a double (no bound on the
    exponent is modelled). *)
Lemma round_representable m e :
  (Z.abs m <= 2 ^ 53)%Z ->
  Binary64.round (IZR m * powerRZ 2 e) = IZR m * powerRZ 2 e.
Proof.
  assert (Hpos : forall m, (0 < m <= 2 ^ 53)%Z ->
            Binary64.round (IZR m * powerRZ 2 e) = IZR m * powerRZ 2 e).
  { intros n [Hn0 Hn]. destruct (Z.eq_dec n (2 ^ 53)%Z) as [-> | Hne].
    - replace (IZR (2 ^ 53) * powerRZ 2 e) with (IZR (2 ^ 52) * powerRZ 2 (e + 1)).
      + apply round_representable_pos. lia.
      + rewrite pow2_succ. change (2 ^ 53)%Z with (2 * 2 ^ 52)%Z.
        rewrite mult_IZR. ring.
    - apply round_representable_pos. lia. }
  intros Hm. destruct (Z.lt_trichotomy m 0) as [Hneg | [-> | Hp]].
  - replace (IZR m * powerRZ 2 e) with (- (IZR (- m) * powerRZ 2 e))
      by (rewrite opp_IZR; ring).
    rewrite round_opp, Hpos by lia. reflexivity.
  - rewrite Rmult_0_l. apply round_0.
  - apply Hpos. lia.
Qed.

Lemma round_IZR z : (Z.abs z <= 2 ^ 53)%Z -> Binary64.round (IZR z) = IZR z.
Proof.
  intros Hz. pose proof (round_representable z 0 Hz) as H.
  simpl in H. rewrite Rmult_1_r in H. exact H.
Qed.

(** Rounding a double gives it back. *)
Lemma round_round x : Binary64.round (Binary64.round x) = Binary64.round x.
Proof.
  assert (Hpos : forall y, 0 < y ->
            Binary64.round (Binary64.round y) = Binary64.round y).
  { intros y Hy. assert (Hy' : y <> 0) by lra.
    pose proof (mag_spec y Hy') as Hm. rewrite Rabs_pos_eq in Hm by lra.
    destruct (round_in_binade y _ Hm) as [-> [Hlo Hhi]].
    apply round_representable. lia. }
  destruct (Rtotal_order x 0) as [Hx | [-> | Hx]].
  - assert (H : Binary64.round (Binary64.round (- x)) = Binary64.round (- x))
      by (apply Hpos; lra).
    rewrite !round_opp in H. lra.
  - rewrite !round_0. reflexivity.
  - apply Hpos. assumption.
Qed.

(** Doubling is exact. *)
Lemma round_double x : Binary64.round (2 * x) = 2 * Binary64.round x.
Proof.
  destruct (Req_dec x 0) as [-> | Hx].
  - rewrite Rmult_0_r, round_0. lra.
  - rewrite !round_nonzero by lra. unfold Binary64.ulp.
    rewrite mag_double by assumption.
    replace (Binary64.mag x + 1 - 52)%Z with (Binary64.mag x - 52 + 1)%Z by lia.
    rewrite pow2_succ. pose proof (pow2_pos (Binary64.mag x - 52)) as Hp.
    replace (2 * x / (2 * powerRZ 2 (Binary64.mag x - 52)))
      with (x / powerRZ 2 (Binary64.mag x - 52)) by (field; lra).
    ring.
Qed.

(** The relative error of rounding is at most [2^-53]. *)
Lemma round_error x : Rabs (Binary64.round x - x) <= Rabs x / IZR (2 ^ 53).
Proof.
  destruct (Req_dec x 0) as [-> | Hx].
  - rewrite round_0, Rminus_0_r, Rabs_R0. lra.
  - rewrite round_nonzero by assumption.
    pose proof (mag_spec x Hx) as [Hlo _].
    unfold Binary64.ulp. set (p := powerRZ 2 (Binary64.mag x - 52)).
    assert (Hp : 0 < p) by apply pow2_pos.
    rewrite (pow2_split (Binary64.mag x)) in Hlo. fold p in Hlo.
    pose proof (nearest_even_error (x / p)) as He.
    replace (IZR (Binary64.nearest_even (x / p)) * p - x)
      with ((IZR (Binary64.nearest_even (x / p)) - x / p) * p) by (field; lra).
    rewrite Rabs_mult, (Rabs_pos_eq p) by lra.
    assert (H53 : IZR (2 ^ 53) = 2 * IZR (2 ^ 52)).
    { change (2 ^ 53)%Z with (2 * 2 ^ 52)%Z. rewrite mult_IZR. reflexivity. }
    assert (H52 : 0 < IZR (2 ^ 52)) by (apply IZR_lt; reflexivity).
    apply Rmult_le_reg_r with (IZR (2 ^ 53)); [lra |].
    replace (Rabs x / IZR (2 ^ 53) * IZR (2 ^ 53)) with (Rabs x) by (field; lra).
    set (d := Rabs (IZR (Binary64.nearest_even (x / p)) - x / p)) in *.
    assert (0 <= d) by apply Rabs_pos.
    rewrite H53. nra.
Qed.

(** Evaluating [round] at a given real: the binade and the nearest
    multiple. *)
Lemma round_eval x e n :
  powerRZ 2 e <= x < powerRZ 2 (e + 1) ->
  IZR n - 1 / 2 < x / powerRZ 2 (e - 52) < IZR n + 1 / 2 ->
  Binary64.round x = IZR n * powerRZ 2 (e - 52).
Proof.
  intros Hb Hn. destruct (round_in_binade x e Hb) as [-> _].
  rewrite (nearest_even_unique _ n Hn). reflexivity.
Qed.

(** [round] at a real [x] given with its scale: [x * 2^k] lies in
    [[2^52, 2^53)] and is nearest to the integer [n]. *)
Lemma round_scaled x k n :
  (0 <= k)%Z ->
  IZR (2 ^ 52) <= x * IZR (2 ^ k) < IZR (2 ^ 53) ->
  IZR n - 1 / 2 < x * IZR (2 ^ k) < IZR n + 1 / 2 ->
  Binary64.round x = IZR n / IZR (2 ^ k).
Proof.
  intros Hk Hb Hn.
  assert (Hp : 0 < IZR (2 ^ k)).
  { apply IZR_lt. apply Z.pow_pos_nonneg; lia. }
  assert (Eu : powerRZ 2 (52 - k - 52) = / IZR (2 ^ k)).
  { replace (52 - k - 52)%Z with (- k)%Z by lia.
    rewrite powerRZ_neg', pow2_nonneg_IZR by assumption. reflexivity. }
  rewrite (round_eval x (52 - k) n).
  - rewrite Eu. reflexivity.
  - rewrite pow2_succ, (pow2_split (52 - k)), Eu.
    change (2 ^ 53)%Z with (2 * 2 ^ 52)%Z in Hb. rewrite mult_IZR in Hb.
    destruct Hb as [Hb1 Hb2]. split.
    + apply Rmult_le_reg_r with (IZR (2 ^ k)); [assumption |].
      replace (IZR (2 ^ 52) * / IZR (2 ^ k) * IZR (2 ^ k)) with (IZR (2 ^ 52))
        by (field; lra).
      exact Hb1.
    + apply Rmult_lt_reg_r with (IZR (2 ^ k)); [assumption |].
      replace (2 * (IZR (2 ^ 52) * / IZR (2 ^ k)) * IZR (2 ^ k))
        with (2 * IZR (2 ^ 52)) by (field; lra).
      exact Hb2.
  - rewrite Eu. unfold Rdiv. rewrite Rinv_inv. exact Hn.
Qed.

Lemma round_tenth :
  Binary64.round (1 / 10) = 3602879701896397 / 36028797018963968.
Proof.
  rewrite (round_scaled (1 / 10) 56 7205759403792794); pow2_literals; try lia; lra.
Qed.

Lemma round_10 : Binary64.round 10 = 10.
Proof. apply (round_IZR 10). vm_compute. discriminate. Qed.

Lemma add_10_tenth :
  Binary64.add 10 (1 / 10) = 5685794529555251 / 562949953421312.
Proof.
  unfold Binary64.add. rewrite round_10, round_tenth.
  rewrite (round_scaled _ 49 5685794529555251); pow2_literals; try lia; lra.
Qed.

Lemma div_10_tenth :
  Binary64.div (Binary64.add 10 (1 / 10)) (1 / 10) =
    7107243161944063 / 70368744177664.
Proof.
  unfold Binary64.div. unfold Binary64.add at 1. rewrite round_round.
  fold (Binary64.add 10 (1 / 10)). rewrite add_10_tenth, round_tenth.
  rewrite (round_scaled _ 46 7107243161944063); pow2_literals; try lia; lra.
Qed.

(** ** The sample count of the square well *)

Lemma well_quotient L dx :
  Binary64.div (Binary64.add L dx) dx =
    Binary64.round
      (Binary64.round (Binary64.round L + Binary64.round dx) / Binary64.round dx).
Proof. unfold Binary64.div, Binary64.add. rewrite round_round. reflexivity. Qed.

Lemma round_1 : Binary64.round 1 = 1.
Proof. apply (round_IZR 1). vm_compute. discriminate. Qed.

Lemma round_2 : Binary64.round 2 = 2.
Proof. apply (round_IZR 2). vm_compute. discriminate. Qed.

Lemma round_nonneg x : 0 <= x -> 0 <= Binary64.round x.
Proof. intros H. rewrite <- round_0. apply round_le. assumption. Qed.

(** With a positive step there is at least one sample. *)
Lemma well_points_ge_1 L dx : 0 < dx -> 0 <= L -> (1 <= well_points L dx)%Z.
Proof.
  intros Hdx HL. unfold well_points. rewrite well_quotient.
  pose proof (round_pos dx Hdx) as Hd. pose proof (round_nonneg L HL) as Ha.
  set (a := Binary64.round L) in *. set (d := Binary64.round dx) in *.
  assert (Hs : d <= Binary64.round (a + d)).
  { unfold d at 1. rewrite <- (round_round dx). apply round_le. fold d. lra. }
  assert (Hq : 1 <= Binary64.round (Binary64.round (a + d) / d)).
  { rewrite <- round_1 at 1. apply round_le.
    apply Rmult_le_reg_r with d; [assumption |].
    replace (Binary64.round (a + d) / d * d) with (Binary64.round (a + d))
      by (field; lra).
    lra. }
  rewrite int_of_float_nonneg by lra.
  destruct (Int_part_bounds (Binary64.round (Binary64.round (a + d) / d))) as [_ Hub].
  assert (0 < Int_part (Binary64.round (Binary64.round (a + d) / d)))%Z
    by (apply lt_IZR; lra).
  lia.
Qed.

(** With a step that fits into the length there are at least two. *)
Lemma well_points_ge_2 L dx : 0 < dx -> dx <= L -> (2 <= well_points L dx)%Z.
Proof.
  intros Hdx HL. unfold well_points. rewrite well_quotient.
  pose proof (round_pos dx Hdx) as Hd. pose proof (round_le dx L HL) as Ha.
  set (a := Binary64.round L) in *. set (d := Binary64.round dx) in *.
  assert (Hs : 2 * d <= Binary64.round (a + d)).
  { unfold d at 1. rewrite <- round_double, <- (round_round (2 * dx)).
    apply round_le. rewrite round_double. fold d. lra. }
  assert (Hq : 2 <= Binary64.round (Binary64.round (a + d) / d)).
  { rewrite <- round_2 at 1. apply round_le.
    apply Rmult_le_reg_r with d; [assumption |].
    replace (Binary64.round (a + d) / d * d) with (Binary64.round (a + d))
      by (field; lra).
    lra. }
  rewrite int_of_float_nonneg by lra.
  destruct (Int_part_bounds (Binary64.round (Binary64.round (a + d) / d))) as [_ Hub].
  assert (1 < Int_part (Binary64.round (Binary64.round (a + d) / d)))%Z
    by (apply lt_IZR; lra).
  lia.
Qed.

(** With a negative step of at most half the length the count is
    negative. *)
Lemma well_points_negative L dx :
  dx < 0 -> - 2 * dx <= L -> (well_points L dx < 0)%Z.
Proof.
  intros Hdx HL. unfold well_points. rewrite well_quotient.
  pose proof (round_neg dx Hdx) as Hd.
  assert (Ha : - 2 * Binary64.round dx <= Binary64.round L).
  { replace (- 2 * Binary64.round dx) with (Binary64.round (2 * - dx))
      by (rewrite round_double, round_opp; lra).
    apply round_le. lra. }
  set (a := Binary64.round L) in *. set (d := Binary64.round dx) in *.
  assert (Hs : - d <= Binary64.round (a + d)).
  { unfold d at 1. rewrite <- round_opp, <- (round_round (- dx)).
    apply round_le. rewrite round_opp. fold d. lra. }
  assert (Hq : Binary64.round (Binary64.round (a + d) / d) <= - 1).
  { assert (E : Binary64.round (IZR (-1)) = IZR (-1))
      by (apply round_IZR; vm_compute; discriminate).
    assert (Hle : Binary64.round (a + d) / d <= IZR (-1)).
    { apply Rmult_le_reg_r with (- d); [lra |].
      replace (Binary64.round (a + d) / d * - d) with (- Binary64.round (a + d))
        by (field; lra).
      lra. }
    apply round_le in Hle. rewrite E in Hle. lra. }
  set (q := Binary64.round (Binary64.round (a + d) / d)) in *.
  unfold Numpy.int_of_float. destruct (Rle_dec 0 q); [lra |].
  destruct (Int_part_bounds (- q)) as [_ Hub].
  assert (0 < Int_part (- q))%Z by (apply lt_IZR; lra).
  lia.
Qed.

(** The number of grid intervals. *)
Lemma intervals_pos L dx :
  0 < dx -> dx <= L -> (1 <= well_intervals L dx)%nat.
Proof.
  intros Hdx HL. pose proof (well_points_ge_2 L dx Hdx HL).
  unfold well_intervals. lia.
Qed.

(** ** The grid of [np.linspace] *)

Lemma linspace_uniform L dx :
  0 < dx -> 0 <= L ->
  Numpy.linspace 0 L (Binary64.div (Binary64.add L dx) dx) =
    Ret (uniform_grid L (well_intervals L dx)).
Proof.
  intros Hdx HL. unfold Numpy.linspace, well_intervals.
  change (Numpy.int_of_float (Binary64.div (Binary64.add L dx) dx))
    with (well_points L dx).
  pose proof (well_points_ge_1 L dx Hdx HL) as Hn.
  destruct (Z.ltb_spec (well_points L dx) 0) as [?|_]; [lia|].
  replace (Z.to_nat (well_points L dx)) with (S (Z.to_nat (well_points L dx - 1))) by lia.
  set (M := Z.to_nat (well_points L dx - 1)).
  simpl Nat.sub. rewrite Nat.sub_0_r.
  unfold uniform_grid. f_equal.
  destruct (Nat.ltb_spec 1 (S M)) as [HM|HM].
  - rewrite list_insert_id.
    + apply map_ext. intros i. lra.
    + rewrite list_lookup_fmap, lookup_seq_lt by lia. simpl. f_equal.
      assert (INR M <> 0) by (apply not_0_INR; lia). field. assumption.
  - assert (M = 0%nat) by lia. subst M. rewrite H. simpl. f_equal. lra.
Qed.

(** ** How far the sample count is from [L / dx] *)

(** The relative error of rounding, for a non-negative number. *)
Lemma round_rel_pos x :
  0 <= x ->
  x * (1 - 1 / 9007199254740992) <= Binary64.round x
    <= x * (1 + 1 / 9007199254740992).
Proof.
  intros Hx. pose proof (round_error x) as He.
  rewrite (Rabs_pos_eq x) in He by assumption.
  change (2 ^ 53)%Z with 9007199254740992%Z in He.
  apply Rabs_le_inv in He. lra.
Qed.

Lemma quotient_bounds a d q :
  0 <= a -> 0 < d ->
  a / d * (1 - 1 / 9007199254740992) <= q <= a / d * (1 + 1 / 9007199254740992) ->
  a * (1 - 1 / 9007199254740992) <= q * d <= a * (1 + 1 / 9007199254740992).
Proof.
  intros Ha Hd [Hlo Hhi]. split.
  - replace (a * (1 - 1 / 9007199254740992))
      with (a / d * (1 - 1 / 9007199254740992) * d) by (field; lra).
    apply Rmult_le_compat_r; lra.
  - replace (a * (1 + 1 / 9007199254740992))
      with (a / d * (1 + 1 / 9007199254740992) * d) by (field; lra).
    apply Rmult_le_compat_r; lra.
Qed.

(** The intervals of width [dx] that the count stands for cover [[0, L]] up
    to one step and a relative [2^-50]: four roundings enter the count. *)
Lemma well_intervals_bounds L dx :
  0 < dx -> 0 <= L ->
  L - dx - (L + dx) / 1125899906842624 < INR (well_intervals L dx) * dx
    <= L + (L + dx) / 1125899906842624.
Proof.
  intros Hdx HL. pose proof (well_points_ge_1 L dx Hdx HL) as HN.
  assert (EM : INR (well_intervals L dx) = IZR (well_points L dx) - 1).
  { unfold well_intervals. rewrite INR_IZR_INZ, Z2Nat.id by lia.
    rewrite minus_IZR. reflexivity. }
  rewrite EM. clear EM.
  assert (Hn1 : 1 <= IZR (well_points L dx)) by (apply IZR_le; assumption).
  revert HN Hn1. unfold well_points. rewrite well_quotient. intros HN Hn1.
  pose proof (round_pos dx Hdx) as Hd. pose proof (round_nonneg L HL) as Ha.
  pose proof (round_rel_pos L HL) as Ra.
  pose proof (round_rel_pos dx (Rlt_le _ _ Hdx)) as Rd.
  set (a := Binary64.round L) in *. set (d := Binary64.round dx) in *.
  assert (Hs0 : 0 <= a + d) by lra.
  pose proof (round_rel_pos (a + d) Hs0) as Rs.
  pose proof (round_nonneg (a + d) Hs0) as Hs.
  set (s := Binary64.round (a + d)) in *.
  assert (Hq0 : 0 <= s / d).
  { unfold Rdiv. apply Rmult_le_pos; [assumption |].
    left. apply Rinv_0_lt_compat. assumption. }
  pose proof (round_rel_pos (s / d) Hq0) as Rq.
  pose proof (round_nonneg (s / d) Hq0) as Hq.
  apply quotient_bounds in Rq; [| assumption | assumption].
  set (q := Binary64.round (s / d)) in *.
  unfold Numpy.int_of_float in *. destruct (Rle_dec 0 q) as [_ | Hneg]; [| lra].
  destruct (Int_part_bounds q) as [Hlo Hhi].
  set (n := IZR (Int_part q)) in *.
  assert (A1 : n * d <= q * d) by (apply Rmult_le_compat_r; lra).
  assert (B1 : q * d < (n + 1) * d) by (apply Rmult_lt_compat_r; lra).
  assert (A4 : (n - 1) * (dx * (1 - 1 / 9007199254740992)) <= (n - 1) * d)
    by (apply Rmult_le_compat_l; lra).
  assert (B4 : (n - 1) * d <= (n - 1) * (dx * (1 + 1 / 9007199254740992)))
    by (apply Rmult_le_compat_l; lra).
  split; lra.
Qed.

(** The example of the source's comment, 0 to 10 in steps of 0.1: the
    doubles give [(10 + 0.1) / 0.1 = 100.99999999999999], and 100 samples. *)
Lemma well_points_10_tenth : well_points 10 (1 / 10) = 100%Z.
Proof.
  unfold well_points. rewrite div_10_tenth, int_of_float_nonneg by lra.
  symmetry. apply Int_part_spec. lra.
Qed.

Lemma well_intervals_10_tenth : well_intervals 10 (1 / 10) = 99%nat.
Proof. unfold well_intervals. rewrite well_points_10_tenth. reflexivity. Qed.

Lemma uniform_grid_points L dx :
  0 < dx -> 0 <= L ->
  Z.of_nat (length (uniform_grid L (well_intervals L dx))) = well_points L dx.
Proof.
  intros Hdx HL. pose proof (well_points_ge_1 L dx Hdx HL).
  unfold uniform_grid, well_intervals. rewrite length_map, length_seq. lia.
Qed.

Lemma uniform_grid_length L M : length (uniform_grid L M) = S M.
Proof. unfold uniform_grid. rewrite length_map, length_seq. reflexivity. Qed.

Lemma uniform_grid_lookup L M i :
  (i <= M)%nat -> uniform_grid L M !! i = Some (INR i * (L / INR M)).
Proof.
  intros Hi. unfold uniform_grid.
  rewrite list_lookup_fmap, lookup_seq_lt by lia. reflexivity.
Qed.

Lemma uniform_grid_lookup_inv L M i a :
  uniform_grid L M !! i = Some a -> (i <= M)%nat /\ a = INR i * (L / INR M).
Proof.
  intros H. assert (Hi : (i < S M)%nat).
  { rewrite <- (uniform_grid_length L M). eapply lookup_lt_Some, H. }
  rewrite uniform_grid_lookup in H by lia. split; [lia | congruence].
Qed.

Lemma uniform_grid_first L M : uniform_grid L M !! 0%nat = Some 0.
Proof. rewrite uniform_grid_lookup by lia. simpl. f_equal. lra. Qed.

Lemma uniform_grid_last L M :
  (1 <= M)%nat -> uniform_grid L M !! M = Some L.
Proof.
  intros HM. rewrite uniform_grid_lookup by lia. f_equal.
  assert (INR M <> 0) by (apply not_0_INR; lia). field. assumption.
Qed.

Lemma uniform_grid_spacing L M i a b :
  uniform_grid L M !! i = Some a -> uniform_grid L M !! S i = Some b ->
  b - a = L / INR M.
Proof.
  intros [_ ->]%uniform_grid_lookup_inv [_ ->]%uniform_grid_lookup_inv.
  rewrite S_INR. lra.
Qed.

Lemma uniform_grid_increasing L M :
  0 < L -> strictly_increasing (uniform_grid L M).
Proof.
  intros HL i a b Ha Hb.
  pose proof (uniform_grid_spacing _ _ _ _ _ Ha Hb) as Hs.
  apply uniform_grid_lookup_inv in Hb as [HiM _].
  assert (0 < INR M) by (apply lt_0_INR; lia).
  assert (0 < L / INR M) by (apply Rdiv_lt_0_compat; lra).
  lra.
Qed.

(** ** Mode indices *)

Lemma arange_length lo hi : length (Numpy.arange lo hi) = Z.to_nat (hi - lo).
Proof. unfold Numpy.arange. rewrite length_map, length_seq. reflexivity. Qed.

Lemma arange_lookup lo hi (i : nat) :
  (Z.of_nat i < hi - lo)%Z ->
  Numpy.arange lo hi !! i = Some (lo + Z.of_nat i)%Z.
Proof.
  intros Hi. unfold Numpy.arange.
  rewrite list_lookup_fmap, lookup_seq_lt by lia. reflexivity.
Qed.

Lemma arange_lookup_inv lo hi (i : nat) z :
  Numpy.arange lo hi !! i = Some z ->
  (Z.of_nat i < hi - lo)%Z /\ z = (lo + Z.of_nat i)%Z.
Proof.
  intros H. assert (Hi : (i < Z.to_nat (hi - lo))%nat).
  { rewrite <- arange_length. eapply lookup_lt_Some, H. }
  rewrite arange_lookup in H by lia. split; [lia | congruence].
Qed.

(** ** Finite sums *)

Lemma Rsum_app l1 l2 : Rsum (l1 ++ l2) = Rsum l1 + Rsum l2.
Proof. unfold Rsum. induction l1 as [|a l1 IH]; simpl; [lra | rewrite IH; lra]. Qed.

Lemma Rsum_seq_S (f : nat -> R) N :
  Rsum (map f (seq 0 (S N))) = Rsum (map f (seq 0 N)) + f N.
Proof. rewrite seq_S, map_app, Rsum_app. simpl. unfold Rsum. simpl. lra. Qed.

Lemma Rsum_scale (c : R) l : Rsum (map (fun v => v * c) l) = Rsum l * c.
Proof. unfold Rsum. induction l as [|a l IH]; simpl; [lra | rewrite IH; lra]. Qed.

Lemma Rsum_map_ext {A} (f g : A -> R) l :
  (forall x, x ∈ l -> f x = g x) -> Rsum (map f l) = Rsum (map g l).
Proof.
  intros H. f_equal. apply map_ext_in. intros x Hx. apply H.
  apply list_elem_of_In. assumption.
Qed.

(** ** The sum of [sin^2] over a uniform grid *)

(** Telescoping: [2 sin t * sum_{i<N} cos(2 i t) = sin((2N-1) t) + sin t]. *)
Lemma cos_sum_telescope t N :
  2 * sin t * Rsum (map (fun i : nat => cos (2 * INR i * t)) (seq 0 N)) =
  sin ((2 * INR N - 1) * t) + sin t.
Proof.
  induction N as [|N IH].
  - simpl. unfold Rsum. simpl.
    replace ((2 * 0 - 1) * t) with (- t) by lra. rewrite sin_neg. lra.
  - rewrite Rsum_seq_S, Rmult_plus_distr_l, IH, S_INR.
    replace ((2 * (INR N + 1) - 1) * t) with (2 * INR N * t + t) by lra.
    replace ((2 * INR N - 1) * t) with (2 * INR N * t - t) by lra.
    rewrite sin_plus, sin_minus. lra.
Qed.

Lemma sin_sq_half x : sin x ^ 2 = (1 - cos (2 * x)) / 2.
Proof. rewrite cos_2a_sin. simpl. lra. Qed.

Lemma sin_sq_sum_partial t N :
  Rsum (map (fun i : nat => sin (INR i * t) ^ 2) (seq 0 N)) =
  (INR N - Rsum (map (fun i : nat => cos (2 * INR i * t)) (seq 0 N))) / 2.
Proof.
  induction N as [|N IH].
  - simpl. unfold Rsum. simpl. lra.
  - rewrite !Rsum_seq_S, IH, S_INR, sin_sq_half.
    replace (2 * (INR N * t)) with (2 * INR N * t) by lra. lra.
Qed.

(** For [0 < n < M] the squares of [sin(i n pi / M)], [i = 0..M], add up to
    [M / 2]. *)
Lemma sin_sq_sum (n M : nat) :
  (0 < n < M)%nat ->
  Rsum (map (fun i : nat => sin (INR i * (INR n * PI / INR M)) ^ 2) (seq 0 (S M))) =
  INR M / 2.
Proof.
  intros Hn. set (t := INR n * PI / INR M).
  assert (HM : 0 < INR M) by (apply lt_0_INR; lia).
  assert (Hn0 : 0 < INR n) by (apply lt_0_INR; lia).
  assert (HnM : INR n < INR M) by (apply lt_INR; lia).
  pose proof PI_RGT_0 as Hpi.
  assert (Ht0 : 0 < t).
  { unfold t, Rdiv. apply Rmult_lt_0_compat; [nra | apply Rinv_0_lt_compat; lra]. }
  assert (Ht1 : t < PI).
  { unfold t. apply Rmult_lt_reg_r with (INR M); [lra|].
    replace (INR n * PI / INR M * INR M) with (INR n * PI) by (field; lra). nra. }
  assert (Hsin : 0 < sin t) by (apply sin_gt_0; assumption).
  pose proof (cos_sum_telescope t (S M)) as Hc.
  rewrite S_INR in Hc.
  replace ((2 * (INR M + 1) - 1) * t) with (t + 2 * INR n * PI) in Hc
    by (unfold t; field; lra).
  rewrite sin_period in Hc.
  assert (Hsum : Rsum (map (fun i : nat => cos (2 * INR i * t)) (seq 0 (S M))) = 1) by nra.
  rewrite sin_sq_sum_partial, Hsum, S_INR. lra.
Qed.

Lemma Rsum_scale_l {A} (c : R) (f : A -> R) l :
  Rsum (map (fun i => c * f i) l) = c * Rsum (map f l).
Proof. unfold Rsum. induction l as [|a l IH]; simpl; [lra | rewrite IH; lra]. Qed.

(** ** The discrete normalisation sum of the square-well density *)

(** On the grid of [M] intervals the sampled density of mode [n] sums, with
    weight [dx], to [L * (M * dx) / 4]. *)
Lemma well_density_sum L dx (n M : nat) :
  0 < L -> (0 < n < M)%nat ->
  riemann_sum (QuantVisualizer.prob_density L (uniform_grid L M) (Z.of_nat n)) dx =
  L * (INR M * dx) / 4.
Proof.
  intros HL Hn. unfold riemann_sum. rewrite Rsum_scale.
  unfold QuantVisualizer.prob_density, QuantVisualizer.wfn_ampl,
    QuantVisualizer.amplitude, uniform_grid.
  rewrite !map_map.
  assert (HM : 0 < INR M) by (apply lt_0_INR; lia).
  rewrite (Rsum_map_ext _
             (fun i : nat => L / 2 * sin (INR i * (INR n * PI / INR M)) ^ 2)).
  - rewrite Rsum_scale_l, sin_sq_sum by assumption. field.
  - intros i _. rewrite Rpow_mult_distr, pow2_sqrt by lra.
    f_equal. f_equal. f_equal. unfold QuantVisualizer.kn.
    rewrite <- INR_IZR_INZ. field. lra.
Qed.

(** ** The continuum integral of the square-well density *)

(** The squared amplitude of mode [n] has an antiderivative [F] with
    [F L - F 0 = L^2 / 4]: that is its integral over [[0, L]]. *)
Lemma well_density_integral L (n : Z) :
  0 < L -> n <> 0%Z ->
  exists F : R -> R,
    (forall x, derivable_pt_lim F x (QuantVisualizer.amplitude L n x ^ 2)) /\
    F L - F 0 = L ^ 2 / 4.
Proof.
  intros HL Hn. pose proof PI_RGT_0 as Hpi.
  assert (Hn' : IZR n <> 0) by (apply not_0_IZR; assumption).
  set (k := QuantVisualizer.kn L n).
  assert (Hk : k <> 0).
  { unfold k, QuantVisualizer.kn, Rdiv.
    apply Rmult_integral_contrapositive_currified;
      [apply Rmult_integral_contrapositive_currified; lra
      | apply Rinv_neq_0_compat; lra]. }
  exists (fun x => L / 2 * (1 / 2 * x - / (4 * k) * sin (2 * k * x))).
  split.
  - intros x. unfold QuantVisualizer.amplitude. fold k.
    replace ((sqrt (L / 2) * sin (k * x)) ^ 2)
      with (L / 2 * (1 / 2 * 1 - / (4 * k) * (cos (2 * k * x) * (2 * k * 1)))).
    + apply (derivable_pt_lim_scal
               (fun y => 1 / 2 * y - / (4 * k) * sin (2 * k * y)) (L / 2)).
      apply (derivable_pt_lim_minus
               (fun y => 1 / 2 * y) (fun y => / (4 * k) * sin (2 * k * y))).
      * apply (derivable_pt_lim_scal id (1 / 2)), derivable_pt_lim_id.
      * apply (derivable_pt_lim_scal (fun y => sin (2 * k * y)) (/ (4 * k))).
        apply (derivable_pt_lim_comp (fun y => 2 * k * y) sin).
        -- apply (derivable_pt_lim_scal id (2 * k)), derivable_pt_lim_id.
        -- apply derivable_pt_lim_sin.
    + rewrite Rpow_mult_distr, pow2_sqrt, sin_sq_half by lra.
      replace (2 * (k * x)) with (2 * k * x) by lra. field. assumption.
  - assert (E : 2 * k * L = IZR (2 * n) * PI).
    { unfold k, QuantVisualizer.kn. rewrite mult_IZR. field. lra. }
    rewrite E, (sin_eq_0_1 (IZR (2 * n) * PI)) by (exists (2 * n)%Z; reflexivity).
    replace (2 * k * 0) with 0 by lra. rewrite sin_0. field. assumption.
Qed.

(** ** Runs on valid parameters *)

Lemma well_context_params name L m dx k :
  well_params (well_context name L m dx k) L m dx k.
Proof.
  exists (VFloat L), (VFloat m), (VFloat dx). unfold well_context. simpl.
  repeat split; try reflexivity.
Qed.

Lemma osc_context_params name L m kf dx k :
  osc_params (osc_context name L m kf dx k) L m kf dx k.
Proof.
  exists (VFloat L), (VFloat m), (VFloat kf), (VFloat dx). unfold osc_context. simpl.
  repeat split; try reflexivity.
Qed.

Lemma InfSqWell_valid_run w L m dx k :
  well_params w L m dx k -> 0 < dx -> 0 <= L ->
  QuantVisualizer.InfSqWell w =
    (Ret (map (QuantVisualizer.wfn_ampl L (uniform_grid L (well_intervals L dx)))
              (Numpy.arange 1 (k + 1)),
          map (QuantVisualizer.prob_density L (uniform_grid L (well_intervals L dx)))
              (Numpy.arange 1 (k + 1))),
     well_world w (uniform_grid L (well_intervals L dx))
                (map (QuantVisualizer.energy_level L m) (Numpy.arange 1 (k + 1)))).
Proof.
  intros (vL & vm & vdx & HL & EL & Hm & Em & Hdx & Edx & Hk) Hpos HL0.
  eapply InfSqWell_run; eauto using linspace_uniform. lra.
Qed.

(** ** The integer product of [alpha] *)

Lemma factorial_fits n : (n <= 20)%nat -> (Numpy.factorial n < 2 ^ 64)%Z.
Proof.
  intros Hn. do 21 (destruct n as [| n]; [vm_compute; reflexivity |]). lia.
Qed.

Lemma factorial_overflows n : (21 <= n)%nat -> (2 ^ 64 <= Numpy.factorial n)%Z.
Proof.
  intros Hn. induction Hn as [| n Hn IH].
  - vm_compute. discriminate.
  - change (Numpy.factorial (S n)) with (Z.of_nat (S n) * Numpy.factorial n)%Z. nia.
Qed.

(** Up to [num_modes = 20] every product is an [np.int64]. *)
Lemma product_check_ok k :
  (k <= 20)%Z -> QuantVisualizer.product_check (Numpy.arange 0 (k + 1)) = Ret tt.
Proof.
  intros Hk. unfold QuantVisualizer.product_check.
  rewrite (proj2 (forallb_forall _ _)); [reflexivity |].
  intros n Hn. unfold Numpy.arange in Hn.
  apply in_map_iff in Hn as (i & <- & Hi). apply in_seq in Hi.
  apply Z.ltb_lt, factorial_fits. lia.
Qed.

(** From [num_modes = 21] on the loop reaches a product that is none. *)
Lemma product_check_fails k :
  (21 <= k)%Z -> QuantVisualizer.product_check (Numpy.arange 0 (k + 1)) = Raise TypeError.
Proof.
  intros Hk. unfold QuantVisualizer.product_check.
  destruct (forallb _ _) eqn:E; [| reflexivity].
  rewrite forallb_forall in E. specialize (E 21%Z).
  assert (Hin : In 21%Z (Numpy.arange 0 (k + 1))).
  { unfold Numpy.arange. apply in_map_iff. exists 21%nat. split; [reflexivity |].
    apply in_seq. lia. }
  apply E, Z.ltb_lt in Hin.
  pose proof (factorial_overflows 21 (le_n _)) as Hov.
  change (Z.to_nat 21) with 21%nat in Hin. lia.
Qed.

Lemma ParabSqWell_valid_run w L m kf dx k :
  osc_params w L m kf dx k -> dx <> 0 -> m <> 0 -> (k <= 20)%Z ->
  QuantVisualizer.ParabSqWell w =
    (Ret (map (QuantVisualizer.osc_wfn_ampl m (sqrt (kf / m)) (osc_grid L dx))
              (Numpy.arange 0 (k + 1)),
          map (QuantVisualizer.osc_prob_density m (sqrt (kf / m)) (osc_grid L dx))
              (Numpy.arange 0 (k + 1))),
     osc_world w (osc_grid L dx)
       (map (fun e => e / sqrt (kf / m))
            (map (fun n => (IZR n + 0.5) * QuantVisualizer.hbar * sqrt (kf / m))
                 (Numpy.arange 0 (k + 1))))
       (sqrt (kf / m))).
Proof.
  intros (vL & vm & vk & vdx & HL & EL & Hm & Em & Hk & Ek & Hdx & Edx & Hn) Hnz Hmz Hk20.
  unfold QuantVisualizer.ParabSqWell, bind, get_sim_param, lift, py_div,
    Numpy.arange_step.
  rewrite HL; simpl. rewrite Hm; simpl. rewrite Hk; simpl. rewrite Hdx; simpl.
  rewrite Hn; simpl. rewrite EL, Edx; simpl.
  destruct (Req_dec_T dx 0) as [?|_]; [contradiction|].
  rewrite Ek, Em; simpl.
  destruct (Req_dec_T m 0) as [?|_]; [contradiction|].
  rewrite product_check_ok by assumption.
  reflexivity.
Qed.

(** With more than 20 modes the oscillator raises, and stores nothing. *)
Lemma ParabSqWell_too_many_modes w L m kf dx k :
  osc_params w L m kf dx k -> dx <> 0 -> m <> 0 -> (21 <= k)%Z ->
  QuantVisualizer.ParabSqWell w = (Raise TypeError, w).
Proof.
  intros (vL & vm & vk & vdx & HL & EL & Hm & Em & Hk & Ek & Hdx & Edx & Hn) Hnz Hmz Hk21.
  unfold QuantVisualizer.ParabSqWell, bind, get_sim_param, lift, py_div,
    Numpy.arange_step.
  rewrite HL; simpl. rewrite Hm; simpl. rewrite Hk; simpl. rewrite Hdx; simpl.
  rewrite Hn; simpl. rewrite EL, Edx; simpl.
  destruct (Req_dec_T dx 0) as [?|_]; [contradiction|].
  rewrite Ek, Em; simpl.
  destruct (Req_dec_T m 0) as [?|_]; [contradiction|].
  rewrite product_check_fails by assumption.
  reflexivity.
Qed.

Lemma well_world_energy w xs es : energy_levels (well_world w xs es) = Some es.
Proof.
  unfold energy_levels, well_world, with_sim_params. simpl.
  rewrite lookup_insert_eq. reflexivity.
Qed.

Lemma well_world_grid w xs es : grid (well_world w xs es) = Some xs.
Proof.
  unfold grid, well_world, with_sim_params. simpl.
  rewrite lookup_insert_ne, lookup_insert_eq by discriminate. reflexivity.
Qed.

Lemma osc_world_energy w xs es om : energy_levels (osc_world w xs es om) = Some es.
Proof.
  unfold energy_levels, osc_world, with_sim_params. simpl.
  rewrite lookup_insert_ne, lookup_insert_eq by discriminate. reflexivity.
Qed.

Lemma osc_world_grid w xs es om : grid (osc_world w xs es om) = Some xs.
Proof.
  unfold grid, osc_world, with_sim_params. simpl.
  rewrite !lookup_insert_ne, lookup_insert_eq by discriminate. reflexivity.
Qed.

Lemma osc_context_well_params name L m kf dx k :
  well_params (osc_context name L m kf dx k) L m dx k.
Proof.
  exists (VFloat L), (VFloat m), (VFloat dx). unfold osc_context. simpl.
  repeat split; try reflexivity.
Qed.

Lemma omega_pos m kf : 0 < m -> 0 < kf -> 0 < sqrt (kf / m).
Proof. intros Hm Hk. apply sqrt_lt_R0, Rdiv_lt_0_compat; assumption. Qed.

(** The energies the oscillator stores are [n + 1/2]. *)
Lemma reported_energies om ns :
  0 < om ->
  map (fun e => e / om) (map (fun n => (IZR n + 0.5) * QuantVisualizer.hbar * om) ns) =
  map (fun n => IZR n + 0.5) ns.
Proof.
  intros Hom. rewrite map_map. apply map_ext. intros n.
  unfold QuantVisualizer.hbar. field. lra.
Qed.

Lemma energy_level_increasing L m (a b : Z) :
  0 < L -> 0 < m -> (0 < a < b)%Z ->
  QuantVisualizer.energy_level L m a < QuantVisualizer.energy_level L m b.
Proof.
  intros HL Hm [Ha Hab]. unfold QuantVisualizer.energy_level, QuantVisualizer.hbar.
  pose proof PI_RGT_0 as Hpi.
  assert (Ha' : 0 < IZR a) by (apply IZR_lt; assumption).
  assert (Hab' : IZR a < IZR b) by (apply IZR_lt; assumption).
  assert (HLL : 0 < L * L) by (apply Rmult_lt_0_compat; assumption).
  assert (HD : 0 < 2 * m * L ^ 2).
  { simpl. rewrite Rmult_1_r. apply Rmult_lt_0_compat; [lra | assumption]. }
  apply Rmult_lt_compat_r; [apply Rinv_0_lt_compat, HD |].
  assert (Hx : 0 < IZR a * PI * 1) by (rewrite Rmult_1_r; apply Rmult_lt_0_compat; assumption).
  assert (Hxy : IZR a * PI * 1 < IZR b * PI * 1).
  { rewrite !Rmult_1_r. apply Rmult_lt_compat_r; assumption. }
  simpl. rewrite !Rmult_1_r in *. apply Rmult_le_0_lt_compat; lra.
Qed.

Lemma well_energies_increasing L m k :
  0 < L -> 0 < m ->
  strictly_increasing (map (QuantVisualizer.energy_level L m) (Numpy.arange 1 (k + 1))).
Proof.
  intros HL Hm i a b Ha Hb.
  rewrite list_lookup_fmap in Ha, Hb.
  destruct (Numpy.arange 1 (k + 1) !! i) as [x|] eqn:Ex; [|discriminate].
  destruct (Numpy.arange 1 (k + 1) !! S i) as [y|] eqn:Ey; [|discriminate].
  apply arange_lookup_inv in Ex as [_ ->], Ey as [_ ->].
  simpl in Ha, Hb. injection Ha as <-. injection Hb as <-.
  apply energy_level_increasing; [assumption | assumption | lia].
Qed.

Lemma half_integers_increasing lo hi :
  strictly_increasing (map (fun n => IZR n + 0.5) (Numpy.arange lo hi)).
Proof.
  intros i a b Ha Hb.
  rewrite list_lookup_fmap in Ha, Hb.
  destruct (Numpy.arange lo hi !! i) as [x|] eqn:Ex; [|discriminate].
  destruct (Numpy.arange lo hi !! S i) as [y|] eqn:Ey; [|discriminate].
  apply arange_lookup_inv in Ex as [_ ->], Ey as [_ ->].
  simpl in Ha, Hb. injection Ha as <-. injection Hb as <-.
  assert (IZR (lo + Z.of_nat i) < IZR (lo + Z.of_nat (S i))) by (apply IZR_lt; lia).
  lra.
Qed.

(** ** What any run of a solver does to the world *)

Lemma InfSqWell_cases w :
  (exists e, QuantVisualizer.InfSqWell w = (Raise e, w)) \/
  (exists r xs es, QuantVisualizer.InfSqWell w = (Ret r, well_world w xs es)).
Proof.
  unfold QuantVisualizer.InfSqWell, bind, get_sim_param, lift, float_div.
  repeat run_step.
  right. eexists _, _, _. reflexivity.
Qed.

Lemma ParabSqWell_cases w :
  (exists e, QuantVisualizer.ParabSqWell w = (Raise e, w)) \/
  (exists r xs es om, QuantVisualizer.ParabSqWell w = (Ret r, osc_world w xs es om)).
Proof.
  unfold QuantVisualizer.ParabSqWell, bind, get_sim_param, lift, py_div.
  repeat run_step.
  right. eexists _, _, _, _. reflexivity.
Qed.

Lemma playground_InfSqWell_cases w :
  (exists e, SimPlayground.InfSqWell w = (Raise e, w)) \/
  (exists r xs ks, SimPlayground.InfSqWell w = (Ret r, playground_world w xs ks)).
Proof.
  unfold SimPlayground.InfSqWell, bind, get_sim_param, get_exp_val, lift, float_div.
  repeat run_step.
  right. eexists _, _, _. reflexivity.
Qed.

Lemma InfSqWell_raise_unchanged w e w' :
  QuantVisualizer.InfSqWell w = (Raise e, w') -> w' = w.
Proof.
  intros H. destruct (InfSqWell_cases w) as [[e' E] | (r & xs & es & E)];
    rewrite E in H; congruence.
Qed.

Lemma ParabSqWell_raise_unchanged w e w' :
  QuantVisualizer.ParabSqWell w = (Raise e, w') -> w' = w.
Proof.
  intros H. destruct (ParabSqWell_cases w) as [[e' E] | (r & xs & es & om & E)];
    rewrite E in H; congruence.
Qed.

Lemma same_outside_refl keys w : same_outside keys w w.
Proof. unfold same_outside. repeat split; reflexivity. Qed.

Lemma same_outside_well w xs es :
  same_outside ["x_vals"; "E_array"] w (well_world w xs es).
Proof.
  unfold same_outside, well_world, with_sim_params. simpl.
  repeat split; try reflexivity.
  intros key Hkey. rewrite !lookup_insert_ne; [reflexivity | |];
    intros <-; apply Hkey; set_solver.
Qed.

Lemma same_outside_osc w xs es om :
  same_outside ["x_vals"; "E_array"; "ang_freq"] w (osc_world w xs es om).
Proof.
  unfold same_outside, osc_world, with_sim_params. simpl.
  repeat split; try reflexivity.
  intros key Hkey. rewrite !lookup_insert_ne; [reflexivity | | |];
    intros <-; apply Hkey; set_solver.
Qed.

(** ** The dispatcher *)

Lemma py_in_true s l : QuantVisualizer.py_in s l = true <-> s ∈ l.
Proof.
  unfold QuantVisualizer.py_in. rewrite existsb_exists. split.
  - intros (x & Hx & Heq). apply String.eqb_eq in Heq. subst x.
    apply list_elem_of_In. assumption.
  - intros Hs. exists s. split; [apply list_elem_of_In, Hs | apply String.eqb_refl].
Qed.

Lemma FSW_not_ISW s :
  QuantVisualizer.py_in s QuantVisualizer.FSW_aliases = true ->
  QuantVisualizer.py_in s QuantVisualizer.ISW_aliases = false.
Proof.
  intros H. apply py_in_true in H. unfold QuantVisualizer.FSW_aliases in H.
  apply elem_of_cons in H as [-> | H]; [reflexivity |].
  apply elem_of_cons in H as [-> | H]; [reflexivity |].
  apply elem_of_cons in H as [-> | H]; [reflexivity |].
  apply elem_of_nil in H. contradiction.
Qed.

Lemma simulate_unknown w :
  known_system (sys (quantsim w)) = false ->
  QuantVisualizer.simulate w =
    (Ret tt, mkWorld (quantsim w) (stdout w ++ [QuantVisualizer.not_found_msg])).
Proof.
  unfold known_system. intros H.
  apply orb_false_elim in H as [H H3]. apply orb_false_elim in H as [H1 H2].
  unfold QuantVisualizer.simulate, bind, get_sys. rewrite H1, H2, H3. reflexivity.
Qed.

Lemma simulate_finite_well w :
  QuantVisualizer.py_in (sys (quantsim w)) QuantVisualizer.FSW_aliases = true ->
  QuantVisualizer.simulate w = (Ret tt, with_soln w PyNone).
Proof.
  intros H. unfold QuantVisualizer.simulate, bind, get_sys.
  rewrite (FSW_not_ISW _ H), H. reflexivity.
Qed.

Lemma playground_InfSqWell_run w vL vdx L dx k :
  exp_vals (quantsim w) !! "length" = Some vL ->
  sim_params (quantsim w) !! "dx" = Some vdx ->
  sim_params (quantsim w) !! "num_modes" = Some (VInt k) ->
  to_num vL = Ret L -> to_num vdx = Ret dx ->
  0 < dx -> 0 <= L ->
  SimPlayground.InfSqWell w =
    (Ret (map (QuantVisualizer.wfn_ampl L (uniform_grid L (well_intervals L dx)))
              (Numpy.arange 1 (k + 1)),
          map (QuantVisualizer.prob_density L (uniform_grid L (well_intervals L dx)))
              (Numpy.arange 1 (k + 1))),
     playground_world w (uniform_grid L (well_intervals L dx))
                      (map (QuantVisualizer.kn L) (Numpy.arange 1 (k + 1)))).
Proof.
  intros HL Hdx Hk EL Edx Hpos HL0.
  unfold SimPlayground.InfSqWell, bind, get_sim_param, get_exp_val, lift, float_div.
  rewrite HL; simpl. rewrite Hdx; simpl. rewrite Hk; simpl. rewrite EL, Edx; simpl.
  destruct (Req_dec_T dx 0) as [?|_]; [lra |].
  rewrite linspace_uniform by assumption. simpl.
  rewrite !map_map. reflexivity.
Qed.

Lemma playground_world_grid w xs ks : grid (playground_world w xs ks) = Some xs.
Proof.
  unfold grid, playground_world, with_sim_params. simpl.
  rewrite lookup_insert_ne, lookup_insert_eq by discriminate. reflexivity.
Qed.

(** ** The Hermite series of numpy on the first unit coefficient vectors *)

Example hermval_H0 x : Numpy.hermval x (Numpy.unit_coeffs 0) = 1.
Proof. unfold Numpy.hermval, Numpy.unit_coeffs. simpl. lra. Qed.

Example hermval_H1 x : Numpy.hermval x (Numpy.unit_coeffs 1) = 2 * x.
Proof. unfold Numpy.hermval, Numpy.unit_coeffs. simpl. lra. Qed.

Example hermval_H2 x : Numpy.hermval x (Numpy.unit_coeffs 2) = 4 * x ^ 2 - 2.
Proof. unfold Numpy.hermval, Numpy.unit_coeffs. simpl. lra. Qed.

Example hermval_H3 x : Numpy.hermval x (Numpy.unit_coeffs 3) = 8 * x ^ 3 - 12 * x.
Proof. unfold Numpy.hermval, Numpy.unit_coeffs. simpl. lra. Qed.

(** * The claims *)

(** On valid parameters a run of the oscillator that returns was asked for
    at most 20 modes. *)
Lemma ParabSqWell_valid_inv w L m kf dx k r w' :
  osc_params w L m kf dx k -> dx <> 0 -> m <> 0 ->
  QuantVisualizer.ParabSqWell w = (Ret r, w') -> (k <= 20)%Z.
Proof.
  intros Hp Hdx Hm Hrun. destruct (Z_le_gt_dec k 20) as [| Hgt]; [assumption |].
  rewrite (ParabSqWell_too_many_modes w L m kf dx k Hp Hdx Hm) in Hrun by lia.
  discriminate Hrun.
Qed.

(** C1.  For the square well on valid parameters every mode's amplitude is
    [sqrt(L/2) * sin(pi n x / L)] at every grid point.  With that factor the
    discrete sum of [probability_density[n][i] * dx] over the grid is not
    near 1: it is [L * ((N - 1) * dx) / 4] for the [N] grid points the code
    builds and every mode below [N - 1], which lies between
    [L (L - dx) / 4] and [L^2 / 4] up to a relative [2^-50] and so tends to
    [L^2 / 4] as [dx] tends to 0.  In the continuum the squared amplitude
    has an antiderivative that grows by [L^2 / 4] over [[0, L]]. *)
Theorem well_normalization_sum (w : World) (L m dx : R) (k : Z) (n : nat) :
  well_params w L m dx k ->
  0 < L -> 0 < m -> 0 < dx -> (1 <= k)%Z ->
  (1 <= n)%nat -> (Z.of_nat n <= k)%Z -> (n < well_intervals L dx)%nat ->
  exists sol pd w' xs a p,
    QuantVisualizer.InfSqWell w = (Ret (sol, pd), w') /\
    grid w' = Some xs /\
    Z.of_nat (length xs) = well_points L dx /\
    sol !! (n - 1)%nat = Some a /\
    a = map (fun x => sqrt (L / 2) * sin (PI * INR n / L * x)) xs /\
    pd !! (n - 1)%nat = Some p /\
    riemann_sum p dx = L * (INR (length xs - 1) * dx) / 4 /\
    L * (L - dx - (L + dx) / 1125899906842624) / 4 < riemann_sum p dx
      <= L * (L + (L + dx) / 1125899906842624) / 4 /\
    exists F : R -> R,
      (forall x, derivable_pt_lim F x ((sqrt (L / 2) * sin (PI * INR n / L * x)) ^ 2)) /\
      F L - F 0 = L ^ 2 / 4.
Proof.
  intros Hp HL Hm Hdx Hk Hn1 Hnk HnM.
  pose proof (well_intervals_bounds L dx Hdx (Rlt_le _ _ HL)) as [Hlo Hhi].
  pose proof (uniform_grid_points L dx Hdx (Rlt_le _ _ HL)) as Hpts.
  set (M := well_intervals L dx) in *.
  assert (En : (1 + Z.of_nat (n - 1))%Z = Z.of_nat n) by lia.
  assert (Hsum : riemann_sum (QuantVisualizer.prob_density L (uniform_grid L M) (Z.of_nat n)) dx
                 = L * (INR M * dx) / 4) by (apply well_density_sum; [assumption | lia]).
  assert (EM : (length (uniform_grid L M) - 1)%nat = M).
  { rewrite uniform_grid_length. lia. }
  eexists _, _, _, (uniform_grid L M), _, _.
  split; [apply (InfSqWell_valid_run w L m dx k); [assumption | lra | lra] |].
  split; [apply well_world_grid |].
  split; [exact Hpts |].
  split; [rewrite list_lookup_fmap, arange_lookup by lia; simpl; rewrite En; reflexivity |].
  split.
  { unfold QuantVisualizer.wfn_ampl, QuantVisualizer.amplitude, QuantVisualizer.kn.
    rewrite <- INR_IZR_INZ. reflexivity. }
  split; [rewrite list_lookup_fmap, arange_lookup by lia; simpl; rewrite En; reflexivity |].
  rewrite EM. fold M. split; [exact Hsum |].
  split.
  - rewrite Hsum.
    assert (L * (L - dx - (L + dx) / 1125899906842624) < L * (INR M * dx))
      by (apply Rmult_lt_compat_l; lra).
    assert (L * (INR M * dx) <= L * (L + (L + dx) / 1125899906842624))
      by (apply Rmult_le_compat_l; lra).
    lra.
  - destruct (well_density_integral L (Z.of_nat n)) as (F & HF & HFL); [lra | lia |].
    exists F. split; [| exact HFL].
    intros x. specialize (HF x).
    unfold QuantVisualizer.amplitude, QuantVisualizer.kn in HF.
    rewrite <- INR_IZR_INZ in HF. exact HF.
Qed.

(** C1 at the parameters of the source's own comment (0 to 10 in steps of
    0.1, three modes): 100 grid points, and the first mode's sum is 24.75. *)
Lemma well_normalization_sum_witness :
  exists sol pd w' xs p,
    QuantVisualizer.InfSqWell (well_context "ISW" 10 1 (1 / 10) 3) = (Ret (sol, pd), w') /\
    grid w' = Some xs /\ length xs = 100%nat /\
    pd !! 0%nat = Some p /\
    riemann_sum p (1 / 10) = 99 / 4.
Proof.
  destruct (well_normalization_sum (well_context "ISW" 10 1 (1 / 10) 3) 10 1 (1 / 10) 3 1)
    as (sol & pd & w' & xs & a & p & Hrun & Hg & Hlen & _ & _ & Hp & Hsum & _ & _).
  - apply well_context_params.
  - lra.
  - lra.
  - lra.
  - lia.
  - lia.
  - lia.
  - rewrite well_intervals_10_tenth. lia.
  - rewrite well_points_10_tenth in Hlen.
    assert (El : length xs = 100%nat) by lia.
    exists sol, pd, w', xs, p. split; [exact Hrun |]. split; [exact Hg |].
    split; [exact El |]. split; [exact Hp |].
    rewrite Hsum, El. change (100 - 1)%nat with 99%nat.
    rewrite INR_IZR_INZ. change (Z.of_nat 99) with 99%Z. lra.
Defined.

(** C6.  The grid the square well builds for [0 < dx <= L]: it has
    [int((L + dx) / dx)] points, the quotient being the double the code
    computes, and at least two; it starts at 0, ends at [L], increases
    strictly and is uniform, with spacing [L / (N - 1)] for its [N] points;
    [(N - 1) * dx] is within one step and a relative [2^-50] of [L].  The
    count is not always [floor(L / dx) + 1]: at the values of the source's
    comment, [L = 10] and [dx = 0.1], where the comment expects 101 points,
    it is 100. *)
Theorem well_grid_uniform (w : World) (L m dx : R) (k : Z) :
  well_params w L m dx k ->
  0 < L -> 0 < dx -> dx <= L ->
  exists r w' xs,
    QuantVisualizer.InfSqWell w = (Ret r, w') /\
    grid w' = Some xs /\
    Z.of_nat (length xs) = well_points L dx /\
    (2 <= length xs)%nat /\
    xs !! 0%nat = Some 0 /\
    last xs = Some L /\
    strictly_increasing xs /\
    (forall (i : nat) (a b : R), xs !! i = Some a -> xs !! S i = Some b ->
       b - a = L / INR (length xs - 1)) /\
    L - dx - (L + dx) / 1125899906842624 < INR (length xs - 1) * dx
      <= L + (L + dx) / 1125899906842624 /\
    well_points 10 (1 / 10) = 100%Z.
Proof.
  intros Hp HL Hdx Hle.
  pose proof (intervals_pos L dx Hdx Hle) as HM.
  pose proof (well_intervals_bounds L dx Hdx (Rlt_le _ _ HL)) as Hb.
  pose proof (uniform_grid_points L dx Hdx (Rlt_le _ _ HL)) as Hpts.
  set (M := well_intervals L dx) in *.
  assert (EM : (length (uniform_grid L M) - 1)%nat = M).
  { rewrite uniform_grid_length. lia. }
  eexists _, _, _.
  split; [apply (InfSqWell_valid_run w L m dx k); [assumption | lra | lra] |].
  split; [apply well_world_grid |].
  split; [exact Hpts |].
  split; [rewrite uniform_grid_length; lia |].
  split; [apply uniform_grid_first |].
  split; [rewrite last_lookup, uniform_grid_length; simpl; apply uniform_grid_last, HM |].
  split; [apply uniform_grid_increasing, HL |].
  fold M. rewrite EM.
  split; [| split; [exact Hb | apply well_points_10_tenth]].
  intros i a b Ha Hb'. apply (uniform_grid_spacing _ _ _ _ _ Ha Hb').
Qed.

(** C6 at the parameters of the source's own comment ("want 0 to 10, 0.1
    steps; note that num = 10.1/0.1 = 101 data points"): the grid has 100
    points, not 101, and its spacing is [10 / 99], not [0.1]. *)
Lemma well_grid_uniform_witness :
  exists r w' xs,
    QuantVisualizer.InfSqWell (well_context "ISW" 10 1 (1 / 10) 3) = (Ret r, w') /\
    grid w' = Some xs /\
    length xs = 100%nat /\ xs !! 0%nat = Some 0 /\ last xs = Some 10 /\
    forall (i : nat) (a b : R), xs !! i = Some a -> xs !! S i = Some b ->
      b - a = 10 / 99.
Proof.
  destruct (well_grid_uniform (well_context "ISW" 10 1 (1 / 10) 3) 10 1 (1 / 10) 3)
    as (r & w' & xs & Hrun & Hg & Hlen & _ & H0 & Hlast & _ & Hsp & _ & E100).
  - apply well_context_params.
  - lra.
  - lra.
  - lra.
  - rewrite E100 in Hlen.
    assert (El : length xs = 100%nat) by lia.
    exists r, w', xs. repeat (split; [assumption |]).
    intros i a b Ha Hb. rewrite (Hsp i a b Ha Hb), El.
    change (100 - 1)%nat with 99%nat.
    rewrite INR_IZR_INZ. change (Z.of_nat 99) with 99%Z. reflexivity.
Defined.

(** C7.  After a successful solve the solution list, the probability-density
    list and the energy list have the same length: [num_modes] for the square
    well and [num_modes + 1] for the oscillator.  The square well solves for
    every [num_modes >= 1]; the oscillator solves for [0 <= num_modes <= 20]
    (beyond that it raises, so that no solve is successful). *)
Theorem shape_invariant (w : World) (L m kf dx : R) (k : Z) :
  0 < L -> 0 < m -> 0 < dx ->
  (well_params w L m dx k -> (1 <= k)%Z ->
   exists sol pd w' es,
     QuantVisualizer.InfSqWell w = (Ret (sol, pd), w') /\
     energy_levels w' = Some es /\
     Z.of_nat (length sol) = k /\ Z.of_nat (length pd) = k /\
     Z.of_nat (length es) = k) /\
  (osc_params w L m kf dx k -> 0 < kf -> (0 <= k)%Z ->
   ((k <= 20)%Z ->
    exists sol pd w', QuantVisualizer.ParabSqWell w = (Ret (sol, pd), w')) /\
   (forall sol pd w',
      QuantVisualizer.ParabSqWell w = (Ret (sol, pd), w') ->
      exists es,
        energy_levels w' = Some es /\
        Z.of_nat (length sol) = (k + 1)%Z /\ Z.of_nat (length pd) = (k + 1)%Z /\
        Z.of_nat (length es) = (k + 1)%Z)).
Proof.
  intros HL Hm Hdx. split.
  - intros Hp Hk. eexists _, _, _, _.
    split; [apply (InfSqWell_valid_run w L m dx k); [assumption | lra | lra] |].
    split; [apply well_world_energy |].
    rewrite !length_map, arange_length. lia.
  - intros Hp Hkf Hk.
    assert (Hdx' : dx <> 0) by lra. assert (Hm' : m <> 0) by lra.
    split.
    + intros Hk20. eexists _, _, _.
      apply (ParabSqWell_valid_run w L m kf dx k); assumption.
    + intros sol pd w' Hrun.
      pose proof (ParabSqWell_valid_inv w L m kf dx k _ _ Hp Hdx' Hm' Hrun) as Hk20.
      rewrite (ParabSqWell_valid_run w L m kf dx k Hp Hdx' Hm' Hk20) in Hrun.
      injection Hrun as <- <- <-.
      eexists. split; [apply osc_world_energy |].
      rewrite !length_map, arange_length. lia.
Qed.

Lemma shape_invariant_witness :
  (exists sol pd w' es,
     QuantVisualizer.InfSqWell (osc_context "ISW" 10 1 1 (1 / 10) 3) = (Ret (sol, pd), w') /\
     energy_levels w' = Some es /\
     length sol = 3%nat /\ length pd = 3%nat /\ length es = 3%nat) /\
  (exists sol pd w' es,
     QuantVisualizer.ParabSqWell (osc_context "ISW" 10 1 1 (1 / 10) 3) = (Ret (sol, pd), w') /\
     energy_levels w' = Some es /\
     length sol = 4%nat /\ length pd = 4%nat /\ length es = 4%nat).
Proof.
  destruct (shape_invariant (osc_context "ISW" 10 1 1 (1 / 10) 3) 10 1 1 (1 / 10) 3)
    as [Hwell Hosc]; [lra | lra | lra |].
  split.
  - destruct Hwell as (sol & pd & w' & es & Hrun & He & H1 & H2 & H3);
      [apply osc_context_well_params | lia |].
    exists sol, pd, w', es. repeat split; try assumption; lia.
  - destruct Hosc as [Hret Hshape]; [apply osc_context_params | lra | lia |].
    destruct Hret as (sol & pd & w' & Hrun); [lia |].
    destruct (Hshape sol pd w' Hrun) as (es & He & H1 & H2 & H3).
    exists sol, pd, w', es. repeat split; try assumption; lia.
Defined.

(** C8.  For the oscillator on valid parameters, whenever the solver
    returns, the stored energy of every mode [n = 0 .. num_modes] is the
    dimensionless [n + 1/2], the lowest one being [1/2]; and the solver
    returns for [num_modes <= 20]. *)
Theorem oscillator_reported_energy (w : World) (L m kf dx : R) (k : Z) (n : nat) :
  osc_params w L m kf dx k ->
  0 < L -> 0 < m -> 0 < kf -> 0 < dx -> (0 <= k)%Z ->
  (Z.of_nat n <= k)%Z ->
  ((k <= 20)%Z -> exists r w', QuantVisualizer.ParabSqWell w = (Ret r, w')) /\
  (forall r w',
     QuantVisualizer.ParabSqWell w = (Ret r, w') ->
     exists es,
       energy_levels w' = Some es /\
       Z.of_nat (length es) = (k + 1)%Z /\
       es !! n = Some (INR n + 1 / 2)).
Proof.
  intros Hp HL Hm Hkf Hdx Hk Hn.
  assert (Hdx' : dx <> 0) by lra. assert (Hm' : m <> 0) by lra.
  split.
  - intros Hk20. eexists _, _.
    apply (ParabSqWell_valid_run w L m kf dx k); assumption.
  - intros r w' Hrun.
    pose proof (ParabSqWell_valid_inv w L m kf dx k _ _ Hp Hdx' Hm' Hrun) as Hk20.
    rewrite (ParabSqWell_valid_run w L m kf dx k Hp Hdx' Hm' Hk20) in Hrun.
    injection Hrun as <- <-.
    eexists. split; [apply osc_world_energy |].
    rewrite reported_energies by (apply omega_pos; assumption).
    split; [rewrite length_map, arange_length; lia |].
    rewrite list_lookup_fmap, arange_lookup by lia.
    rewrite Z.add_0_l, INR_IZR_INZ. cbn [fmap option_fmap option_map].
    f_equal. lra.
Qed.

Lemma oscillator_reported_energy_witness :
  exists r w' es,
    QuantVisualizer.ParabSqWell (osc_context "QHO" 10 1 1 (1 / 10) 3) = (Ret r, w') /\
    energy_levels w' = Some es /\
    es !! 0%nat = Some (1 / 2).
Proof.
  destruct (oscillator_reported_energy (osc_context "QHO" 10 1 1 (1 / 10) 3)
              10 1 1 (1 / 10) 3 0)
    as [Hret Hen].
  - apply osc_context_params.
  - lra.
  - lra.
  - lra.
  - lra.
  - lia.
  - lia.
  - destruct Hret as (r & w' & Hrun); [lia |].
    destruct (Hen r w' Hrun) as (es & He & _ & H0).
    exists r, w', es. split; [exact Hrun |]. split; [exact He |].
    rewrite H0. f_equal. simpl. lra.
Defined.

(** C9.  For the square well and for the oscillator, on valid parameters,
    the stored energy levels are those of the modes, one per mode in order
    of the mode index ([(n pi)^2 / (2 m L^2)] for [n = 1 .. num_modes],
    resp. [n + 1/2] for [n = 0 .. num_modes]), and they increase strictly
    with the mode index.  The square well returns for every
    [num_modes >= 1]; the oscillator returns for [num_modes <= 20], and
    whenever it returns its energies are as stated. *)
Theorem energy_levels_increasing (w : World) (L m kf dx : R) (k : Z) :
  0 < L -> 0 < m -> 0 < dx ->
  (well_params w L m dx k -> (1 <= k)%Z ->
   exists r w' es,
     QuantVisualizer.InfSqWell w = (Ret r, w') /\
     energy_levels w' = Some es /\
     Z.of_nat (length es) = k /\
     (forall i : nat, (Z.of_nat i < k)%Z ->
        es !! i = Some ((INR (S i) * PI) ^ 2 / (2 * m * L ^ 2))) /\
     strictly_increasing es) /\
  (osc_params w L m kf dx k -> 0 < kf -> (0 <= k)%Z ->
   ((k <= 20)%Z -> exists r w', QuantVisualizer.ParabSqWell w = (Ret r, w')) /\
   (forall r w',
      QuantVisualizer.ParabSqWell w = (Ret r, w') ->
      exists es,
        energy_levels w' = Some es /\
        Z.of_nat (length es) = (k + 1)%Z /\
        (forall i : nat, (Z.of_nat i <= k)%Z -> es !! i = Some (INR i + 1 / 2)) /\
        strictly_increasing es)).
Proof.
  intros HL Hm Hdx. split.
  - intros Hp Hk. eexists _, _, _.
    split; [apply (InfSqWell_valid_run w L m dx k); [assumption | lra | lra] |].
    split; [apply well_world_energy |].
    split; [rewrite length_map, arange_length; lia |].
    split; [| apply well_energies_increasing; assumption].
    intros i Hi. rewrite list_lookup_fmap, arange_lookup by lia.
    cbn [fmap option_fmap option_map]. f_equal.
    unfold QuantVisualizer.energy_level, QuantVisualizer.hbar.
    rewrite plus_IZR, <- INR_IZR_INZ, S_INR. field. lra.
  - intros Hp Hkf Hk.
    assert (Hdx' : dx <> 0) by lra. assert (Hm' : m <> 0) by lra.
    split.
    + intros Hk20. eexists _, _.
      apply (ParabSqWell_valid_run w L m kf dx k); assumption.
    + intros r w' Hrun.
      pose proof (ParabSqWell_valid_inv w L m kf dx k _ _ Hp Hdx' Hm' Hrun) as Hk20.
      rewrite (ParabSqWell_valid_run w L m kf dx k Hp Hdx' Hm' Hk20) in Hrun.
      injection Hrun as <- <-.
      eexists. split; [apply osc_world_energy |].
      rewrite reported_energies by (apply omega_pos; assumption).
      split; [rewrite length_map, arange_length; lia |].
      split; [| apply half_integers_increasing].
      intros i Hi. rewrite list_lookup_fmap, arange_lookup by lia.
      rewrite Z.add_0_l, INR_IZR_INZ. cbn [fmap option_fmap option_map].
      f_equal. lra.
Qed.

Lemma energy_levels_increasing_witness :
  (exists r w' es,
     QuantVisualizer.InfSqWell (osc_context "QHO" 10 1 1 (1 / 10) 3) = (Ret r, w') /\
     energy_levels w' = Some es /\ length es = 3%nat /\ strictly_increasing es) /\
  (exists r w' es,
     QuantVisualizer.ParabSqWell (osc_context "QHO" 10 1 1 (1 / 10) 3) = (Ret r, w') /\
     energy_levels w' = Some es /\ length es = 4%nat /\ strictly_increasing es).
Proof.
  destruct (energy_levels_increasing (osc_context "QHO" 10 1 1 (1 / 10) 3) 10 1 1 (1 / 10) 3)
    as [Hwell Hosc]; [lra | lra | lra |].
  split.
  - destruct Hwell as (r & w' & es & Hrun & He & Hlen & _ & Hinc);
      [apply osc_context_well_params | lia |].
    exists r, w', es. repeat split; try assumption. lia.
  - destruct Hosc as [Hret Hen]; [apply osc_context_params | lra | lia |].
    destruct Hret as (r & w' & Hrun); [lia |].
    destruct (Hen r w' Hrun) as (es & He & Hlen & _ & Hinc).
    exists r, w', es. repeat split; try assumption. lia.
Defined.

(** C2, as the code has it.  The solvers validate nothing.  When a
    parameter a solver reads is missing, the solver raises [KeyError] for a
    missing key and leaves the context as it was; and whenever a solver
    raises, for whatever reason, the context is unmodified. *)
Theorem missing_parameter_fails (w : World) (key : string) :
  sim_params (quantsim w) !! key = None ->
  (key ∈ well_keys ->
   exists k', sim_params (quantsim w) !! k' = None /\
              QuantVisualizer.InfSqWell w = (Raise (KeyError k'), w)) /\
  (key ∈ osc_keys ->
   exists k', sim_params (quantsim w) !! k' = None /\
              QuantVisualizer.ParabSqWell w = (Raise (KeyError k'), w)) /\
  (forall e w', QuantVisualizer.InfSqWell w = (Raise e, w') -> w' = w) /\
  (forall e w', QuantVisualizer.ParabSqWell w = (Raise e, w') -> w' = w).
Proof.
  intros Hnone. split; [| split; [| split]].
  - intros Hin.
    unfold QuantVisualizer.InfSqWell, bind, get_sim_param.
    destruct (sim_params (quantsim w) !! "length") eqn:E1; simpl;
      [| exists "length"; split; [assumption | reflexivity]].
    destruct (sim_params (quantsim w) !! "mass") eqn:E2; simpl;
      [| exists "mass"; split; [assumption | reflexivity]].
    destruct (sim_params (quantsim w) !! "dx") eqn:E3; simpl;
      [| exists "dx"; split; [assumption | reflexivity]].
    destruct (sim_params (quantsim w) !! "num_modes") eqn:E4; simpl;
      [| exists "num_modes"; split; [assumption | reflexivity]].
    exfalso. unfold well_keys in Hin.
    repeat (apply elem_of_cons in Hin as [-> | Hin]; [congruence |]).
    apply elem_of_nil in Hin. contradiction.
  - intros Hin.
    unfold QuantVisualizer.ParabSqWell, bind, get_sim_param.
    destruct (sim_params (quantsim w) !! "length") eqn:E1; simpl;
      [| exists "length"; split; [assumption | reflexivity]].
    destruct (sim_params (quantsim w) !! "mass") eqn:E2; simpl;
      [| exists "mass"; split; [assumption | reflexivity]].
    destruct (sim_params (quantsim w) !! "force_constant_k") eqn:E3; simpl;
      [| exists "force_constant_k"; split; [assumption | reflexivity]].
    destruct (sim_params (quantsim w) !! "dx") eqn:E4; simpl;
      [| exists "dx"; split; [assumption | reflexivity]].
    destruct (sim_params (quantsim w) !! "num_modes") eqn:E5; simpl;
      [| exists "num_modes"; split; [assumption | reflexivity]].
    exfalso. unfold osc_keys in Hin.
    repeat (apply elem_of_cons in Hin as [-> | Hin]; [congruence |]).
    apply elem_of_nil in Hin. contradiction.
  - apply InfSqWell_raise_unchanged.
  - apply ParabSqWell_raise_unchanged.
Qed.

Lemma missing_parameter_fails_witness :
  sim_params (quantsim (shared_context 1 1 1)) !! "mass" = None /\
  exists k', QuantVisualizer.InfSqWell (shared_context 1 1 1) =
             (Raise (KeyError k'), shared_context 1 1 1).
Proof.
  split; [reflexivity |].
  destruct (missing_parameter_fails (shared_context 1 1 1) "mass") as [Hwell _];
    [reflexivity |].
  destruct Hwell as (k' & _ & Hrun); [unfold well_keys; set_solver |].
  exists k'. exact Hrun.
Defined.

(** C2 fails on the code: with [num_modes = 0] (and the other parameters
    valid) the square well raises nothing; it returns two empty lists and
    stores the grid and an empty energy list in the context. *)
Lemma well_accepts_zero_modes :
  exists w',
    QuantVisualizer.InfSqWell (well_context "ISW" 10 1 (1 / 10) 0) = (Ret ([], []), w') /\
    is_Some (grid w') /\
    energy_levels w' = Some [].
Proof.
  eexists. split; [| split].
  - apply (InfSqWell_valid_run _ 10 1 (1 / 10) 0);
      [apply well_context_params | lra | lra].
  - rewrite well_world_grid. eexists. reflexivity.
  - rewrite well_world_energy. reflexivity.
Qed.

(** C3, as the code has it.  When the system identifier is in none of the
    alias lists, [simulate] prints the "System not found" message and
    returns normally; the context object is left exactly as it was (so a
    grid or solution that was absent stays absent). *)
Theorem simulate_unknown_system (w : World) :
  known_system (sys (quantsim w)) = false ->
  exists w',
    QuantVisualizer.simulate w = (Ret tt, w') /\
    quantsim w' = quantsim w /\
    stdout w' = (stdout w ++ [QuantVisualizer.not_found_msg])%list /\
    grid w' = grid w /\
    soln (quantsim w') = soln (quantsim w).
Proof.
  intros H. eexists. split; [apply simulate_unknown, H |].
  repeat split; reflexivity.
Qed.

Lemma simulate_unknown_system_witness :
  exists w',
    QuantVisualizer.simulate (well_context "nonexistent" 10 1 (1 / 10) 3) = (Ret tt, w') /\
    grid w' = None /\
    soln (quantsim w') = None.
Proof.
  destruct (simulate_unknown_system (well_context "nonexistent" 10 1 (1 / 10) 3))
    as (w' & Hrun & _ & _ & Hg & Hs); [reflexivity |].
  exists w'. split; [exact Hrun |]. split; [rewrite Hg | rewrite Hs]; reflexivity.
Defined.

(** C3 fails on the code: for the identifier ["nonexistent"] [simulate]
    returns as it does on success; no exception reaches the caller. *)
Lemma simulate_unknown_returns_normally :
  known_system "nonexistent" = false /\
  fst (QuantVisualizer.simulate (well_context "nonexistent" 10 1 (1 / 10) 3)) = Ret tt /\
  forall e,
    fst (QuantVisualizer.simulate (well_context "nonexistent" 10 1 (1 / 10) 3)) <> Raise e.
Proof.
  split; [reflexivity |].
  rewrite simulate_unknown by reflexivity. simpl.
  split; [reflexivity | discriminate].
Qed.

(** C4, as the code has it.  When the system identifier is an alias of the
    finite square well, [simulate] computes nothing and raises nothing: it
    returns normally, prints nothing, and sets the [soln] attribute to
    [None], leaving the rest of the context untouched.  The outcome differs
    from the unknown-system case, which prints a message and leaves [soln]
    alone. *)
Theorem simulate_finite_square_well (w : World) :
  QuantVisualizer.py_in (sys (quantsim w)) QuantVisualizer.FSW_aliases = true ->
  exists w',
    QuantVisualizer.simulate w = (Ret tt, w') /\
    soln (quantsim w') = Some PyNone /\
    sim_params (quantsim w') = sim_params (quantsim w) /\
    prob_dens (quantsim w') = prob_dens (quantsim w) /\
    stdout w' = stdout w /\
    known_system (sys (quantsim w)) = true.
Proof.
  intros H. exists (with_soln w PyNone).
  split; [apply simulate_finite_well, H |].
  repeat (split; [reflexivity |]).
  unfold known_system. rewrite H, orb_true_r. reflexivity.
Qed.

Lemma simulate_finite_square_well_witness :
  exists w',
    QuantVisualizer.simulate (well_context "FSW" 10 1 (1 / 10) 3) = (Ret tt, w') /\
    soln (quantsim w') = Some PyNone /\
    stdout w' = [].
Proof.
  destruct (simulate_finite_square_well (well_context "FSW" 10 1 (1 / 10) 3))
    as (w' & Hrun & Hs & _ & _ & Hout & _); [reflexivity |].
  exists w'. split; [exact Hrun |]. split; [exact Hs | exact Hout].
Defined.

(** C4 fails on the code: for the identifier ["FSW"] [simulate] raises
    nothing; it returns normally. *)
Lemma simulate_finite_well_returns_normally :
  fst (QuantVisualizer.simulate (well_context "FSW" 10 1 (1 / 10) 3)) = Ret tt /\
  forall e,
    fst (QuantVisualizer.simulate (well_context "FSW" 10 1 (1 / 10) 3)) <> Raise e.
Proof.
  rewrite simulate_finite_well by reflexivity. simpl.
  split; [reflexivity | discriminate].
Qed.

(** C5, as the code has it.  The solvers do write to the context: the
    square well stores [x_vals] and [E_array] in [sim_params], the oscillator
    stores [x_vals], [E_array] and [ang_freq].  Nothing else changes: every
    other entry of [sim_params], the system identifier, [exp_vals], the
    [soln] and [prob_dens] attributes and the output are as before. *)
Theorem solvers_write_only_their_arrays (w : World) :
  same_outside ["x_vals"; "E_array"] w (snd (QuantVisualizer.InfSqWell w)) /\
  same_outside ["x_vals"; "E_array"; "ang_freq"] w (snd (QuantVisualizer.ParabSqWell w)) /\
  (forall r w', QuantVisualizer.InfSqWell w = (Ret r, w') ->
     is_Some (grid w') /\ is_Some (energy_levels w')) /\
  (forall r w', QuantVisualizer.ParabSqWell w = (Ret r, w') ->
     is_Some (grid w') /\ is_Some (energy_levels w') /\
     is_Some (sim_params (quantsim w') !! "ang_freq")).
Proof.
  split; [| split; [| split]].
  - destruct (InfSqWell_cases w) as [[e E] | (r & xs & es & E)]; rewrite E; simpl.
    + apply same_outside_refl.
    + apply same_outside_well.
  - destruct (ParabSqWell_cases w) as [[e E] | (r & xs & es & om & E)]; rewrite E; simpl.
    + apply same_outside_refl.
    + apply same_outside_osc.
  - intros r w' H.
    destruct (InfSqWell_cases w) as [[e E] | (r' & xs & es & E)];
      rewrite E in H; [discriminate |].
    injection H as _ <-.
    rewrite well_world_grid, well_world_energy. split; eexists; reflexivity.
  - intros r w' H.
    destruct (ParabSqWell_cases w) as [[e E] | (r' & xs & es & om & E)];
      rewrite E in H; [discriminate |].
    injection H as _ <-.
    rewrite osc_world_grid, osc_world_energy.
    repeat split; try (eexists; reflexivity).
    unfold osc_world, with_sim_params. simpl. rewrite lookup_insert_eq.
    eexists; reflexivity.
Qed.

(** C5 fails on the code: on valid parameters the square well changes the
    context, which has a grid afterwards and had none before. *)
Lemma well_solver_mutates_context :
  grid (well_context "ISW" 10 1 (1 / 10) 3) = None /\
  exists r w' xs,
    QuantVisualizer.InfSqWell (well_context "ISW" 10 1 (1 / 10) 3) = (Ret r, w') /\
    grid w' = Some xs /\
    w' <> well_context "ISW" 10 1 (1 / 10) 3.
Proof.
  split; [reflexivity |].
  eexists _, _, _. split; [| split].
  - apply (InfSqWell_valid_run _ 10 1 (1 / 10) 3);
      [apply well_context_params | lra | lra].
  - apply well_world_grid.
  - intros H. apply (f_equal grid) in H. rewrite well_world_grid in H.
    discriminate H.
Qed.

(** C10, as the code has it.  When the context supplies the same positive
    length in [exp_vals] and in [sim_params], a positive [dx], an integer
    [num_modes >= 1] and also a numeric [mass] in [sim_params] (which only
    QuantVisualizer's solver reads), the two square-well solvers return the
    same [wfn_solns] and [prob_densities] and store the same [x_vals]. *)
Theorem InfSqWell_implementations_agree (w : World) (L m dx : R) (k : Z) :
  exp_length w L -> well_params w L m dx k ->
  0 < L -> 0 < dx -> (1 <= k)%Z ->
  exists sol pd w1 w2 xs,
    SimPlayground.InfSqWell w = (Ret (sol, pd), w1) /\
    QuantVisualizer.InfSqWell w = (Ret (sol, pd), w2) /\
    Z.of_nat (length sol) = k /\
    grid w1 = Some xs /\ grid w2 = Some xs.
Proof.
  intros (vL & HL & EL) Hp HL0 Hdx Hk.
  pose proof (InfSqWell_valid_run w L m dx k Hp Hdx (Rlt_le _ _ HL0)) as Hqv.
  destruct Hp as (vL' & vm & vdx & _ & _ & _ & _ & Hdx' & Edx & Hk').
  pose proof (playground_InfSqWell_run w vL vdx L dx k HL Hdx' Hk' EL Edx Hdx
                (Rlt_le _ _ HL0)) as Hsp.
  eexists _, _, _, _, _.
  split; [exact Hsp |]. split; [exact Hqv |].
  split; [rewrite length_map, arange_length; lia |].
  split; [apply playground_world_grid | apply well_world_grid].
Qed.

Lemma InfSqWell_implementations_agree_witness :
  exists sol pd w1 w2 xs,
    SimPlayground.InfSqWell
      (mkWorld (mkQuantSim "ISW" (<["length" := VFloat 10]> ∅)
                  (sim_params (quantsim (well_context "ISW" 10 1 (1 / 10) 3))) None None) [])
      = (Ret (sol, pd), w1) /\
    QuantVisualizer.InfSqWell
      (mkWorld (mkQuantSim "ISW" (<["length" := VFloat 10]> ∅)
                  (sim_params (quantsim (well_context "ISW" 10 1 (1 / 10) 3))) None None) [])
      = (Ret (sol, pd), w2) /\
    length sol = 3%nat /\
    grid w1 = Some xs /\ grid w2 = Some xs.
Proof.
  destruct (InfSqWell_implementations_agree
              (mkWorld (mkQuantSim "ISW" (<["length" := VFloat 10]> ∅)
                  (sim_params (quantsim (well_context "ISW" 10 1 (1 / 10) 3))) None None) [])
              10 1 (1 / 10) 3)
    as (sol & pd & w1 & w2 & xs & H1 & H2 & Hlen & Hg1 & Hg2).
  - exists (VFloat 10). split; reflexivity.
  - exists (VFloat 10), (VFloat 1), (VFloat (1 / 10)). simpl. repeat split; reflexivity.
  - lra.
  - lra.
  - lia.
  - exists sol, pd, w1, w2, xs. repeat split; try assumption. lia.
Defined.

(** C10 fails on the code when the context has no [mass]: SimPlayground's
    solver returns its lists, QuantVisualizer's raises [KeyError]. *)
Lemma implementations_differ_without_mass :
  exp_length (shared_context 1 1 1) 1 /\
  (exists r w', SimPlayground.InfSqWell (shared_context 1 1 1) = (Ret r, w')) /\
  QuantVisualizer.InfSqWell (shared_context 1 1 1) =
    (Raise (KeyError "mass"), shared_context 1 1 1).
Proof.
  split; [exists (VFloat 1); split; reflexivity |].
  split.
  - eexists _, _.
    apply (playground_InfSqWell_run _ (VFloat 1) (VFloat 1) 1 1 1);
      try reflexivity; lra.
  - reflexivity.
Qed.

(** * Further properties of the code *)

(** ** The solvers as functions of the parameters they read *)

Lemma InfSqWell_core w :
  QuantVisualizer.InfSqWell w =
    match well_reads w with
    | Raise e => (Raise e, w)
    | Ret (vL, vm, vdx, vn) =>
        match well_core vL vm vdx vn with
        | Raise e => (Raise e, w)
        | Ret r =>
            (Ret (solutions r, densities r),
             well_world w (solved_grid r) (solved_energies r))
        end
    end.
Proof.
  unfold QuantVisualizer.InfSqWell, well_reads, well_core, bind, get_sim_param, lift.
  destruct (sim_params (quantsim w) !! "length") as [vL|]; [simpl | reflexivity].
  destruct (sim_params (quantsim w) !! "mass") as [vm|]; [simpl | reflexivity].
  destruct (sim_params (quantsim w) !! "dx") as [vdx|]; [simpl | reflexivity].
  destruct (sim_params (quantsim w) !! "num_modes") as [vn|]; [simpl | reflexivity].
  destruct (to_num vL) as [L|]; [simpl | reflexivity].
  destruct (to_num vdx) as [dx|]; [simpl | reflexivity].
  destruct (float_div (Binary64.add L dx) dx) as [num|]; [simpl | reflexivity].
  destruct (Numpy.linspace 0 L num) as [xs|]; [simpl | reflexivity].
  destruct (Numpy.arange_upto 1 vn) as [ns|]; [simpl | reflexivity].
  destruct (QuantVisualizer.loop_num vm ns) as [m|]; reflexivity.
Qed.

Lemma ParabSqWell_core w :
  QuantVisualizer.ParabSqWell w =
    match osc_reads w with
    | Raise e => (Raise e, w)
    | Ret (vL, vm, vk, vdx, vn) =>
        match osc_core vL vm vk vdx vn with
        | Raise e => (Raise e, w)
        | Ret (r, om) =>
            (Ret (solutions r, densities r),
             osc_world w (solved_grid r) (solved_energies r) om)
        end
    end.
Proof.
  unfold QuantVisualizer.ParabSqWell, osc_reads, osc_core, bind, get_sim_param, lift.
  destruct (sim_params (quantsim w) !! "length") as [vL|]; [simpl | reflexivity].
  destruct (sim_params (quantsim w) !! "mass") as [vm|]; [simpl | reflexivity].
  destruct (sim_params (quantsim w) !! "force_constant_k") as [vk|]; [simpl | reflexivity].
  destruct (sim_params (quantsim w) !! "dx") as [vdx|]; [simpl | reflexivity].
  destruct (sim_params (quantsim w) !! "num_modes") as [vn|]; [simpl | reflexivity].
  destruct (to_num vL) as [L|]; [simpl | reflexivity].
  destruct (to_num vdx) as [dx|]; [simpl | reflexivity].
  destruct (Numpy.arange_step (- L) L dx) as [xs|]; [simpl | reflexivity].
  destruct (Numpy.arange_upto 0 vn) as [ns|]; [simpl | reflexivity].
  destruct (to_num vk) as [k|]; [simpl | reflexivity].
  destruct (to_num vm) as [m|]; [simpl | reflexivity].
  destruct (py_div k m) as [km|]; [simpl | reflexivity].
  destruct (QuantVisualizer.index_check vn ns) as [u|]; [simpl | reflexivity].
  destruct (QuantVisualizer.product_check ns) as [u'|]; reflexivity.
Qed.

Lemma well_core_inv vL vm vdx vn r :
  well_core vL vm vdx vn = Ret r ->
  exists L m dx ns,
    to_num vL = Ret L /\ QuantVisualizer.loop_num vm ns = Ret m /\
    to_num vdx = Ret dx /\ dx <> 0 /\
    Numpy.linspace 0 L (Binary64.div (Binary64.add L dx) dx) = Ret (solved_grid r) /\
    Numpy.arange_upto 1 vn = Ret ns /\
    solutions r = map (QuantVisualizer.wfn_ampl L (solved_grid r)) ns /\
    densities r = map (QuantVisualizer.prob_density L (solved_grid r)) ns /\
    solved_energies r = map (QuantVisualizer.energy_level L m) ns.
Proof.
  unfold well_core, float_div. intros H.
  destruct (to_num vL) as [L|] eqn:?; [| discriminate].
  destruct (to_num vdx) as [dx|] eqn:?; [| discriminate].
  destruct (Req_dec_T dx 0) as [|Hdx]; [discriminate |].
  destruct (Numpy.linspace 0 L (Binary64.div (Binary64.add L dx) dx)) as [xs|] eqn:?;
    [| discriminate].
  destruct (Numpy.arange_upto 1 vn) as [ns|] eqn:?; [| discriminate].
  destruct (QuantVisualizer.loop_num vm ns) as [m|] eqn:?; [| discriminate].
  injection H as <-. exists L, m, dx, ns. simpl. repeat split; auto.
Qed.

Lemma osc_core_inv vL vm vk vdx vn r om :
  osc_core vL vm vk vdx vn = Ret (r, om) ->
  exists L m kf dx ns,
    to_num vL = Ret L /\ to_num vm = Ret m /\ to_num vk = Ret kf /\
    to_num vdx = Ret dx /\ m <> 0 /\ om = sqrt (kf / m) /\
    Numpy.arange_step (- L) L dx = Ret (solved_grid r) /\
    Numpy.arange_upto 0 vn = Ret ns /\
    solutions r = map (QuantVisualizer.osc_wfn_ampl m om (solved_grid r)) ns /\
    densities r = map (QuantVisualizer.osc_prob_density m om (solved_grid r)) ns /\
    solved_energies r =
      map (fun e => e / om)
          (map (fun n => (IZR n + 0.5) * QuantVisualizer.hbar * om) ns).
Proof.
  unfold osc_core, py_div. intros H.
  destruct (to_num vL) as [L|] eqn:?; [| discriminate].
  destruct (to_num vdx) as [dx|] eqn:?; [| discriminate].
  destruct (Numpy.arange_step (- L) L dx) as [xs|] eqn:?; [| discriminate].
  destruct (Numpy.arange_upto 0 vn) as [ns|] eqn:?; [| discriminate].
  destruct (to_num vk) as [kf|] eqn:?; [| discriminate].
  destruct (to_num vm) as [m|] eqn:?; [| discriminate].
  destruct (Req_dec_T m 0) as [|Hm]; [discriminate |].
  destruct (QuantVisualizer.index_check vn ns) eqn:?; [| discriminate].
  destruct (QuantVisualizer.product_check ns) eqn:?; [| discriminate].
  injection H as <- <-. exists L, m, kf, dx, ns. simpl. repeat split; auto.
Qed.

(** A successful run of the square well, opened up. *)
Lemma InfSqWell_success w sol pd w' :
  QuantVisualizer.InfSqWell w = (Ret (sol, pd), w') ->
  exists vL vm vdx vn r,
    well_reads w = Ret (vL, vm, vdx, vn) /\ well_core vL vm vdx vn = Ret r /\
    sol = solutions r /\ pd = densities r /\
    w' = well_world w (solved_grid r) (solved_energies r).
Proof.
  rewrite InfSqWell_core. intros H.
  destruct (well_reads w) as [[[[vL vm] vdx] vn]|]; [| discriminate].
  destruct (well_core vL vm vdx vn) as [r|] eqn:Hr; [| discriminate].
  injection H as <- <- <-. exists vL, vm, vdx, vn, r. repeat split; auto.
Qed.

(** A successful run of the oscillator, opened up. *)
Lemma ParabSqWell_success w sol pd w' :
  QuantVisualizer.ParabSqWell w = (Ret (sol, pd), w') ->
  exists vL vm vk vdx vn r om,
    osc_reads w = Ret (vL, vm, vk, vdx, vn) /\
    osc_core vL vm vk vdx vn = Ret (r, om) /\
    sol = solutions r /\ pd = densities r /\
    w' = osc_world w (solved_grid r) (solved_energies r) om.
Proof.
  rewrite ParabSqWell_core. intros H.
  destruct (osc_reads w) as [[[[[vL vm] vk] vdx] vn]|]; [| discriminate].
  destruct (osc_core vL vm vk vdx vn) as [[r om]|] eqn:Hr; [| discriminate].
  injection H as <- <- <-. exists vL, vm, vk, vdx, vn, r, om. repeat split; auto.
Qed.

Lemma osc_wfn_ampl_length m om xs n :
  length (QuantVisualizer.osc_wfn_ampl m om xs n) = length xs.
Proof.
  unfold QuantVisualizer.osc_wfn_ampl, QuantVisualizer.exp_decay.
  rewrite length_zip_with, length_map. lia.
Qed.

Lemma well_core_shapes vL vm vdx vn r :
  well_core vL vm vdx vn = Ret r ->
  length (solutions r) = length (solved_energies r) /\
  length (densities r) = length (solved_energies r) /\
  forall (i : nat) (a : list R), solutions r !! i = Some a ->
    length a = length (solved_grid r) /\
    densities r !! i = Some (map (fun v => v ^ 2) a).
Proof.
  intros Hc. apply well_core_inv in Hc
    as (L & m & dx & ns & _ & _ & _ & _ & _ & _ & Hs & Hd & He).
  rewrite Hs, Hd, He, !length_map. repeat split.
  - rewrite list_lookup_fmap in H. destruct (ns !! i); [| discriminate].
    injection H as <-. unfold QuantVisualizer.wfn_ampl. apply length_map.
  - rewrite list_lookup_fmap in H |- *. destruct (ns !! i); [| discriminate].
    injection H as <-. reflexivity.
Qed.

Lemma osc_core_shapes vL vm vk vdx vn r om :
  osc_core vL vm vk vdx vn = Ret (r, om) ->
  length (solutions r) = length (solved_energies r) /\
  length (densities r) = length (solved_energies r) /\
  forall (i : nat) (a : list R), solutions r !! i = Some a ->
    length a = length (solved_grid r) /\
    densities r !! i = Some (map (fun v => v ^ 2) a).
Proof.
  intros Hc. apply osc_core_inv in Hc
    as (L & m & kf & dx & ns & _ & _ & _ & _ & _ & _ & _ & _ & Hs & Hd & He).
  rewrite Hs, Hd, He, !length_map. repeat split.
  - rewrite list_lookup_fmap in H. destruct (ns !! i); [| discriminate].
    injection H as <-. apply osc_wfn_ampl_length.
  - rewrite list_lookup_fmap in H |- *. destruct (ns !! i); [| discriminate].
    injection H as <-. reflexivity.
Qed.

(** ** Shapes of the results *)

(** X1.  Whichever of the two solvers of QuantVisualizer ran, and on
    whatever parameters, if it returned then: the solution list, the density
    list and the stored energy list have one common length; every amplitude
    array has the length of the stored grid; and every density array is the
    elementwise square of the amplitude array of the same index. *)
Theorem solved_shapes (w : World) (sol pd : list (list R)) (w' : World) :
  QuantVisualizer.InfSqWell w = (Ret (sol, pd), w') \/
  QuantVisualizer.ParabSqWell w = (Ret (sol, pd), w') ->
  exists xs es,
    grid w' = Some xs /\ energy_levels w' = Some es /\
    length sol = length es /\ length pd = length es /\
    forall (i : nat) (a : list R), sol !! i = Some a ->
      length a = length xs /\ pd !! i = Some (map (fun v => v ^ 2) a).
Proof.
  intros [H | H].
  - apply InfSqWell_success in H as (vL & vm & vdx & vn & r & _ & Hc & -> & -> & ->).
    destruct (well_core_shapes _ _ _ _ _ Hc) as (Hl1 & Hl2 & Hall).
    exists (solved_grid r), (solved_energies r).
    split; [apply well_world_grid |]. split; [apply well_world_energy |].
    split; [exact Hl1 |]. split; [exact Hl2 | exact Hall].
  - apply ParabSqWell_success in H
      as (vL & vm & vk & vdx & vn & r & om & _ & Hc & -> & -> & ->).
    destruct (osc_core_shapes _ _ _ _ _ _ _ Hc) as (Hl1 & Hl2 & Hall).
    exists (solved_grid r), (solved_energies r).
    split; [apply osc_world_grid |]. split; [apply osc_world_energy |].
    split; [exact Hl1 |]. split; [exact Hl2 | exact Hall].
Qed.

Lemma solved_shapes_witness :
  exists sol pd w' xs,
    QuantVisualizer.ParabSqWell (osc_context "QHO" 10 1 1 (1 / 10) 3) = (Ret (sol, pd), w') /\
    grid w' = Some xs /\
    forall (i : nat) (a : list R), sol !! i = Some a ->
      length a = length xs /\ pd !! i = Some (map (fun v => v ^ 2) a).
Proof.
  pose proof (ParabSqWell_valid_run (osc_context "QHO" 10 1 1 (1 / 10) 3) 10 1 1 (1 / 10) 3
                (osc_context_params _ _ _ _ _ _)) as Hrun.
  assert (Hdx : 1 / 10 <> 0) by lra. assert (Hm : 1 <> 0) by lra.
  assert (Hk : (3 <= 20)%Z) by lia.
  specialize (Hrun Hdx Hm Hk).
  destruct (solved_shapes _ _ _ _ (or_intror Hrun)) as (xs & es & Hg & _ & _ & _ & Hall).
  eexists _, _, _, xs. split; [exact Hrun |]. split; [exact Hg | exact Hall].
Defined.

(** ** The oscillator grid *)

Lemma ceil_bounds r : IZR (Numpy.ceil r) - 1 < r <= IZR (Numpy.ceil r).
Proof.
  unfold Numpy.ceil. rewrite opp_IZR.
  destruct (Int_part_bounds (- r)). lra.
Qed.

Lemma osc_quotient L dx :
  Binary64.div (Binary64.sub L (- L)) dx =
    Binary64.round (2 * Binary64.round L / Binary64.round dx).
Proof.
  unfold Binary64.div, Binary64.sub. rewrite round_round, round_opp.
  replace (Binary64.round L - - Binary64.round L) with (2 * Binary64.round L) by lra.
  rewrite round_double, round_round. reflexivity.
Qed.

(** The samples of [np.arange(-L, L, dx)] reach from [-L] to [L] up to one
    step and a relative [2^-50]: three roundings enter the count. *)
Lemma osc_points_bounds L dx :
  0 < L -> 0 < dx ->
  (1 <= osc_points L dx)%nat /\
  2 * L - L / 1125899906842624 <= INR (osc_points L dx) * dx /\
  (INR (osc_points L dx) - 1) * dx < 2 * L + L / 1125899906842624.
Proof.
  intros HL Hdx. unfold osc_points. rewrite osc_quotient.
  pose proof (round_pos dx Hdx) as Hd. pose proof (round_pos L HL) as Ha.
  pose proof (round_rel_pos L (Rlt_le _ _ HL)) as Ra.
  pose proof (round_rel_pos dx (Rlt_le _ _ Hdx)) as Rd.
  set (a := Binary64.round L) in *. set (d := Binary64.round dx) in *.
  assert (Hq0 : 0 < 2 * a / d).
  { unfold Rdiv. apply Rmult_lt_0_compat; [lra | apply Rinv_0_lt_compat; assumption]. }
  pose proof (round_rel_pos (2 * a / d) (Rlt_le _ _ Hq0)) as Rq.
  pose proof (round_pos (2 * a / d) Hq0) as Hq.
  apply quotient_bounds in Rq; [| lra | assumption].
  set (q := Binary64.round (2 * a / d)) in *.
  destruct (ceil_bounds q) as [Hlo Hhi].
  assert (Hc : (0 < Numpy.ceil q)%Z) by (apply lt_IZR; lra).
  assert (Hc1 : 1 <= IZR (Numpy.ceil q)) by (apply IZR_le; lia).
  rewrite INR_IZR_INZ, Z2Nat.id by lia.
  set (c := IZR (Numpy.ceil q)) in *.
  assert (A1 : q * d <= c * d) by (apply Rmult_le_compat_r; lra).
  assert (B1 : (c - 1) * d < q * d) by (apply Rmult_lt_compat_r; lra).
  assert (A4 : c * d <= c * (dx * (1 + 1 / 9007199254740992)))
    by (apply Rmult_le_compat_l; lra).
  assert (B4 : (c - 1) * (dx * (1 - 1 / 9007199254740992)) <= (c - 1) * d)
    by (apply Rmult_le_compat_l; lra).
  split; [lia |]. split; lra.
Qed.

Lemma osc_grid_length L dx : length (osc_grid L dx) = osc_points L dx.
Proof. unfold osc_grid. rewrite length_map, length_seq. reflexivity. Qed.

Lemma osc_grid_nonempty L dx : 0 < L -> 0 < dx -> osc_grid L dx <> [].
Proof.
  intros HL Hdx E. apply (f_equal length) in E.
  rewrite osc_grid_length in E.
  destruct (osc_points_bounds L dx HL Hdx) as [H1 _]. simpl in E. lia.
Qed.

Lemma osc_grid_lookup L dx (i : nat) :
  (i < osc_points L dx)%nat -> osc_grid L dx !! i = Some (- L + INR i * dx).
Proof.
  intros Hi. unfold osc_grid.
  rewrite list_lookup_fmap, lookup_seq_lt by assumption. reflexivity.
Qed.


Lemma ceil_unique r z : IZR z - 1 < r <= IZR z -> Numpy.ceil r = z.
Proof.
  intros H. unfold Numpy.ceil.
  rewrite <- (Int_part_spec (- r) (- z)); [lia |].
  rewrite opp_IZR. lra.
Qed.




(** In doubles [(10 + 10) / 0.1 = 200.0]. *)
Lemma osc_points_10_tenth : osc_points 10 (1 / 10) = 200%nat.
Proof.
  unfold osc_points. rewrite osc_quotient, round_10, round_tenth.
  rewrite (round_scaled _ 45 7036874417766400); pow2_literals; try lia; try lra.
  rewrite (ceil_unique _ 200); [reflexivity | lra].
Qed.



(** ** The box boundary condition *)

Lemma amplitude_at_left L n : QuantVisualizer.amplitude L n 0 = 0.
Proof.
  unfold QuantVisualizer.amplitude. rewrite Rmult_0_r, sin_0. lra.
Qed.

Lemma amplitude_at_right L n (M : nat) :
  0 < L -> (1 <= M)%nat ->
  QuantVisualizer.amplitude L n (INR M * (L / INR M)) = 0.
Proof.
  intros HL HM. unfold QuantVisualizer.amplitude, QuantVisualizer.kn.
  assert (INR M <> 0) by (apply not_0_INR; lia).
  replace (PI * IZR n / L * (INR M * (L / INR M))) with (IZR n * PI) by (field; lra).
  rewrite (sin_eq_0_1 (IZR n * PI)) by (exists n; reflexivity). lra.
Qed.

(** X3.  For the square well with [0 < dx <= L], every mode's amplitude
    array starts with 0 (the sample at [x = 0]) and ends with 0 (the sample
    at [x = L]). *)
Theorem well_boundary_condition (w : World) (L m dx : R) (k : Z) (n : nat) :
  well_params w L m dx k ->
  0 < L -> 0 < dx -> dx <= L ->
  (1 <= n)%nat -> (Z.of_nat n <= k)%Z ->
  exists sol pd w' a,
    QuantVisualizer.InfSqWell w = (Ret (sol, pd), w') /\
    sol !! (n - 1)%nat = Some a /\
    a !! 0%nat = Some 0 /\
    last a = Some 0.
Proof.
  intros Hp HL Hdx Hle Hn1 Hnk.
  pose proof (intervals_pos L dx Hdx Hle) as HM.
  set (M := well_intervals L dx) in *.
  eexists _, _, _, _.
  split; [apply (InfSqWell_valid_run w L m dx k); [assumption | lra | lra] |].
  split; [rewrite list_lookup_fmap, arange_lookup by lia; reflexivity |].
  fold M. unfold QuantVisualizer.wfn_ampl. split.
  - rewrite list_lookup_fmap, uniform_grid_first. simpl. f_equal.
    apply amplitude_at_left.
  - rewrite last_lookup, length_map, uniform_grid_length.
    change (Nat.pred (S M)) with M.
    rewrite list_lookup_fmap, uniform_grid_lookup by lia. simpl. f_equal.
    apply amplitude_at_right; assumption.
Qed.

Lemma well_boundary_condition_witness :
  exists sol pd w' a,
    QuantVisualizer.InfSqWell (well_context "ISW" 10 1 (1 / 10) 3) = (Ret (sol, pd), w') /\
    sol !! 2%nat = Some a /\
    a !! 0%nat = Some 0 /\
    last a = Some 0.
Proof.
  apply (well_boundary_condition (well_context "ISW" 10 1 (1 / 10) 3) 10 1 (1 / 10) 3 3).
  - apply well_context_params.
  - lra.
  - lra.
  - lra.
  - lia.
  - lia.
Defined.

(** ** Edge cases of the parameters *)

Lemma arange_empty lo hi : (hi <= lo)%Z -> Numpy.arange lo hi = [].
Proof.
  intros H. unfold Numpy.arange.
  replace (Z.to_nat (hi - lo)) with 0%nat by lia. reflexivity.
Qed.

(** X4.  A mode count below the first mode is not an error: with
    [num_modes <= 0] the square well, and with [num_modes <= -1] the
    oscillator, returns two empty lists and stores an empty energy list,
    and still stores its grid. *)
Theorem no_modes_no_error (w : World) (L m kf dx : R) (k : Z) :
  0 < L -> 0 < dx ->
  (well_params w L m dx k -> (k <= 0)%Z ->
   exists w' xs,
     QuantVisualizer.InfSqWell w = (Ret ([], []), w') /\
     energy_levels w' = Some [] /\ grid w' = Some xs /\ xs <> []) /\
  (osc_params w L m kf dx k -> m <> 0 -> (k <= -1)%Z ->
   exists w' xs,
     QuantVisualizer.ParabSqWell w = (Ret ([], []), w') /\
     energy_levels w' = Some [] /\ grid w' = Some xs /\ xs <> []).
Proof.
  intros HL Hdx. split.
  - intros Hp Hk.
    pose proof (InfSqWell_valid_run w L m dx k Hp Hdx (Rlt_le _ _ HL)) as Hrun.
    rewrite arange_empty in Hrun by lia. simpl in Hrun.
    eexists _, _. split; [exact Hrun |].
    split; [apply well_world_energy |]. split; [apply well_world_grid |].
    intros E. apply (f_equal length) in E. rewrite uniform_grid_length in E.
    discriminate E.
  - intros Hp Hm Hk.
    rewrite (ParabSqWell_valid_run w L m kf dx k Hp) by (assumption || lra || lia).
    rewrite arange_empty by lia. simpl.
    eexists _, _. split; [reflexivity |].
    split; [apply osc_world_energy |]. split; [apply osc_world_grid |].
    apply osc_grid_nonempty; assumption.
Qed.

Lemma no_modes_no_error_witness :
  (exists w' xs,
     QuantVisualizer.InfSqWell (osc_context "ISW" 10 1 1 (1 / 10) (-1)) = (Ret ([], []), w') /\
     energy_levels w' = Some [] /\ grid w' = Some xs /\ xs <> []) /\
  (exists w' xs,
     QuantVisualizer.ParabSqWell (osc_context "ISW" 10 1 1 (1 / 10) (-1)) = (Ret ([], []), w') /\
     energy_levels w' = Some [] /\ grid w' = Some xs /\ xs <> []).
Proof.
  destruct (no_modes_no_error (osc_context "ISW" 10 1 1 (1 / 10) (-1)) 10 1 1 (1 / 10) (-1))
    as [Hwell Hosc]; [lra | lra |].
  split.
  - apply Hwell; [apply osc_context_well_params | lia].
  - apply Hosc; [apply osc_context_params | lra | lia].
Defined.

(** X5.  A zero spatial step makes both square-well solvers raise
    [ZeroDivisionError] (from [(L + dx) / dx]) and leaves the context as it
    was. *)
Theorem zero_step_raises (w : World) (L L' m : R) (k : Z) :
  well_params w L m 0 k -> exp_length w L' ->
  QuantVisualizer.InfSqWell w = (Raise ZeroDivisionError, w) /\
  SimPlayground.InfSqWell w = (Raise ZeroDivisionError, w).
Proof.
  intros (vL & vm & vdx & HL & EL & Hm & Em & Hdx & Edx & Hk) (vL' & HL' & EL').
  split.
  - rewrite InfSqWell_core. unfold well_reads, well_core, float_div.
    rewrite HL, Hm, Hdx, Hk, EL, Edx.
    destruct (Req_dec_T 0 0) as [_ | Hne]; [reflexivity | contradiction Hne; reflexivity].
  - unfold SimPlayground.InfSqWell, bind, get_sim_param, get_exp_val, lift, float_div.
    rewrite HL'; simpl. rewrite Hdx; simpl. rewrite Hk; simpl. rewrite EL', Edx; simpl.
    destruct (Req_dec_T 0 0) as [_ | Hne]; [reflexivity | contradiction Hne; reflexivity].
Qed.

Lemma zero_step_raises_witness :
  QuantVisualizer.InfSqWell
    (mkWorld (mkQuantSim "ISW" (<["length" := VInt 10]> ∅)
                (sim_params (quantsim (well_context "ISW" 10 1 0 3))) None None) [])
  = (Raise ZeroDivisionError,
     mkWorld (mkQuantSim "ISW" (<["length" := VInt 10]> ∅)
                (sim_params (quantsim (well_context "ISW" 10 1 0 3))) None None) []).
Proof.
  apply (zero_step_raises _ 10 10 1 3).
  - exists (VFloat 10), (VFloat 1), (VFloat 0). simpl. repeat split; reflexivity.
  - exists (VInt 10). split; reflexivity.
Defined.

(** X6.  A zero mass makes the oscillator raise [ZeroDivisionError] (from
    [k / m]) and leaves the context as it was. *)
Theorem massless_oscillator_raises (w : World) (L kf dx : R) (k : Z) :
  osc_params w L 0 kf dx k -> dx <> 0 ->
  QuantVisualizer.ParabSqWell w = (Raise ZeroDivisionError, w).
Proof.
  intros (vL & vm & vk & vdx & HL & EL & Hm & Em & Hk & Ek & Hdx & Edx & Hn) Hnz.
  rewrite ParabSqWell_core. unfold osc_reads, osc_core, py_div, Numpy.arange_step.
  rewrite HL, Hm, Hk, Hdx, Hn, EL, Edx.
  destruct (Req_dec_T dx 0) as [? | _]; [contradiction |].
  simpl. rewrite Ek, Em.
  destruct (Req_dec_T 0 0) as [_ | Hne]; [reflexivity | contradiction Hne; reflexivity].
Qed.

Lemma massless_oscillator_raises_witness :
  QuantVisualizer.ParabSqWell (osc_context "QHO" 10 0 1 (1 / 10) 3) =
    (Raise ZeroDivisionError, osc_context "QHO" 10 0 1 (1 / 10) 3).
Proof.
  apply (massless_oscillator_raises _ 10 1 (1 / 10) 3).
  - apply osc_context_params.
  - lra.
Defined.

(** X7.  A negative spatial step with [L >= -2 dx] gives a negative sample
    count: the square well raises [ValueError] (from [np.linspace]) and
    leaves the context as it was. *)
Theorem negative_step_raises (w : World) (L m dx : R) (k : Z) :
  well_params w L m dx k -> dx < 0 -> - 2 * dx <= L ->
  QuantVisualizer.InfSqWell w = (Raise ValueError, w).
Proof.
  intros (vL & vm & vdx & HL & EL & Hm & Em & Hdx & Edx & Hk) Hneg Hbig.
  rewrite InfSqWell_core. unfold well_reads, well_core, float_div, Numpy.linspace.
  rewrite HL, Hm, Hdx, Hk, EL, Edx.
  destruct (Req_dec_T dx 0) as [? | _]; [lra |].
  pose proof (well_points_negative L dx Hneg Hbig) as Ht.
  unfold well_points in Ht. apply Z.ltb_lt in Ht. rewrite Ht. reflexivity.
Qed.

Lemma negative_step_raises_witness :
  QuantVisualizer.InfSqWell (well_context "ISW" 3 1 (-1) 3) =
    (Raise ValueError, well_context "ISW" 3 1 (-1) 3).
Proof.
  apply (negative_step_raises _ 3 1 (-1) 3).
  - apply well_context_params.
  - lra.
  - lra.
Defined.

(** ** The dispatchers *)

Lemma QHO_not_ISW s :
  QuantVisualizer.py_in s QuantVisualizer.QHO_aliases = true ->
  QuantVisualizer.py_in s QuantVisualizer.ISW_aliases = false.
Proof.
  intros H. apply py_in_true in H. unfold QuantVisualizer.QHO_aliases in H.
  apply elem_of_cons in H as [-> | H]; [reflexivity |].
  apply elem_of_cons in H as [-> | H]; [reflexivity |].
  apply elem_of_cons in H as [-> | H]; [reflexivity |].
  apply elem_of_nil in H. contradiction.
Qed.

Lemma QHO_not_FSW s :
  QuantVisualizer.py_in s QuantVisualizer.QHO_aliases = true ->
  QuantVisualizer.py_in s QuantVisualizer.FSW_aliases = false.
Proof.
  intros H. apply py_in_true in H. unfold QuantVisualizer.QHO_aliases in H.
  apply elem_of_cons in H as [-> | H]; [reflexivity |].
  apply elem_of_cons in H as [-> | H]; [reflexivity |].
  apply elem_of_cons in H as [-> | H]; [reflexivity |].
  apply elem_of_nil in H. contradiction.
Qed.

(** [simulate] on an alias of the square well, in terms of the solver. *)
Lemma simulate_well w :
  QuantVisualizer.py_in (sys (quantsim w)) QuantVisualizer.ISW_aliases = true ->
  QuantVisualizer.simulate w =
    match QuantVisualizer.InfSqWell w with
    | (Ret r, w1) => (Ret tt, with_results w1 (fst r) (snd r))
    | (Raise e, w1) => (Raise e, w1)
    end.
Proof.
  intros H. unfold QuantVisualizer.simulate, bind, get_sys. rewrite H.
  destruct (QuantVisualizer.InfSqWell w) as [[r|e] w1]; reflexivity.
Qed.

(** [simulate] on an alias of the oscillator, in terms of the solver. *)
Lemma simulate_oscillator w :
  QuantVisualizer.py_in (sys (quantsim w)) QuantVisualizer.QHO_aliases = true ->
  QuantVisualizer.simulate w =
    match QuantVisualizer.ParabSqWell w with
    | (Ret r, w1) => (Ret tt, with_results w1 (fst r) (snd r))
    | (Raise e, w1) => (Raise e, w1)
    end.
Proof.
  intros H. unfold QuantVisualizer.simulate, bind, get_sys.
  rewrite (QHO_not_ISW _ H), (QHO_not_FSW _ H), H.
  destruct (QuantVisualizer.ParabSqWell w) as [[r|e] w1]; reflexivity.
Qed.

Lemma known_system_cases s :
  known_system s = true ->
  QuantVisualizer.py_in s QuantVisualizer.ISW_aliases = true \/
  QuantVisualizer.py_in s QuantVisualizer.FSW_aliases = true \/
  QuantVisualizer.py_in s QuantVisualizer.QHO_aliases = true.
Proof.
  unfold known_system. intros H.
  apply orb_true_iff in H as [H | H]; [| auto].
  apply orb_true_iff in H as [H | H]; auto.
Qed.

(** X28.  The oscillator computes at most 20 modes.  On otherwise valid
    parameters it returns for [num_modes <= 20]; for [num_modes >= 21] it
    raises when the loop reaches mode 21, whose [2**n * n!] no numpy
    integer holds, and leaves the context as it was; [simulate] on an
    oscillator alias then raises likewise and stores no solution. *)
Theorem oscillator_mode_limit (w : World) (L m kf dx : R) (k : Z) :
  osc_params w L m kf dx k -> dx <> 0 -> m <> 0 ->
  ((k <= 20)%Z -> exists r w', QuantVisualizer.ParabSqWell w = (Ret r, w')) /\
  ((21 <= k)%Z ->
   exists e,
     QuantVisualizer.ParabSqWell w = (Raise e, w) /\
     (QuantVisualizer.py_in (sys (quantsim w)) QuantVisualizer.QHO_aliases = true ->
      QuantVisualizer.simulate w = (Raise e, w))).
Proof.
  intros Hp Hdx Hm. split.
  - intros Hk. eexists _, _. apply (ParabSqWell_valid_run w L m kf dx k); assumption.
  - intros Hk. exists TypeError.
    pose proof (ParabSqWell_too_many_modes w L m kf dx k Hp Hdx Hm Hk) as Hrun.
    split; [exact Hrun |].
    intros Hs. rewrite simulate_oscillator by exact Hs. rewrite Hrun. reflexivity.
Qed.

Lemma oscillator_mode_limit_witness :
  (exists r w', QuantVisualizer.ParabSqWell (osc_context "QHO" 10 1 1 (1 / 10) 20) = (Ret r, w')) /\
  (exists e,
     QuantVisualizer.simulate (osc_context "QHO" 10 1 1 (1 / 10) 21) =
       (Raise e, osc_context "QHO" 10 1 1 (1 / 10) 21)).
Proof.
  split.
  - destruct (oscillator_mode_limit (osc_context "QHO" 10 1 1 (1 / 10) 20) 10 1 1 (1 / 10) 20)
      as [Hret _]; [apply osc_context_params | lra | lra |].
    apply Hret. lia.
  - destruct (oscillator_mode_limit (osc_context "QHO" 10 1 1 (1 / 10) 21) 10 1 1 (1 / 10) 21)
      as [_ Hraise]; [apply osc_context_params | lra | lra |].
    destruct Hraise as (e & _ & Hsim); [lia |].
    exists e. apply Hsim. reflexivity.
Defined.

(** X29.  The mass of the square well is looked at only inside the loop
    over the modes: with [num_modes <= 0] the solver returns two empty
    lists, stores its grid and an empty energy list, and raises nothing,
    whatever the ['mass'] entry holds, a list included. *)
Theorem well_mass_unused_without_modes
    (w : World) (vL vm vdx : value) (L dx : R) (k : Z) :
  sim_params (quantsim w) !! "length" = Some vL -> to_num vL = Ret L ->
  sim_params (quantsim w) !! "mass" = Some vm ->
  sim_params (quantsim w) !! "dx" = Some vdx -> to_num vdx = Ret dx ->
  sim_params (quantsim w) !! "num_modes" = Some (VInt k) ->
  0 < dx -> 0 <= L -> (k <= 0)%Z ->
  exists xs,
    QuantVisualizer.InfSqWell w = (Ret ([], []), well_world w xs []) /\
    xs !! 0%nat = Some 0.
Proof.
  intros HL EL Hm Hdx Edx Hk Hpos HL0 Hk0.
  exists (uniform_grid L (well_intervals L dx)). split; [| apply uniform_grid_first].
  rewrite InfSqWell_core. unfold well_reads, well_core, float_div.
  rewrite HL, Hm, Hdx, Hk, EL, Edx.
  destruct (Req_dec_T dx 0) as [? | _]; [lra |].
  rewrite linspace_uniform by assumption.
  cbn [Numpy.arange_upto]. rewrite arange_empty by lia. reflexivity.
Qed.

Lemma well_mass_unused_without_modes_witness :
  exists xs,
    QuantVisualizer.InfSqWell
      (with_sim_params (well_context "ISW" 10 1 (1 / 10) 0)
         (<["mass" := VList [1; 2]]>
            (sim_params (quantsim (well_context "ISW" 10 1 (1 / 10) 0))))) =
    (Ret ([], []),
     well_world
       (with_sim_params (well_context "ISW" 10 1 (1 / 10) 0)
          (<["mass" := VList [1; 2]]>
             (sim_params (quantsim (well_context "ISW" 10 1 (1 / 10) 0)))))
       xs []) /\
    xs !! 0%nat = Some 0.
Proof.
  apply (well_mass_unused_without_modes _ (VFloat 10) (VList [1; 2]) (VFloat (1 / 10))
           10 (1 / 10) 0); try reflexivity; try lra; lia.
Defined.

(** X8.  [simulate] is all or nothing.  If it raises, the context is
    exactly as before.  If it returns on a square-well or oscillator alias,
    the context holds a solution list and a density list of equal length and
    a grid, and every amplitude array is as long as the grid. *)
Theorem simulate_all_or_nothing (w : World) (o : outcome unit) (w' : World) :
  QuantVisualizer.simulate w = (o, w') ->
  (forall e, o = Raise e -> w' = w) /\
  (o = Ret tt ->
   QuantVisualizer.py_in (sys (quantsim w)) QuantVisualizer.ISW_aliases = true \/
   QuantVisualizer.py_in (sys (quantsim w)) QuantVisualizer.QHO_aliases = true ->
   exists sol pd xs,
     soln (quantsim w') = Some (PyArrays sol) /\
     prob_dens (quantsim w') = Some (PyArrays pd) /\
     grid w' = Some xs /\
     length sol = length pd /\
     forall (i : nat) (a : list R), sol !! i = Some a -> length a = length xs).
Proof.
  intros Hsim. split.
  - intros e ->.
    destruct (known_system (sys (quantsim w))) eqn:Hk.
    + apply known_system_cases in Hk as [H | [H | H]].
      * rewrite simulate_well in Hsim by assumption.
        destruct (QuantVisualizer.InfSqWell w) as [[r|e'] w1] eqn:E; [discriminate |].
        injection Hsim as _ <-. eapply InfSqWell_raise_unchanged, E.
      * rewrite simulate_finite_well in Hsim by assumption. discriminate.
      * rewrite simulate_oscillator in Hsim by assumption.
        destruct (QuantVisualizer.ParabSqWell w) as [[r|e'] w1] eqn:E; [discriminate |].
        injection Hsim as _ <-. eapply ParabSqWell_raise_unchanged, E.
    + rewrite simulate_unknown in Hsim by assumption. discriminate.
  - intros -> [H | H].
    + rewrite simulate_well in Hsim by assumption.
      destruct (QuantVisualizer.InfSqWell w) as [[[sol pd]|e'] w1] eqn:E; [| discriminate].
      injection Hsim as <-.
      apply InfSqWell_success in E as (vL & vm & vdx & vn & r & _ & Hc & -> & -> & ->).
      destruct (well_core_shapes _ _ _ _ _ Hc) as (Hl1 & Hl2 & Hall).
      exists (solutions r), (densities r), (solved_grid r).
      repeat split; try reflexivity.
      * apply well_world_grid.
      * congruence.
      * intros i a Ha. apply (Hall i a Ha).
    + rewrite simulate_oscillator in Hsim by assumption.
      destruct (QuantVisualizer.ParabSqWell w) as [[[sol pd]|e'] w1] eqn:E; [| discriminate].
      injection Hsim as <-.
      apply ParabSqWell_success in E
        as (vL & vm & vk & vdx & vn & r & om & _ & Hc & -> & -> & ->).
      destruct (osc_core_shapes _ _ _ _ _ _ _ Hc) as (Hl1 & Hl2 & Hall).
      exists (solutions r), (densities r), (solved_grid r).
      repeat split; try reflexivity.
      * apply osc_world_grid.
      * congruence.
      * intros i a Ha. apply (Hall i a Ha).
Qed.

Lemma solvers_frame_aux w :
  same_outside ["x_vals"; "E_array"] w (snd (QuantVisualizer.InfSqWell w)) /\
  same_outside ["x_vals"; "E_array"; "ang_freq"] w (snd (QuantVisualizer.ParabSqWell w)).
Proof.
  split.
  - destruct (InfSqWell_cases w) as [[e E] | (r & xs & es & E)]; rewrite E; simpl.
    + apply same_outside_refl.
    + apply same_outside_well.
  - destruct (ParabSqWell_cases w) as [[e E] | (r & xs & es & om & E)]; rewrite E; simpl.
    + apply same_outside_refl.
    + apply same_outside_osc.
Qed.

Lemma same_outside_weaken w w' :
  same_outside ["x_vals"; "E_array"] w w' ->
  same_outside ["x_vals"; "E_array"; "ang_freq"] w w'.
Proof.
  intros (H1 & H2 & H3 & H4 & H5 & H6). repeat split; try assumption.
  intros key Hkey. apply H6. intros Hin. apply Hkey.
  apply elem_of_cons in Hin as [-> | Hin].
  { apply elem_of_cons. left. reflexivity. }
  apply elem_of_cons in Hin as [-> | Hin].
  { apply elem_of_cons. right. apply elem_of_cons. left. reflexivity. }
  apply elem_of_nil in Hin. contradiction.
Qed.

Lemma simulate_valid_well name L m dx k :
  QuantVisualizer.py_in name QuantVisualizer.ISW_aliases = true ->
  0 < dx -> 0 <= L ->
  QuantVisualizer.simulate (well_context name L m dx k) =
    (Ret tt,
     with_results
       (well_world (well_context name L m dx k)
          (uniform_grid L (well_intervals L dx))
          (map (QuantVisualizer.energy_level L m) (Numpy.arange 1 (k + 1))))
       (map (QuantVisualizer.wfn_ampl L (uniform_grid L (well_intervals L dx)))
            (Numpy.arange 1 (k + 1)))
       (map (QuantVisualizer.prob_density L (uniform_grid L (well_intervals L dx)))
            (Numpy.arange 1 (k + 1)))).
Proof.
  intros Hn Hdx HL. rewrite simulate_well by exact Hn.
  rewrite (InfSqWell_valid_run _ L m dx k (well_context_params _ _ _ _ _) Hdx HL).
  reflexivity.
Qed.

Lemma simulate_all_or_nothing_witness :
  exists w' sol pd xs,
    QuantVisualizer.simulate (well_context "ISW" 10 1 (1 / 10) 3) = (Ret tt, w') /\
    soln (quantsim w') = Some (PyArrays sol) /\
    prob_dens (quantsim w') = Some (PyArrays pd) /\
    grid w' = Some xs /\
    length sol = length pd /\
    forall (i : nat) (a : list R), sol !! i = Some a -> length a = length xs.
Proof.
  assert (Hdx : 0 < 1 / 10) by lra. assert (HL : 0 <= 10) by lra.
  pose proof (simulate_valid_well "ISW" 10 1 (1 / 10) 3 eq_refl Hdx HL) as Hrun.
  destruct (simulate_all_or_nothing _ _ _ Hrun) as [_ Hok].
  destruct (Hok eq_refl (or_introl eq_refl)) as (sol & pd & xs & H).
  eexists _, sol, pd, xs. split; [exact Hrun | exact H].
Defined.

(** X9.  What [simulate] never touches, whatever the context: the system
    identifier, [exp_vals], and every entry of [sim_params] other than
    [x_vals], [E_array] and [ang_freq]; and it prints nothing unless the
    system is unknown. *)
Theorem simulate_frame (w : World) :
  sys (quantsim (snd (QuantVisualizer.simulate w))) = sys (quantsim w) /\
  exp_vals (quantsim (snd (QuantVisualizer.simulate w))) = exp_vals (quantsim w) /\
  (forall key, key ∉ ["x_vals"; "E_array"; "ang_freq"] ->
     sim_params (quantsim (snd (QuantVisualizer.simulate w))) !! key =
     sim_params (quantsim w) !! key) /\
  (known_system (sys (quantsim w)) = true ->
     stdout (snd (QuantVisualizer.simulate w)) = stdout w).
Proof.
  destruct (solvers_frame_aux w) as [Hwell Hosc].
  apply same_outside_weaken in Hwell.
  destruct (known_system (sys (quantsim w))) eqn:Hk.
  - apply known_system_cases in Hk as [H | [H | H]].
    + rewrite simulate_well by assumption.
      destruct Hwell as (H1 & H2 & H3 & H4 & H5 & H6).
      destruct (QuantVisualizer.InfSqWell w) as [[r|e] w1]; simpl in *;
        repeat split; auto.
    + rewrite simulate_finite_well by assumption. simpl.
      repeat split; reflexivity.
    + rewrite simulate_oscillator by assumption.
      destruct Hosc as (H1 & H2 & H3 & H4 & H5 & H6).
      destruct (QuantVisualizer.ParabSqWell w) as [[r|e] w1]; simpl in *;
        repeat split; auto.
  - rewrite simulate_unknown by assumption. simpl.
    repeat split; try reflexivity. discriminate.
Qed.

Lemma simulate_frame_witness :
  sys (quantsim (snd (QuantVisualizer.simulate (well_context "ISW" 10 1 (1 / 10) 3)))) = "ISW" /\
  stdout (snd (QuantVisualizer.simulate (well_context "ISW" 10 1 (1 / 10) 3))) = [].
Proof.
  destruct (simulate_frame (well_context "ISW" 10 1 (1 / 10) 3)) as (H1 & _ & _ & H4).
  split; [exact H1 | exact (H4 eq_refl)].
Defined.

(** The solvers do not look at the system identifier. *)
Lemma InfSqWell_with_sys w s :
  QuantVisualizer.InfSqWell (with_sys w s) =
    (fst (QuantVisualizer.InfSqWell w), with_sys (snd (QuantVisualizer.InfSqWell w)) s).
Proof.
  rewrite !InfSqWell_core. change (well_reads (with_sys w s)) with (well_reads w).
  destruct (well_reads w) as [[[[vL vm] vdx] vn]|]; [| reflexivity].
  destruct (well_core vL vm vdx vn); reflexivity.
Qed.

Lemma ParabSqWell_with_sys w s :
  QuantVisualizer.ParabSqWell (with_sys w s) =
    (fst (QuantVisualizer.ParabSqWell w), with_sys (snd (QuantVisualizer.ParabSqWell w)) s).
Proof.
  rewrite !ParabSqWell_core. change (osc_reads (with_sys w s)) with (osc_reads w).
  destruct (osc_reads w) as [[[[[vL vm] vk] vdx] vn]|]; [| reflexivity].
  destruct (osc_core vL vm vk vdx vn) as [[r om]|]; reflexivity.
Qed.

(** X10.  The aliases of one system are interchangeable: for two
    identifiers from the same alias list, [simulate] gives the same outcome
    and the same context, up to the identifier itself. *)
Theorem simulate_alias_independent (w : World) (s1 s2 : string) (l : list string) :
  l ∈ [QuantVisualizer.ISW_aliases; QuantVisualizer.FSW_aliases;
       QuantVisualizer.QHO_aliases] ->
  QuantVisualizer.py_in s1 l = true -> QuantVisualizer.py_in s2 l = true ->
  QuantVisualizer.simulate (with_sys w s2) =
    (fst (QuantVisualizer.simulate (with_sys w s1)),
     with_sys (snd (QuantVisualizer.simulate (with_sys w s1))) s2).
Proof.
  intros Hl H1 H2.
  apply elem_of_cons in Hl as [-> | Hl].
  { rewrite !simulate_well by assumption. rewrite !InfSqWell_with_sys.
    destruct (QuantVisualizer.InfSqWell w) as [[r|e] w1]; reflexivity. }
  apply elem_of_cons in Hl as [-> | Hl].
  { rewrite !simulate_finite_well by assumption. reflexivity. }
  apply elem_of_cons in Hl as [-> | Hl].
  { rewrite !simulate_oscillator by assumption. rewrite !ParabSqWell_with_sys.
    destruct (QuantVisualizer.ParabSqWell w) as [[r|e] w1]; reflexivity. }
  apply elem_of_nil in Hl. contradiction.
Qed.

Lemma simulate_alias_independent_witness :
  QuantVisualizer.simulate (with_sys (well_context "ISW" 10 1 (1 / 10) 3) "1") =
    (fst (QuantVisualizer.simulate
            (with_sys (well_context "ISW" 10 1 (1 / 10) 3) "Infinite Square Well")),
     with_sys (snd (QuantVisualizer.simulate
                      (with_sys (well_context "ISW" 10 1 (1 / 10) 3) "Infinite Square Well")))
              "1").
Proof.
  apply (simulate_alias_independent _ _ _ QuantVisualizer.ISW_aliases).
  - apply elem_of_cons. left. reflexivity.
  - reflexivity.
  - reflexivity.
Defined.

(** ** Dispatching again *)

Lemma well_reads_after w xs es sol pd :
  well_reads (with_results (well_world w xs es) sol pd) = well_reads w.
Proof.
  unfold well_reads, with_results, well_world, with_sim_params. simpl.
  rewrite !lookup_insert_ne by discriminate. reflexivity.
Qed.

Lemma osc_reads_after w xs es om sol pd :
  osc_reads (with_results (osc_world w xs es om) sol pd) = osc_reads w.
Proof.
  unfold osc_reads, with_results, osc_world, with_sim_params. simpl.
  rewrite !lookup_insert_ne by discriminate. reflexivity.
Qed.

Lemma well_world_again w xs es sol pd :
  with_results (well_world (with_results (well_world w xs es) sol pd) xs es) sol pd =
  with_results (well_world w xs es) sol pd.
Proof.
  unfold with_results, well_world, with_sim_params. simpl. do 2 f_equal.
  apply map_eq. intros key. rewrite !lookup_insert.
  repeat case_decide; reflexivity.
Qed.

Lemma osc_world_again w xs es om sol pd :
  with_results (osc_world (with_results (osc_world w xs es om) sol pd) xs es om) sol pd =
  with_results (osc_world w xs es om) sol pd.
Proof.
  unfold with_results, osc_world, with_sim_params. simpl. do 2 f_equal.
  apply map_eq. intros key. rewrite !lookup_insert.
  repeat case_decide; reflexivity.
Qed.

(** X11.  Dispatching twice is dispatching once: on a known system, when
    [simulate] has ended with some outcome and context, running it again on
    that context ends with the same outcome and leaves the context as it
    is. *)
Theorem simulate_idempotent (w : World) (o : outcome unit) (w1 : World) :
  known_system (sys (quantsim w)) = true ->
  QuantVisualizer.simulate w = (o, w1) ->
  QuantVisualizer.simulate w1 = (o, w1).
Proof.
  intros Hk Hsim. apply known_system_cases in Hk as [H | [H | H]].
  - pose proof Hsim as Hsim'.
    rewrite simulate_well, InfSqWell_core in Hsim by assumption.
    destruct (well_reads w) as [[[[vL vm] vdx] vn]|] eqn:Hr.
    + destruct (well_core vL vm vdx vn) as [r|] eqn:Hc.
      * injection Hsim as <- <-. simpl.
        rewrite simulate_well, InfSqWell_core by exact H.
        rewrite well_reads_after, Hr, Hc. simpl.
        rewrite well_world_again. reflexivity.
      * injection Hsim as <- <-. exact Hsim'.
    + injection Hsim as <- <-. exact Hsim'.
  - rewrite simulate_finite_well in Hsim by assumption. injection Hsim as <- <-.
    rewrite simulate_finite_well by exact H. reflexivity.
  - pose proof Hsim as Hsim'.
    rewrite simulate_oscillator, ParabSqWell_core in Hsim by assumption.
    destruct (osc_reads w) as [[[[[vL vm] vk] vdx] vn]|] eqn:Hr.
    + destruct (osc_core vL vm vk vdx vn) as [[r om]|] eqn:Hc.
      * injection Hsim as <- <-. simpl.
        rewrite simulate_oscillator, ParabSqWell_core by exact H.
        rewrite osc_reads_after, Hr, Hc. simpl.
        rewrite osc_world_again. reflexivity.
      * injection Hsim as <- <-. exact Hsim'.
    + injection Hsim as <- <-. exact Hsim'.
Qed.

Lemma simulate_idempotent_witness :
  exists w1,
    QuantVisualizer.simulate (well_context "ISW" 10 1 (1 / 10) 3) = (Ret tt, w1) /\
    QuantVisualizer.simulate w1 = (Ret tt, w1).
Proof.
  assert (Hdx : 0 < 1 / 10) by lra. assert (HL : 0 <= 10) by lra.
  pose proof (simulate_valid_well "ISW" 10 1 (1 / 10) 3 eq_refl Hdx HL) as Hrun.
  eexists. split; [exact Hrun |].
  apply (simulate_idempotent (well_context "ISW" 10 1 (1 / 10) 3)); [reflexivity | exact Hrun].
Defined.

(** ** The mass *)

Lemma well_core_mass vL vm vm' vdx vn m m' :
  to_num vm = Ret m -> to_num vm' = Ret m' ->
  match well_core vL vm vdx vn, well_core vL vm' vdx vn with
  | Ret r, Ret r' =>
      solutions r = solutions r' /\ densities r = densities r' /\
      solved_grid r = solved_grid r'
  | Raise e, Raise e' => e = e'
  | _, _ => False
  end.
Proof.
  intros Em Em'. unfold well_core.
  destruct (to_num vL) as [L|]; [| reflexivity].
  destruct (to_num vdx) as [dx|]; [| reflexivity].
  destruct (float_div (Binary64.add L dx) dx) as [num|]; [| reflexivity].
  destruct (Numpy.linspace 0 L num) as [xs|]; [| reflexivity].
  destruct (Numpy.arange_upto 1 vn) as [ns|]; [| reflexivity].
  unfold QuantVisualizer.loop_num.
  destruct ns; [| rewrite Em, Em']; simpl; repeat split; reflexivity.
Qed.

(** X12.  The mass of the square well enters the energies only: replacing
    a numeric mass by another numeric mass changes neither the outcome of
    [InfSqWell], nor the lists it returns, nor the grid it stores. *)
Theorem well_mass_only_in_energies (w : World) (vm vm' : value) (m m' : R) :
  sim_params (quantsim w) !! "mass" = Some vm ->
  to_num vm = Ret m -> to_num vm' = Ret m' ->
  fst (QuantVisualizer.InfSqWell
         (with_sim_params w (<["mass" := vm']> (sim_params (quantsim w))))) =
  fst (QuantVisualizer.InfSqWell w) /\
  grid (snd (QuantVisualizer.InfSqWell
               (with_sim_params w (<["mass" := vm']> (sim_params (quantsim w)))))) =
  grid (snd (QuantVisualizer.InfSqWell w)).
Proof.
  intros Hm Em Em'.
  assert (Hgrid : grid (with_sim_params w (<["mass" := vm']> (sim_params (quantsim w)))) =
                  grid w).
  { unfold grid, with_sim_params. simpl.
    rewrite lookup_insert_ne by discriminate. reflexivity. }
  rewrite !InfSqWell_core.
  unfold well_reads at 1. unfold well_reads. simpl.
  rewrite lookup_insert_eq, !lookup_insert_ne by discriminate. rewrite Hm.
  destruct (sim_params (quantsim w) !! "length") as [vL|]; [| split; [reflexivity | exact Hgrid]].
  destruct (sim_params (quantsim w) !! "dx") as [vdx|]; [| split; [reflexivity | exact Hgrid]].
  destruct (sim_params (quantsim w) !! "num_modes") as [vn|];
    [| split; [reflexivity | exact Hgrid]].
  pose proof (well_core_mass vL vm vm' vdx vn m m' Em Em') as Hc.
  destruct (well_core vL vm vdx vn) as [r|e], (well_core vL vm' vdx vn) as [r'|e'];
    try contradiction.
  - destruct Hc as (Hs & Hd & Hg). simpl. rewrite Hs, Hd. split; [reflexivity |].
    rewrite !well_world_grid, Hg. reflexivity.
  - subst e'. simpl. split; [reflexivity | exact Hgrid].
Qed.

Lemma well_mass_only_in_energies_witness :
  fst (QuantVisualizer.InfSqWell
         (with_sim_params (well_context "ISW" 10 1 (1 / 10) 3)
            (<["mass" := VInt 7]>
               (sim_params (quantsim (well_context "ISW" 10 1 (1 / 10) 3)))))) =
  fst (QuantVisualizer.InfSqWell (well_context "ISW" 10 1 (1 / 10) 3)).
Proof.
  apply (well_mass_only_in_energies (well_context "ISW" 10 1 (1 / 10) 3)
           (VFloat 1) (VInt 7) 1 7); reflexivity.
Defined.

(** ** SimPlayground's solver and dispatcher *)

Lemma playground_InfSqWell_core w vm m :
  to_num vm = Ret m ->
  SimPlayground.InfSqWell w =
    match playground_reads w with
    | Raise e => (Raise e, w)
    | Ret (vL, vdx, vn) =>
        match well_core vL vm vdx vn with
        | Raise e => (Raise e, w)
        | Ret r =>
            (Ret (solutions r, densities r),
             playground_world w (solved_grid r) (wavenumbers vL vn))
        end
    end.
Proof.
  intros Em.
  unfold SimPlayground.InfSqWell, playground_reads, well_core, wavenumbers,
    bind, get_sim_param, get_exp_val, lift.
  destruct (exp_vals (quantsim w) !! "length") as [vL|]; [simpl | reflexivity].
  destruct (sim_params (quantsim w) !! "dx") as [vdx|]; [simpl | reflexivity].
  destruct (sim_params (quantsim w) !! "num_modes") as [vn|]; [simpl | reflexivity].
  destruct (to_num vL) as [L|]; [simpl | reflexivity].
  destruct (to_num vdx) as [dx|]; [simpl | reflexivity].
  destruct (float_div (Binary64.add L dx) dx) as [num|]; [simpl | reflexivity].
  destruct (Numpy.linspace 0 L num) as [xs|]; [simpl | reflexivity].
  destruct (Numpy.arange_upto 1 vn) as [ns|]; [simpl | reflexivity].
  assert (Hl : exists m', QuantVisualizer.loop_num vm ns = Ret m').
  { unfold QuantVisualizer.loop_num. destruct ns; eauto. }
  destruct Hl as [m' ->]. simpl. rewrite !map_map. reflexivity.
Qed.

Lemma playground_simulate_well w :
  QuantVisualizer.py_in (sys (quantsim w)) QuantVisualizer.ISW_aliases = true ->
  SimPlayground.simulate w =
    match SimPlayground.InfSqWell w with
    | (Ret r, w1) => (Ret tt, with_results w1 (fst r) (snd r))
    | (Raise e, w1) => (Raise e, w1)
    end.
Proof.
  intros H. unfold SimPlayground.simulate, bind, get_sys. rewrite H.
  destruct (SimPlayground.InfSqWell w) as [[r|e] w1]; reflexivity.
Qed.

(** X13.  On a square-well alias the two dispatchers agree.  When the
    context has the same length entry in [exp_vals] and in [sim_params] and a
    numeric mass, SimPlayground's [simulate] and QuantVisualizer's end with
    the same outcome (the same exception when they fail) and leave the same
    solution, the same densities and the same grid in the context. *)
Theorem dispatchers_agree_on_well (w : World) (vm : value) (m : R) :
  QuantVisualizer.py_in (sys (quantsim w)) QuantVisualizer.ISW_aliases = true ->
  exp_vals (quantsim w) !! "length" = sim_params (quantsim w) !! "length" ->
  sim_params (quantsim w) !! "mass" = Some vm -> to_num vm = Ret m ->
  fst (SimPlayground.simulate w) = fst (QuantVisualizer.simulate w) /\
  soln (quantsim (snd (SimPlayground.simulate w))) =
    soln (quantsim (snd (QuantVisualizer.simulate w))) /\
  prob_dens (quantsim (snd (SimPlayground.simulate w))) =
    prob_dens (quantsim (snd (QuantVisualizer.simulate w))) /\
  grid (snd (SimPlayground.simulate w)) = grid (snd (QuantVisualizer.simulate w)).
Proof.
  intros Hs HL Hm Em.
  rewrite playground_simulate_well, simulate_well by exact Hs.
  rewrite (playground_InfSqWell_core w vm m Em), InfSqWell_core.
  unfold playground_reads, well_reads. rewrite HL, Hm.
  destruct (sim_params (quantsim w) !! "length") as [vL|]; [| repeat split; reflexivity].
  destruct (sim_params (quantsim w) !! "dx") as [vdx|]; [| repeat split; reflexivity].
  destruct (sim_params (quantsim w) !! "num_modes") as [vn|]; [| repeat split; reflexivity].
  destruct (well_core vL vm vdx vn) as [r|e]; [| repeat split; reflexivity].
  simpl. repeat split; try reflexivity.
  change (grid (playground_world w (solved_grid r) (wavenumbers vL vn)) =
          grid (well_world w (solved_grid r) (solved_energies r))).
  rewrite playground_world_grid, well_world_grid. reflexivity.
Qed.

Lemma dispatchers_agree_on_well_witness :
  fst (SimPlayground.simulate
         (mkWorld (mkQuantSim "ISW" (<["length" := VFloat 10]> ∅)
                     (sim_params (quantsim (well_context "ISW" 10 1 (1 / 10) 3)))
                     None None) [])) =
  fst (QuantVisualizer.simulate
         (mkWorld (mkQuantSim "ISW" (<["length" := VFloat 10]> ∅)
                     (sim_params (quantsim (well_context "ISW" 10 1 (1 / 10) 3)))
                     None None) [])).
Proof.
  apply (dispatchers_agree_on_well _ (VFloat 1) 1); reflexivity.
Defined.

(** X14.  SimPlayground's dispatcher has no oscillator and no finite well:
    on an alias of either it returns normally, stores [None] as the solution
    and changes nothing else (no grid, no densities, no output). *)
Theorem playground_simulate_stubs (w : World) :
  QuantVisualizer.py_in (sys (quantsim w)) QuantVisualizer.FSW_aliases = true \/
  QuantVisualizer.py_in (sys (quantsim w)) QuantVisualizer.QHO_aliases = true ->
  SimPlayground.simulate w = (Ret tt, with_soln w PyNone).
Proof.
  intros [H | H]; unfold SimPlayground.simulate, bind, get_sys.
  - rewrite (FSW_not_ISW _ H), H. reflexivity.
  - rewrite (QHO_not_ISW _ H), (QHO_not_FSW _ H), H. reflexivity.
Qed.

Lemma playground_simulate_stubs_witness :
  SimPlayground.simulate (osc_context "QHO" 10 1 1 (1 / 10) 3) =
    (Ret tt, with_soln (osc_context "QHO" 10 1 1 (1 / 10) 3) PyNone).
Proof.
  apply playground_simulate_stubs. right. reflexivity.
Defined.

(** ** [set_sim_params] *)

Lemma assign_defaults_ok w vL dxv :
  exp_vals (quantsim w) !! "length" = Some vL -> div_by vL 100 = Ret dxv ->
  SimPlayground.assign_defaults w = (Ret tt, with_sim_params w (default_params dxv)).
Proof.
  intros HL Hd. unfold SimPlayground.assign_defaults, bind, get_exp_val, lift.
  rewrite HL. simpl. rewrite Hd. reflexivity.
Qed.

(** X15.  On a known system, [set_sim_params] skips every answer other
    than ["1"] (printing the prompt and a message for each) and acts on the
    first ["1"]: it replaces [sim_params] wholesale by the defaults
    [{dx: length/100, dt: 0.01}], plus [num_modes: 3] and [do_animate: True]
    for the square well, prints the confirmation, and leaves the later
    input unread. *)
Theorem set_sim_params_defaults (w : World) (bad rest : list string) (vL dxv : value) :
  known_system (sys (quantsim w)) = true ->
  exp_vals (quantsim w) !! "length" = Some vL -> div_by vL 100 = Ret dxv ->
  Forall (fun s => s <> "1") bad ->
  exists w',
    SimPlayground.set_sim_params (bad ++ "1" :: rest) w = (Done tt, w', rest) /\
    sim_params (quantsim w') =
      (if QuantVisualizer.py_in (sys (quantsim w)) QuantVisualizer.ISW_aliases
       then default_well_params dxv else default_params dxv) /\
    stdout w' =
      (stdout w ++ concat (map rejection bad)
         ++ [SimPlayground.prompt; SimPlayground.defaults_set_msg])%list /\
    sys (quantsim w') = sys (quantsim w) /\
    exp_vals (quantsim w') = exp_vals (quantsim w) /\
    soln (quantsim w') = soln (quantsim w) /\
    prob_dens (quantsim w') = prob_dens (quantsim w).
Proof.
  intros Hk HL Hd Hbad. revert w Hk HL.
  induction Hbad as [| s bad Hs Hbad IH]; intros w Hk HL.
  - cbn [app SimPlayground.set_sim_params String.eqb Ascii.eqb Bool.eqb].
    change (String.eqb "1" "1") with true. cbv iota.
    rewrite (assign_defaults_ok (snd (print SimPlayground.prompt w)) vL dxv HL Hd).
    apply known_system_cases in Hk as [H | [H | H]].
    + rewrite H. eexists. split; [reflexivity |].
      simpl. rewrite <- !app_assoc. repeat split; reflexivity.
    + rewrite (FSW_not_ISW _ H), H. eexists. split; [reflexivity |].
      simpl. rewrite <- !app_assoc. repeat split; reflexivity.
    + rewrite (QHO_not_ISW _ H), (QHO_not_FSW _ H), H. eexists. split; [reflexivity |].
      simpl. rewrite <- !app_assoc. repeat split; reflexivity.
  - assert (E1 : String.eqb s "1" = false) by (apply String.eqb_neq; exact Hs).
    cbn [app SimPlayground.set_sim_params]. rewrite E1.
    destruct (String.eqb s "0") eqn:E0.
    + destruct (IH (snd (print SimPlayground.wip_msg (snd (print SimPlayground.prompt w)))))
        as (w' & Hrun & Hsp & Hout & Hrest); [exact Hk | exact HL |].
      exists w'. split; [exact Hrun |]. split; [exact Hsp |].
      split; [| exact Hrest].
      rewrite Hout. cbn [map concat]. unfold rejection at 2. rewrite E0.
      simpl. rewrite <- !app_assoc. reflexivity.
    + destruct (IH (snd (print SimPlayground.invalid_msg (snd (print SimPlayground.prompt w)))))
        as (w' & Hrun & Hsp & Hout & Hrest); [exact Hk | exact HL |].
      exists w'. split; [exact Hrun |]. split; [exact Hsp |].
      split; [| exact Hrest].
      rewrite Hout. cbn [map concat]. unfold rejection at 2. rewrite E0.
      simpl. rewrite <- !app_assoc. reflexivity.
Qed.

Lemma set_sim_params_defaults_witness :
  exists w',
    SimPlayground.set_sim_params ["x"; "0"; "1"; "y"] (shared_context 10 (1 / 10) 3) =
      (Done tt, w', ["y"]) /\
    sim_params (quantsim w') = default_well_params (VFloat (10 / 100)) /\
    length (stdout w') = 6%nat.
Proof.
  destruct (set_sim_params_defaults (shared_context 10 (1 / 10) 3) ["x"; "0"] ["y"]
              (VFloat 10) (VFloat (10 / 100)))
    as (w' & Hrun & Hsp & Hout & _).
  - reflexivity.
  - reflexivity.
  - reflexivity.
  - repeat constructor; discriminate.
  - exists w'. split; [exact Hrun |]. split; [exact Hsp |].
    rewrite Hout. reflexivity.
Defined.

Lemma assign_defaults_sys w o w1 :
  SimPlayground.assign_defaults w = (o, w1) ->
  sys (quantsim w1) = sys (quantsim w).
Proof.
  unfold SimPlayground.assign_defaults, bind, get_exp_val, lift.
  destruct (exp_vals (quantsim w) !! "length") as [vL|]; simpl.
  - destruct (div_by vL 100); simpl; intros H; injection H as _ <-; reflexivity.
  - intros H; injection H as _ <-; reflexivity.
Qed.

(** X16.  On an unknown system [set_sim_params] cannot return: whatever
    the input, it ends with an exception, and when that exception is
    [EOFError] it has read all of the input. *)
Theorem set_sim_params_unknown_never_returns (stdin : list string) (w : World) :
  known_system (sys (quantsim w)) = false ->
  exists e w' rest,
    SimPlayground.set_sim_params stdin w = (Fail e, w', rest) /\
    (e = EOFError -> rest = []).
Proof.
  revert w. induction stdin as [| s stdin IH]; intros w Hk.
  - eexists _, _, _. split; reflexivity.
  - pose proof Hk as Hk'. unfold known_system in Hk'.
    apply orb_false_elim in Hk' as [Hk' H3]. apply orb_false_elim in Hk' as [H1 H2].
    cbn [SimPlayground.set_sim_params].
    destruct (String.eqb s "1").
    + destruct (SimPlayground.assign_defaults (snd (print SimPlayground.prompt w)))
        as [[u|e] w1] eqn:Ea.
      * rewrite H1, H2, H3.
        destruct (IH (snd (print SimPlayground.retry_msg w1)))
          as (e & w' & rest & Hrun & Hrest).
        { apply assign_defaults_sys in Ea. simpl in Ea |- *. rewrite Ea. exact Hk. }
        rewrite Hrun. eexists _, _, _. split; [reflexivity | exact Hrest].
      * eexists _, _, _. split; [reflexivity | discriminate].
    + destruct (String.eqb s "0"); apply IH; exact Hk.
Qed.

Lemma set_sim_params_unknown_never_returns_witness :
  exists e w' rest,
    SimPlayground.set_sim_params ["1"; "1"; "0"]
      (with_sys (shared_context 10 (1 / 10) 3) "nonexistent") = (Fail e, w', rest) /\
    (e = EOFError -> rest = []).
Proof.
  apply set_sim_params_unknown_never_returns. reflexivity.
Defined.

(** X17.  Without an answer ["1"] in the input, [set_sim_params] reads all
    of it, raises [EOFError], and leaves the object as it was: only prompts
    and messages were printed. *)
Theorem set_sim_params_exhausts_input (stdin : list string) (w : World) :
  Forall (fun s => s <> "1") stdin ->
  exists w',
    SimPlayground.set_sim_params stdin w = (Fail EOFError, w', []) /\
    quantsim w' = quantsim w /\
    stdout w' = (stdout w ++ concat (map rejection stdin) ++ [SimPlayground.prompt])%list.
Proof.
  intros Hbad. revert w. induction Hbad as [| s stdin Hs Hbad IH]; intros w.
  - eexists. split; [reflexivity |]. split; reflexivity.
  - assert (E1 : String.eqb s "1" = false) by (apply String.eqb_neq; exact Hs).
    cbn [SimPlayground.set_sim_params]. rewrite E1.
    destruct (String.eqb s "0") eqn:E0.
    + destruct (IH (snd (print SimPlayground.wip_msg (snd (print SimPlayground.prompt w)))))
        as (w' & Hrun & Hq & Hout).
      exists w'. split; [exact Hrun |]. split; [exact Hq |].
      rewrite Hout. cbn [map concat]. unfold rejection at 2. rewrite E0.
      simpl. rewrite <- !app_assoc. reflexivity.
    + destruct (IH (snd (print SimPlayground.invalid_msg (snd (print SimPlayground.prompt w)))))
        as (w' & Hrun & Hq & Hout).
      exists w'. split; [exact Hrun |]. split; [exact Hq |].
      rewrite Hout. cbn [map concat]. unfold rejection at 2. rewrite E0.
      simpl. rewrite <- !app_assoc. reflexivity.
Qed.

Lemma set_sim_params_exhausts_input_witness :
  exists w',
    SimPlayground.set_sim_params ["0"; "yes"] (shared_context 10 (1 / 10) 3) =
      (Fail EOFError, w', []) /\
    quantsim w' = quantsim (shared_context 10 (1 / 10) 3).
Proof.
  destruct (set_sim_params_exhausts_input ["0"; "yes"] (shared_context 10 (1 / 10) 3))
    as (w' & Hrun & Hq & _).
  - repeat constructor; discriminate.
  - exists w'. split; [exact Hrun | exact Hq].
Defined.

(** X18.  The defaults need [exp_vals['length']]: when it is missing, the
    first answer ["1"] makes [set_sim_params] raise [KeyError], with
    [sim_params] and the rest of the object untouched and the later input
    unread. *)
Theorem set_sim_params_needs_length (w : World) (bad rest : list string) :
  exp_vals (quantsim w) !! "length" = None ->
  Forall (fun s => s <> "1") bad ->
  exists w',
    SimPlayground.set_sim_params (bad ++ "1" :: rest) w =
      (Fail (PyExn (KeyError "length")), w', rest) /\
    quantsim w' = quantsim w.
Proof.
  intros HL Hbad. revert w HL. induction Hbad as [| s bad Hs Hbad IH]; intros w HL.
  - cbn [app SimPlayground.set_sim_params].
    change (String.eqb "1" "1") with true. cbv iota.
    unfold SimPlayground.assign_defaults, bind, get_exp_val. simpl.
    rewrite HL. eexists. split; reflexivity.
  - assert (E1 : String.eqb s "1" = false) by (apply String.eqb_neq; exact Hs).
    cbn [app SimPlayground.set_sim_params]. rewrite E1.
    destruct (String.eqb s "0");
      (edestruct IH as (w' & Hrun & Hq); [| exists w'; split; [exact Hrun | exact Hq]]);
      exact HL.
Qed.

Lemma set_sim_params_needs_length_witness :
  exists w',
    SimPlayground.set_sim_params ["0"; "1"; "1"] (well_context "ISW" 10 1 (1 / 10) 3) =
      (Fail (PyExn (KeyError "length")), w', ["1"]) /\
    quantsim w' = quantsim (well_context "ISW" 10 1 (1 / 10) 3).
Proof.
  apply (set_sim_params_needs_length (well_context "ISW" 10 1 (1 / 10) 3) ["0"] ["1"]).
  - reflexivity.
  - repeat constructor; discriminate.
Defined.

Lemma div_by_num vL L c :
  to_num vL = Ret L -> div_by vL c = Ret (VFloat (L / c)).
Proof.
  destruct vL; simpl; intros H; try discriminate; injection H as <-; reflexivity.
Qed.

Lemma set_sim_params_one_well w rest vL dxv :
  QuantVisualizer.py_in (sys (quantsim w)) QuantVisualizer.ISW_aliases = true ->
  exp_vals (quantsim w) !! "length" = Some vL -> div_by vL 100 = Ret dxv ->
  exists w1,
    SimPlayground.set_sim_params ("1" :: rest) w = (Done tt, w1, rest) /\
    sim_params (quantsim w1) = default_well_params dxv /\
    exp_vals (quantsim w1) = exp_vals (quantsim w).
Proof.
  intros Hs HL Hd.
  cbn [SimPlayground.set_sim_params]. change (String.eqb "1" "1") with true. cbv iota.
  rewrite (assign_defaults_ok (snd (print SimPlayground.prompt w)) vL dxv HL Hd).
  rewrite Hs. eexists. split; [reflexivity |]. split; reflexivity.
Qed.

(** X19.  The defaults and the two square-well solvers.  After
    [set_sim_params] has set the defaults for a square well of length
    [L > 0], SimPlayground's [InfSqWell] returns three modes on a grid that
    starts at 0, ends at [L] and increases strictly; QuantVisualizer's
    [InfSqWell] raises [KeyError] for ['length'], which the defaults do not
    contain. *)
Theorem defaults_then_solve (w : World) (rest : list string) (vL : value) (L : R) :
  QuantVisualizer.py_in (sys (quantsim w)) QuantVisualizer.ISW_aliases = true ->
  exp_vals (quantsim w) !! "length" = Some vL -> to_num vL = Ret L -> 0 < L ->
  exists w1,
    SimPlayground.set_sim_params ("1" :: rest) w = (Done tt, w1, rest) /\
    (exists sol pd w2 xs,
       SimPlayground.InfSqWell w1 = (Ret (sol, pd), w2) /\
       length sol = 3%nat /\ length pd = 3%nat /\
       grid w2 = Some xs /\
       xs !! 0%nat = Some 0 /\
       last xs = Some L /\
       strictly_increasing xs) /\
    QuantVisualizer.InfSqWell w1 = (Raise (KeyError "length"), w1).
Proof.
  intros Hs HL EL Hpos.
  destruct (set_sim_params_one_well w rest vL (VFloat (L / 100)) Hs HL
              (div_by_num vL L 100 EL))
    as (w1 & Hrun & Hsp & Hexp).
  exists w1. split; [exact Hrun |]. split.
  - assert (HM : (1 <= well_intervals L (L / 100))%nat) by (apply intervals_pos; lra).
    assert (Hrun1 := playground_InfSqWell_run w1 vL (VFloat (L / 100)) L (L / 100) 3).
    eexists _, _, _, _. split.
    { apply Hrun1.
      - rewrite Hexp. exact HL.
      - rewrite Hsp. reflexivity.
      - rewrite Hsp. reflexivity.
      - exact EL.
      - reflexivity.
      - lra.
      - lra. }
    split; [reflexivity |]. split; [reflexivity |].
    split; [apply playground_world_grid |].
    split; [apply uniform_grid_first |].
    split.
    { rewrite last_lookup, uniform_grid_length. simpl Nat.pred.
      apply uniform_grid_last, HM. }
    apply uniform_grid_increasing, Hpos.
  - rewrite InfSqWell_core. unfold well_reads. rewrite Hsp. reflexivity.
Qed.

Lemma defaults_then_solve_witness :
  exists w1,
    SimPlayground.set_sim_params ["1"] (shared_context 10 (1 / 10) 3) = (Done tt, w1, []) /\
    (exists sol pd w2 xs,
       SimPlayground.InfSqWell w1 = (Ret (sol, pd), w2) /\
       length sol = 3%nat /\ grid w2 = Some xs /\ last xs = Some 10) /\
    QuantVisualizer.InfSqWell w1 = (Raise (KeyError "length"), w1).
Proof.
  destruct (defaults_then_solve (shared_context 10 (1 / 10) 3) [] (VFloat 10) 10)
    as (w1 & Hrun & (sol & pd & w2 & xs & H1 & H2 & _ & H3 & _ & H4 & _) & Hqv).
  - reflexivity.
  - reflexivity.
  - reflexivity.
  - lra.
  - exists w1. split; [exact Hrun |]. split; [| exact Hqv].
    exists sol, pd, w2, xs. repeat split; assumption.
Defined.

(** ** The Hermite series of [hermval] *)

Lemma Hermite_SS n x :
  Hermite (S (S n)) x = 2 * x * Hermite (S n) x - 2 * INR (S n) * Hermite n x.
Proof. reflexivity. Qed.

Lemma herm_series_app c1 c2 k x :
  herm_series (c1 ++ c2) k x =
  herm_series c1 k x + herm_series c2 (k + length c1) x.
Proof.
  revert k. induction c1 as [| a c1 IH]; intros k.
  - simpl. rewrite Nat.add_0_r. lra.
  - simpl. rewrite IH. replace (S k + length c1)%nat with (k + S (length c1))%nat by lia.
    lra.
Qed.

(** The invariant of the Clenshaw loop: with [i] coefficients still to
    come, the value in the making is the series of those coefficients plus
    [c0 H_i + c1 H_(i+1)]. *)
Lemma hermval_loop_spec x rest :
  forall c0 c1,
    fst (Numpy.hermval_loop (x * 2) rest (length rest + 2) c0 c1)
    + snd (Numpy.hermval_loop (x * 2) rest (length rest + 2) c0 c1) * (x * 2) =
    herm_series (rev rest) 0 x
    + c0 * Hermite (length rest) x + c1 * Hermite (S (length rest)) x.
Proof.
  induction rest as [| ci rest IH]; intros c0 c1.
  - simpl. lra.
  - cbn [length Numpy.hermval_loop rev].
    replace (S (length rest) + 2 - 1)%nat with (length rest + 2)%nat by lia.
    rewrite IH, herm_series_app, length_rev, Hermite_SS.
    cbn [herm_series Nat.add].
    replace (INR (length rest + 2) - 1) with (INR (S (length rest)))
      by (rewrite plus_INR, S_INR; simpl; lra).
    lra.
Qed.

(** [hermval] computes the Hermite series of its coefficients. *)
Lemma hermval_series x c :
  c <> [] -> Numpy.hermval x c = herm_series c 0 x.
Proof.
  intros Hc. unfold Numpy.hermval.
  rewrite <- (rev_involutive c) at 2.
  assert (Hlen : length c = length (rev c)) by (symmetry; apply length_rev).
  destruct (rev c) as [| c_last [| c_prev rest]] eqn:Er.
  - exfalso. apply Hc. rewrite <- (rev_involutive c), Er. reflexivity.
  - simpl. lra.
  - destruct rest as [| c3 rest].
    + simpl. lra.
    + pose proof (hermval_loop_spec x (c3 :: rest) c_prev c_last) as Hspec.
      rewrite Hlen. cbn [length] in *.
      replace (S (S (S (length rest)))) with (S (length rest) + 2)%nat by lia.
      destruct (Numpy.hermval_loop (x * 2) (c3 :: rest) (S (length rest) + 2) c_prev c_last)
        as [a b].
      cbn [fst snd] in Hspec. rewrite Hspec.
      change (rev (c_last :: c_prev :: c3 :: rest))
        with ((rev (c3 :: rest) ++ [c_prev]) ++ [c_last])%list.
      rewrite !herm_series_app, !length_app, length_rev. cbn [length herm_series Nat.add].
      replace (S (length rest + 1)) with (S (S (length rest))) by lia.
      lra.
Qed.

Lemma unit_coeffs_app n : Numpy.unit_coeffs n = (replicate n 0 ++ [1])%list.
Proof.
  unfold Numpy.unit_coeffs. induction n as [| n IH].
  - reflexivity.
  - simpl in *. f_equal. exact IH.
Qed.

Lemma herm_series_zeros n k x : herm_series (replicate n 0) k x = 0.
Proof.
  revert k. induction n as [| n IH]; intros k; simpl; [reflexivity |].
  rewrite IH. lra.
Qed.

(** On the [n]-th unit coefficient vector [hermval] gives [H_n]. *)
Lemma hermval_unit n x : Numpy.hermval x (Numpy.unit_coeffs n) = Hermite n x.
Proof.
  rewrite hermval_series.
  - rewrite unit_coeffs_app, herm_series_app, herm_series_zeros, length_replicate.
    cbn [herm_series Nat.add]. lra.
  - rewrite unit_coeffs_app. intros E. apply (f_equal length) in E.
    rewrite length_app in E. simpl in E. lia.
Qed.

(** X20.  The nested function [hermite(x, n)] of [ParabSqWell] is the
    physicists' Hermite polynomial of degree [n] at the scaled coordinate
    [sqrt(m w / hbar) x]: it is 1 for [n = 0], twice the coordinate for
    [n = 1], and obeys [H_(n+2) = 2 xi H_(n+1) - 2 (n+1) H_n]. *)
Theorem hermite_is_Hermite (m w x : R) (n : nat) :
  QuantVisualizer.hermite m w x n =
    Hermite n (sqrt (m * w / QuantVisualizer.hbar) * x) /\
  QuantVisualizer.hermite m w x 0 = 1 /\
  QuantVisualizer.hermite m w x 1 = 2 * (sqrt (m * w / QuantVisualizer.hbar) * x) /\
  QuantVisualizer.hermite m w x (S (S n)) =
    2 * (sqrt (m * w / QuantVisualizer.hbar) * x) * QuantVisualizer.hermite m w x (S n)
    - 2 * INR (S n) * QuantVisualizer.hermite m w x n.
Proof.
  unfold QuantVisualizer.hermite. cbv zeta.
  generalize (sqrt (m * w / QuantVisualizer.hbar) * x). intros xi.
  rewrite !hermval_unit.
  split; [reflexivity |]. split; [reflexivity |]. split; [reflexivity |].
  apply Hermite_SS.
Qed.

Lemma zip_with_map_self {A B C} (f : B -> A -> C) (g : A -> B) (l : list A) :
  zip_with f (map g l) l = map (fun x => f (g x) x) l.
Proof. induction l as [| a l IH]; simpl; [reflexivity | rewrite IH; reflexivity]. Qed.

Lemma factorial_INR n : IZR (Numpy.factorial n) = INR (fact n).
Proof.
  induction n as [| n IH].
  - reflexivity.
  - change (Numpy.factorial (S n)) with (Z.of_nat (S n) * Numpy.factorial n)%Z.
    change (fact (S n)) with (S n * fact n)%nat.
    rewrite mult_IZR, mult_INR, IH, <- INR_IZR_INZ. reflexivity.
Qed.

(** Up to [n = 16] the [np.int64] product is the product: [2^16 * 16!] is
    below [2^63], [2^17 * 17!] is not. *)
Lemma product_exact n :
  (n <= 16)%nat ->
  Numpy.int64 (Numpy.int64 (2 ^ Z.of_nat n) * Numpy.factorial n) =
    (2 ^ Z.of_nat n * Numpy.factorial n)%Z.
Proof.
  intros Hn. do 17 (destruct n as [| n]; [vm_compute; reflexivity |]). lia.
Qed.

(** At [n = 17] the product has wrapped to a negative number, of which
    [np.sqrt] is NaN. *)
Lemma product_wraps :
  (Numpy.int64 (Numpy.int64 (2 ^ Z.of_nat 17) * Numpy.factorial 17) < 0)%Z.
Proof. vm_compute. reflexivity. Qed.

Lemma alpha_exact m om n :
  (n <= 16)%nat ->
  QuantVisualizer.alpha m om n =
    1 / sqrt (2 ^ n * INR (fact n)) * Rpower (m * om / (PI * QuantVisualizer.hbar)) 0.25.
Proof.
  intros Hn. unfold QuantVisualizer.alpha.
  rewrite product_exact by assumption.
  rewrite mult_IZR, factorial_INR, <- pow_IZR. reflexivity.
Qed.

(** X21.  The oscillator amplitudes in closed form, for the modes whose
    normalisation the code computes without integer overflow.  On valid
    parameters with at most 20 modes, with [om = sqrt(k/m)], the entry of
    mode [n <= 16] at the grid point [x = -L + i dx] is
    [1/sqrt(2^n n!) * (m om / pi)^(1/4) * exp(-(x^2/2) m om) * H_n(sqrt(m om) x)]. *)
Theorem oscillator_amplitude_closed_form
    (w : World) (L m kf dx : R) (k : Z) (n i : nat) :
  osc_params w L m kf dx k ->
  0 < L -> 0 < m -> 0 < kf -> 0 < dx ->
  (Z.of_nat n <= k)%Z -> (k <= 20)%Z -> (n <= 16)%nat ->
  (i < osc_points L dx)%nat ->
  exists sol pd w' xs a,
    QuantVisualizer.ParabSqWell w = (Ret (sol, pd), w') /\
    grid w' = Some xs /\ length xs = osc_points L dx /\
    sol !! n = Some a /\ length a = length xs /\
    a !! i =
      Some (1 / sqrt (2 ^ n * INR (fact n))
            * Rpower (m * sqrt (kf / m) / PI) 0.25
            * exp (- ((- L + INR i * dx) ^ 2 / 2) * (m * sqrt (kf / m)))
            * Hermite n (sqrt (m * sqrt (kf / m)) * (- L + INR i * dx))).
Proof.
  intros Hp HL Hm Hkf Hdx Hn Hk Hn16 Hi.
  eexists _, _, _, _, _.
  split; [apply (ParabSqWell_valid_run w L m kf dx k); [assumption | lra | lra | assumption] |].
  split; [apply osc_world_grid |].
  split; [apply osc_grid_length |].
  split; [rewrite list_lookup_fmap, arange_lookup by lia; reflexivity |].
  split; [apply osc_wfn_ampl_length |].
  unfold QuantVisualizer.osc_wfn_ampl, QuantVisualizer.exp_decay.
  rewrite zip_with_map_self.
  rewrite list_lookup_fmap, osc_grid_lookup by assumption.
  cbn [fmap option_fmap option_map Nat.add]. f_equal.
  rewrite Z.add_0_l, Nat2Z.id.
  unfold QuantVisualizer.hermite. cbv zeta. rewrite hermval_unit.
  rewrite alpha_exact by assumption. unfold QuantVisualizer.hbar.
  replace (m * sqrt (kf / m) / (PI * 1)) with (m * sqrt (kf / m) / PI)
    by (field; apply PI_neq0).
  replace (m * sqrt (kf / m) / 1) with (m * sqrt (kf / m)) by field.
  reflexivity.
Qed.

Lemma oscillator_amplitude_closed_form_witness :
  exists sol pd w' a,
    QuantVisualizer.ParabSqWell (osc_context "QHO" 10 1 1 (1 / 10) 3) = (Ret (sol, pd), w') /\
    sol !! 0%nat = Some a /\ length a = 200%nat /\
    a !! 100%nat =
      Some (1 / sqrt (2 ^ 0 * INR (fact 0))
            * Rpower (1 * sqrt (1 / 1) / PI) 0.25
            * exp (- ((- 10 + INR 100 * (1 / 10)) ^ 2 / 2) * (1 * sqrt (1 / 1)))
            * Hermite 0 (sqrt (1 * sqrt (1 / 1)) * (- 10 + INR 100 * (1 / 10)))).
Proof.
  destruct (oscillator_amplitude_closed_form (osc_context "QHO" 10 1 1 (1 / 10) 3)
              10 1 1 (1 / 10) 3 0 100)
    as (sol & pd & w' & xs & a & Hrun & _ & Hlen & Ha & Hla & Hv).
  - apply osc_context_params.
  - lra.
  - lra.
  - lra.
  - lra.
  - lia.
  - lia.
  - lia.
  - rewrite osc_points_10_tenth. lia.
  - rewrite osc_points_10_tenth in Hlen.
    exists sol, pd, w', a. split; [exact Hrun |]. split; [exact Ha |].
    split; [congruence | exact Hv].
Defined.

(** ** [plot_func] *)

Lemma for_enumerate_index x l :
  forall n w t,
    for_enumerate (fun n wfn => emit (PlotLine x wfn (IndexLabel n))) n l w t =
    (Done tt, w, (t ++ index_lines x n l)%list).
Proof.
  unfold index_lines.
  induction l as [| wfn l IH]; intros n w t.
  - simpl. unfold pret. rewrite app_nil_r. reflexivity.
  - cbn [for_enumerate]. unfold pbind at 1, emit at 1. rewrite IH.
    cbn [imap]. rewrite <- app_assoc. cbn [app]. rewrite Nat.add_0_r.
    do 3 f_equal. apply imap_ext. intros j y _. simpl. do 2 f_equal. lia.
Qed.

(** [plot_func] on a square-well alias once the three reads succeed. *)
Lemma plot_func_well w xv o ev t :
  QuantVisualizer.py_in (sys (quantsim w)) QuantVisualizer.ISW_aliases = true ->
  sim_params (quantsim w) !! "x_vals" = Some xv ->
  soln (quantsim w) = Some o ->
  sim_params (quantsim w) !! "E_array" = Some ev ->
  QuantVisualizer.plot_func w t =
    match QuantVisualizer.plot_well xv o w (t ++ [Subplots; AxisOff])%list with
    | (Done _, w', t') => (Done tt, w', (t' ++ [Legend])%list)
    | (Fail e, w', t') => (Fail e, w', t')
    end.
Proof.
  intros Hs Hx Ho He.
  unfold QuantVisualizer.plot_func, pbind, emit, read_param, read_soln.
  rewrite Hx, Ho, He, Hs, <- app_assoc. simpl.
  destruct (QuantVisualizer.plot_well xv o w (t ++ [Subplots; AxisOff])%list)
    as [[[u|e] w'] t'];
    reflexivity.
Qed.


Lemma plot_well_ok xv l vL a lo hi w t :
  sim_params (quantsim w) !! "length" = Some vL ->
  soln (quantsim w) = Some (PyArrays l) -> l !! 1%nat = Some a ->
  py_min a = Ret lo -> py_max a = Ret hi ->
  QuantVisualizer.plot_well xv (PyArrays l) w t =
    (Done tt, w,
     (t ++ index_lines xv 0 l ++ [VLines [VInt 0; vL] lo hi; HLines lo (VInt 0) vL])%list).
Proof.
  intros HL Hs Ha Hlo Hhi.
  unfold QuantVisualizer.plot_well, pbind at 1, plift at 1. cbn [iterate].
  unfold pbind at 1. rewrite for_enumerate_index.
  unfold pbind, read_param, soln_item, pbind, read_soln, plift, item, emit.
  repeat (progress (rewrite ?HL, ?Hs, ?Ha, ?Hlo, ?Hhi; cbn beta iota)).
  rewrite <- !app_assoc. reflexivity.
Qed.

Lemma py_min_nonempty a : a <> [] -> exists lo, py_min a = Ret lo.
Proof. destruct a; [contradiction | intros _; eexists; reflexivity]. Qed.

Lemma py_max_nonempty a : a <> [] -> exists hi, py_max a = Ret hi.
Proof. destruct a; [contradiction | intros _; eexists; reflexivity]. Qed.

Lemma fold_Rmin_le rest : forall x, fold_left Rmin rest x <= x.
Proof.
  induction rest as [| y rest IH]; intros x; simpl; [lra |].
  eapply Rle_trans; [apply IH | apply Rmin_l].
Qed.

Lemma fold_Rmin_lower rest :
  forall x v, v ∈ rest -> fold_left Rmin rest x <= v.
Proof.
  induction rest as [| y rest IH]; intros x v Hv.
  - apply elem_of_nil in Hv. contradiction.
  - simpl. apply elem_of_cons in Hv as [-> | Hv].
    + eapply Rle_trans; [apply fold_Rmin_le | apply Rmin_r].
    + apply IH, Hv.
Qed.

Lemma py_min_lower a lo v : py_min a = Ret lo -> v ∈ a -> lo <= v.
Proof.
  destruct a as [| x rest]; [discriminate |]. simpl. intros H Hv.
  injection H as <-. apply elem_of_cons in Hv as [-> | Hv].
  - apply fold_Rmin_le.
  - apply fold_Rmin_lower, Hv.
Qed.

Lemma fold_Rmax_ge rest : forall x, x <= fold_left Rmax rest x.
Proof.
  induction rest as [| y rest IH]; intros x; simpl; [lra |].
  eapply Rle_trans; [apply Rmax_l | apply IH].
Qed.

Lemma fold_Rmax_upper rest :
  forall x v, v ∈ rest -> v <= fold_left Rmax rest x.
Proof.
  induction rest as [| y rest IH]; intros x v Hv.
  - apply elem_of_nil in Hv. contradiction.
  - simpl. apply elem_of_cons in Hv as [-> | Hv].
    + eapply Rle_trans; [apply Rmax_r | apply fold_Rmax_ge].
    + apply IH, Hv.
Qed.

Lemma py_max_upper a hi v : py_max a = Ret hi -> v ∈ a -> v <= hi.
Proof.
  destruct a as [| x rest]; [discriminate |]. simpl. intros H Hv.
  injection H as <-. apply elem_of_cons in Hv as [-> | Hv].
  - apply fold_Rmax_ge.
  - apply fold_Rmax_upper, Hv.
Qed.

(** [simulate] on a square-well alias with valid parameters, on any
    context. *)
Lemma simulate_well_valid w L m dx k :
  QuantVisualizer.py_in (sys (quantsim w)) QuantVisualizer.ISW_aliases = true ->
  well_params w L m dx k -> 0 < dx -> 0 <= L ->
  QuantVisualizer.simulate w =
    (Ret tt,
     with_results
       (well_world w (uniform_grid L (well_intervals L dx))
          (map (QuantVisualizer.energy_level L m) (Numpy.arange 1 (k + 1))))
       (map (QuantVisualizer.wfn_ampl L (uniform_grid L (well_intervals L dx)))
            (Numpy.arange 1 (k + 1)))
       (map (QuantVisualizer.prob_density L (uniform_grid L (well_intervals L dx)))
            (Numpy.arange 1 (k + 1)))).
Proof.
  intros Hs Hp Hdx HL. rewrite simulate_well by exact Hs.
  rewrite (InfSqWell_valid_run w L m dx k Hp Hdx HL). reflexivity.
Qed.

Lemma wfn_ampl_nonempty L M n : QuantVisualizer.wfn_ampl L (uniform_grid L M) n <> [].
Proof.
  intros E. apply (f_equal length) in E.
  unfold QuantVisualizer.wfn_ampl in E. rewrite length_map, uniform_grid_length in E.
  discriminate E.
Qed.



(** X23.  Plotting a square well with at least two modes.  After a
    successful [simulate] on valid parameters with [num_modes >= 2],
    [plot_func] succeeds without modifying the context: it draws one line per
    mode over the stored grid, labelled 0, 1, ... in order, then the two
    walls at 0 and at the stored length and the floor, all taken from the
    second mode ([soln[1]]), whose every sample lies between the floor [lo]
    and the top [hi] of the walls, and the legend. *)
Theorem plot_well_draws (w : World) (L m dx : R) (k : Z) :
  QuantVisualizer.py_in (sys (quantsim w)) QuantVisualizer.ISW_aliases = true ->
  well_params w L m dx k -> 0 < L -> 0 < dx -> (2 <= k)%Z ->
  exists w1 sol xs vL second lo hi,
    QuantVisualizer.simulate w = (Ret tt, w1) /\
    soln (quantsim w1) = Some (PyArrays sol) /\
    Z.of_nat (length sol) = k /\
    grid w1 = Some xs /\
    sim_params (quantsim w1) !! "length" = Some vL /\ to_num vL = Ret L /\
    sol !! 1%nat = Some second /\
    (forall v, v ∈ second -> lo <= v <= hi) /\
    QuantVisualizer.plot_func w1 [] =
      (Done tt, w1,
       ([Subplots; AxisOff] ++ index_lines (VArray xs) 0 sol
          ++ [VLines [VInt 0; vL] lo hi; HLines lo (VInt 0) vL; Legend])%list).
Proof.
  intros Hs Hp HL Hdx Hk.
  pose proof (simulate_well_valid w L m dx k Hs Hp Hdx (Rlt_le _ _ HL)) as Hsim.
  destruct Hp as (vL & vm & vdx & HvL & EL & _).
  set (xs := uniform_grid L (well_intervals L dx)) in *.
  set (sol := map (QuantVisualizer.wfn_ampl L xs) (Numpy.arange 1 (k + 1))) in *.
  assert (H1 : sol !! 1%nat = Some (QuantVisualizer.wfn_ampl L xs 2)).
  { unfold sol. rewrite list_lookup_fmap, arange_lookup by lia. reflexivity. }
  destruct (py_min_nonempty _ (wfn_ampl_nonempty L (well_intervals L dx) 2))
    as [lo Hlo].
  destruct (py_max_nonempty _ (wfn_ampl_nonempty L (well_intervals L dx) 2))
    as [hi Hhi].
  fold xs in Hlo, Hhi.
  assert (HvL1 : sim_params
                   (quantsim (with_results
                      (well_world w xs (map (QuantVisualizer.energy_level L m)
                                            (Numpy.arange 1 (k + 1))))
                      sol (map (QuantVisualizer.prob_density L xs) (Numpy.arange 1 (k + 1)))))
                   !! "length" = Some vL).
  { unfold with_results, well_world, with_sim_params. simpl.
    rewrite !lookup_insert_ne by discriminate. exact HvL. }
  eexists _, sol, xs, vL, _, lo, hi.
  split; [exact Hsim |]. split; [reflexivity |].
  split; [unfold sol; rewrite length_map, arange_length; lia |].
  split; [apply well_world_grid |].
  split; [exact HvL1 |]. split; [exact EL |]. split; [exact H1 |].
  split.
  { intros v Hv. split; [eapply py_min_lower | eapply py_max_upper]; eassumption. }
  erewrite plot_func_well.
  - erewrite plot_well_ok; [| exact HvL1 | reflexivity | exact H1 | exact Hlo | exact Hhi].
    rewrite <- !app_assoc. reflexivity.
  - exact Hs.
  - unfold with_results, well_world, with_sim_params. simpl.
    rewrite lookup_insert_ne, lookup_insert_eq by discriminate. reflexivity.
  - reflexivity.
  - unfold with_results, well_world, with_sim_params. simpl.
    rewrite lookup_insert_eq. reflexivity.
Qed.

Lemma plot_well_draws_witness :
  exists w1 sol xs vL lo hi,
    QuantVisualizer.simulate (well_context "ISW" 10 1 (1 / 10) 3) = (Ret tt, w1) /\
    length sol = 3%nat /\
    QuantVisualizer.plot_func w1 [] =
      (Done tt, w1,
       ([Subplots; AxisOff] ++ index_lines (VArray xs) 0 sol
          ++ [VLines [VInt 0; vL] lo hi; HLines lo (VInt 0) vL; Legend])%list).
Proof.
  destruct (plot_well_draws (well_context "ISW" 10 1 (1 / 10) 3) 10 1 (1 / 10) 3)
    as (w1 & sol & xs & vL & second & lo & hi & Hsim & _ & Hlen & _ & _ & _ & _ & _ & Hplot).
  - reflexivity.
  - apply well_context_params.
  - lra.
  - lra.
  - lia.
  - exists w1, sol, xs, vL, lo, hi. split; [exact Hsim |]. split; [lia | exact Hplot].
Defined.

Lemma for_enumerate_energy x es l :
  forall n w t,
    (n + length l <= length es)%nat ->
    for_enumerate
      (fun n wfn =>
         let+ e := plift (getitem (VArray es) n) in
         emit (PlotLine x wfn (EnergyLabel e)))
      n l w t =
    (Done tt, w, (t ++ energy_lines x l (drop n es))%list).
Proof.
  unfold energy_lines.
  induction l as [| wfn l IH]; intros n w t Hlen.
  - simpl. unfold pret. rewrite app_nil_r. reflexivity.
  - cbn [length] in Hlen.
    destruct (lookup_lt_is_Some_2 es n) as [e He]; [lia |].
    cbn [for_enumerate]. unfold pbind at 1, pbind at 1, plift at 1, getitem.
    rewrite He. unfold emit at 1. rewrite IH by lia.
    rewrite (drop_S es e n He). cbn [zip_with]. rewrite <- app_assoc. reflexivity.
Qed.

Lemma plot_func_oscillator w xv o ev t :
  QuantVisualizer.py_in (sys (quantsim w)) QuantVisualizer.QHO_aliases = true ->
  sim_params (quantsim w) !! "x_vals" = Some xv ->
  soln (quantsim w) = Some o ->
  sim_params (quantsim w) !! "E_array" = Some ev ->
  QuantVisualizer.plot_func w t =
    match QuantVisualizer.plot_oscillator xv o ev w (t ++ [Subplots; AxisOff])%list with
    | (Done _, w', t') => (Done tt, w', (t' ++ [Legend])%list)
    | (Fail e, w', t') => (Fail e, w', t')
    end.
Proof.
  intros Hs Hx Ho He.
  unfold QuantVisualizer.plot_func, pbind, emit, read_param, read_soln.
  rewrite Hx, Ho, He, (QHO_not_ISW _ Hs), (QHO_not_FSW _ Hs), Hs, <- app_assoc. simpl.
  destruct (QuantVisualizer.plot_oscillator xv o ev w (t ++ [Subplots; AxisOff])%list)
    as [[[u|e] w'] t']; reflexivity.
Qed.

Lemma plot_oscillator_ok xv l es vL mL a hi w t :
  sim_params (quantsim w) !! "length" = Some vL -> neg_value vL = Ret mL ->
  soln (quantsim w) = Some (PyArrays l) -> l !! 0%nat = Some a ->
  py_max a = Ret hi -> (length l <= length es)%nat ->
  QuantVisualizer.plot_oscillator xv (PyArrays l) (VArray es) w t =
    (Done tt, w,
     (t ++ energy_lines xv l es
        ++ [VLines [mL; vL] (- hi) hi; HLines (- hi) mL vL;
            SetXLim (-12) 12; SetYLim (-1) 1])%list).
Proof.
  intros HL Hneg Hs Ha Hhi Hlen.
  unfold QuantVisualizer.plot_oscillator, pbind at 1, plift at 1. cbn [iterate].
  unfold pbind at 1. rewrite for_enumerate_energy by (simpl; lia).
  unfold pbind, read_param, soln_item, pbind, read_soln, plift, item, emit.
  repeat (progress (rewrite ?HL, ?Hneg, ?Hs, ?Ha, ?Hhi; cbn beta iota)).
  rewrite drop_0, <- !app_assoc. reflexivity.
Qed.

Lemma neg_value_num v L :
  to_num v = Ret L -> exists mv, neg_value v = Ret mv /\ to_num mv = Ret (- L).
Proof.
  destruct v as [z | r | b | a | l]; intros H; try discriminate H;
    injection H as <-; eexists; (split; [reflexivity |]);
    cbn [to_num].
  - rewrite opp_IZR. reflexivity.
  - reflexivity.
  - destruct b; rewrite opp_IZR; reflexivity.
Qed.

Lemma simulate_oscillator_valid w L m kf dx k :
  QuantVisualizer.py_in (sys (quantsim w)) QuantVisualizer.QHO_aliases = true ->
  osc_params w L m kf dx k -> dx <> 0 -> m <> 0 -> (k <= 20)%Z ->
  QuantVisualizer.simulate w =
    (Ret tt,
     with_results
       (osc_world w (osc_grid L dx)
          (map (fun e => e / sqrt (kf / m))
               (map (fun n => (IZR n + 0.5) * QuantVisualizer.hbar * sqrt (kf / m))
                    (Numpy.arange 0 (k + 1))))
          (sqrt (kf / m)))
       (map (QuantVisualizer.osc_wfn_ampl m (sqrt (kf / m)) (osc_grid L dx))
            (Numpy.arange 0 (k + 1)))
       (map (QuantVisualizer.osc_prob_density m (sqrt (kf / m)) (osc_grid L dx))
            (Numpy.arange 0 (k + 1)))).
Proof.
  intros Hs Hp Hdx Hm Hk. rewrite simulate_oscillator by exact Hs.
  rewrite (ParabSqWell_valid_run w L m kf dx k Hp Hdx Hm Hk). reflexivity.
Qed.

(** X24.  Plotting the oscillator.  On valid parameters with at most 16
    modes (those whose amplitudes the code computes without integer
    overflow) [simulate] returns, and after it [plot_func] succeeds without
    modifying the context: it draws
    one line per mode over the stored grid, labelled with the stored energy
    of that mode; then walls at minus and plus the stored length and a
    floor, reaching from [-hi] to [hi] where [hi] bounds the ground mode
    ([soln[0]]) from above; it fixes the axes to [[-12, 12]] by [[-1, 1]]
    whatever the length; and it draws the legend. *)
Theorem plot_oscillator_draws (w : World) (L m kf dx : R) (k : Z) :
  QuantVisualizer.py_in (sys (quantsim w)) QuantVisualizer.QHO_aliases = true ->
  osc_params w L m kf dx k -> 0 < L -> 0 < m -> 0 < kf -> 0 < dx ->
  (0 <= k)%Z -> (k <= 16)%Z ->
  exists w1 sol xs es vL mL ground hi,
    QuantVisualizer.simulate w = (Ret tt, w1) /\
    soln (quantsim w1) = Some (PyArrays sol) /\
    grid w1 = Some xs /\ energy_levels w1 = Some es /\
    length sol = length es /\
    sim_params (quantsim w1) !! "length" = Some vL /\
    to_num vL = Ret L /\ to_num mL = Ret (- L) /\
    sol !! 0%nat = Some ground /\
    (forall v, v ∈ ground -> v <= hi) /\
    QuantVisualizer.plot_func w1 [] =
      (Done tt, w1,
       ([Subplots; AxisOff] ++ energy_lines (VArray xs) sol es
          ++ [VLines [mL; vL] (- hi) hi; HLines (- hi) mL vL;
              SetXLim (-12) 12; SetYLim (-1) 1; Legend])%list).
Proof.
  intros Hs Hp HL Hm Hkf Hdx Hk Hk16.
  assert (Hk20 : (k <= 20)%Z) by lia.
  assert (Hdx' : dx <> 0) by lra. assert (Hm' : m <> 0) by lra.
  pose proof (simulate_oscillator_valid w L m kf dx k Hs Hp Hdx' Hm' Hk20) as Hsim.
  destruct Hp as (vL & vm & vk & vdx & HvL & EL & _).
  destruct (neg_value_num vL L EL) as (mL & Hneg & EmL).
  set (om := sqrt (kf / m)) in *.
  set (xs := osc_grid L dx) in *.
  set (sol := map (QuantVisualizer.osc_wfn_ampl m om xs) (Numpy.arange 0 (k + 1))) in *.
  set (es := map (fun e => e / om)
                 (map (fun n => (IZR n + 0.5) * QuantVisualizer.hbar * om)
                      (Numpy.arange 0 (k + 1)))) in *.
  assert (H0 : sol !! 0%nat = Some (QuantVisualizer.osc_wfn_ampl m om xs 0)).
  { unfold sol. rewrite list_lookup_fmap, arange_lookup by lia. reflexivity. }
  assert (Hne : QuantVisualizer.osc_wfn_ampl m om xs 0 <> []).
  { intros E. apply (f_equal length) in E. rewrite osc_wfn_ampl_length in E.
    apply (osc_grid_nonempty L dx HL Hdx). apply length_zero_iff_nil. exact E. }
  destruct (py_max_nonempty _ Hne) as [hi Hhi].
  assert (Hlen : length sol = length es).
  { unfold sol, es. rewrite !length_map. reflexivity. }
  set (w1 := with_results (osc_world w xs es om) sol
               (map (QuantVisualizer.osc_prob_density m om xs) (Numpy.arange 0 (k + 1)))) in *.
  assert (HvL1 : sim_params (quantsim w1) !! "length" = Some vL).
  { unfold w1, with_results, osc_world, with_sim_params. simpl.
    rewrite !lookup_insert_ne by discriminate. exact HvL. }
  exists w1, sol, xs, es, vL, mL, (QuantVisualizer.osc_wfn_ampl m om xs 0), hi.
  split; [exact Hsim |]. split; [reflexivity |].
  split; [apply osc_world_grid |]. split; [apply osc_world_energy |].
  split; [exact Hlen |]. split; [exact HvL1 |]. split; [exact EL |].
  split; [exact EmL |]. split; [exact H0 |].
  split; [intros v Hv; eapply py_max_upper; eassumption |].
  rewrite (plot_func_oscillator w1 (VArray xs) (PyArrays sol) (VArray es)).
  - erewrite plot_oscillator_ok;
      [| exact HvL1 | exact Hneg | reflexivity | exact H0 | exact Hhi
       | apply Nat.eq_le_incl, Hlen].
    rewrite <- !app_assoc. reflexivity.
  - exact Hs.
  - unfold w1, with_results, osc_world, with_sim_params. simpl.
    rewrite !lookup_insert_ne, lookup_insert_eq by discriminate. reflexivity.
  - reflexivity.
  - unfold w1, with_results, osc_world, with_sim_params. simpl.
    rewrite lookup_insert_ne, lookup_insert_eq by discriminate. reflexivity.
Qed.

Lemma plot_oscillator_draws_witness :
  exists w1 sol xs es vL mL hi,
    QuantVisualizer.simulate (osc_context "QHO" 10 1 1 (1 / 10) 3) = (Ret tt, w1) /\
    length sol = length es /\
    QuantVisualizer.plot_func w1 [] =
      (Done tt, w1,
       ([Subplots; AxisOff] ++ energy_lines (VArray xs) sol es
          ++ [VLines [mL; vL] (- hi) hi; HLines (- hi) mL vL;
              SetXLim (-12) 12; SetYLim (-1) 1; Legend])%list).
Proof.
  destruct (plot_oscillator_draws (osc_context "QHO" 10 1 1 (1 / 10) 3) 10 1 1 (1 / 10) 3)
    as (w1 & sol & xs & es & vL & mL & ground & hi & Hsim & _ & _ & _ & Hlen
        & _ & _ & _ & _ & _ & Hplot).
  - reflexivity.
  - apply osc_context_params.
  - lra.
  - lra.
  - lra.
  - lra.
  - lia.
  - lia.
  - exists w1, sol, xs, es, vL, mL, hi.
    split; [exact Hsim |]. split; [exact Hlen | exact Hplot].
Defined.

(** ** What plotting leaves alone *)

Lemma pure_pret {A} (a : A) : plt_pure (pret a).
Proof. intros w t. exists (Done a), []. unfold pret. rewrite app_nil_r. reflexivity. Qed.

Lemma pure_plift {A} (o : outcome A) : plt_pure (plift o).
Proof.
  intros w t. unfold plift. destruct o; eexists _, []; rewrite app_nil_r; reflexivity.
Qed.

Lemma pure_emit d : plt_pure (emit d).
Proof. intros w t. exists (Done tt), [d]. reflexivity. Qed.

Lemma pure_read_param key : plt_pure (read_param key).
Proof.
  intros w t. unfold read_param.
  destruct (sim_params (quantsim w) !! key); eexists _, []; rewrite app_nil_r; reflexivity.
Qed.

Lemma pure_read_soln : plt_pure read_soln.
Proof.
  intros w t. unfold read_soln.
  destruct (soln (quantsim w)); eexists _, []; rewrite app_nil_r; reflexivity.
Qed.

Lemma pure_pbind {A B} (m : Plt A) (k : A -> Plt B) :
  plt_pure m -> (forall a, plt_pure (k a)) -> plt_pure (pbind m k).
Proof.
  intros Hm Hk w t. unfold pbind.
  destruct (Hm w t) as (o & ext & ->). destruct o as [a | e].
  - destruct (Hk a w (t ++ ext)%list) as (o' & ext' & ->).
    exists o', (ext ++ ext')%list. rewrite app_assoc. reflexivity.
  - exists (Fail e), ext. reflexivity.
Qed.

Lemma pure_soln_item i : plt_pure (soln_item i).
Proof.
  unfold soln_item. apply pure_pbind; [apply pure_read_soln | intros o; apply pure_plift].
Qed.

Lemma pure_for_enumerate body l :
  (forall n wfn, plt_pure (body n wfn)) -> forall n, plt_pure (for_enumerate body n l).
Proof.
  intros Hbody. induction l as [| wfn l IH]; intros n; simpl.
  - apply pure_pret.
  - apply pure_pbind; [apply Hbody | intros _; apply IH].
Qed.

Lemma pure_plot_well x o : plt_pure (QuantVisualizer.plot_well x o).
Proof.
  unfold QuantVisualizer.plot_well.
  repeat first
    [ apply pure_pbind; [| intros ?]
    | apply pure_plift | apply pure_emit | apply pure_read_param
    | apply pure_soln_item | apply pure_read_soln | apply pure_pret
    | apply pure_for_enumerate; intros ? ? ].
Qed.

Lemma pure_plot_oscillator x o ev : plt_pure (QuantVisualizer.plot_oscillator x o ev).
Proof.
  unfold QuantVisualizer.plot_oscillator.
  repeat first
    [ apply pure_pbind; [| intros ?]
    | apply pure_plift | apply pure_emit | apply pure_read_param
    | apply pure_soln_item | apply pure_read_soln | apply pure_pret
    | apply pure_for_enumerate; intros ? ? ].
Qed.

(** X25.  [plot_func] only reads the context.  Whatever the context and
    however the call ends, the object is as before and the earlier calls to
    matplotlib are still there, followed by the new ones; on a known system
    nothing is printed either. *)
Theorem plot_func_frame (w : World) (t : list draw) :
  exists o w' ext,
    QuantVisualizer.plot_func w t = (o, w', (t ++ ext)%list) /\
    quantsim w' = quantsim w /\
    (known_system (sys (quantsim w)) = true -> w' = w).
Proof.
  assert (Hbranch : forall x o ev,
    exists o' w' ext,
      (if QuantVisualizer.py_in (sys (quantsim w)) QuantVisualizer.ISW_aliases
       then QuantVisualizer.plot_well x o
       else if QuantVisualizer.py_in (sys (quantsim w)) QuantVisualizer.FSW_aliases
       then pret tt
       else if QuantVisualizer.py_in (sys (quantsim w)) QuantVisualizer.QHO_aliases
       then QuantVisualizer.plot_oscillator x o ev
       else pprint QuantVisualizer.not_found_msg) w (t ++ [Subplots; AxisOff])%list
      = (o', w', ((t ++ [Subplots; AxisOff]) ++ ext)%list) /\
      quantsim w' = quantsim w /\
      (known_system (sys (quantsim w)) = true -> w' = w)).
  { intros x o ev. unfold known_system.
    destruct (QuantVisualizer.py_in (sys (quantsim w)) QuantVisualizer.ISW_aliases).
    { destruct (pure_plot_well x o w (t ++ [Subplots; AxisOff])%list) as (o' & ext & ->).
      exists o', w, ext. repeat split. }
    destruct (QuantVisualizer.py_in (sys (quantsim w)) QuantVisualizer.FSW_aliases).
    { exists (Done tt), w, []. unfold pret. rewrite app_nil_r. repeat split. }
    destruct (QuantVisualizer.py_in (sys (quantsim w)) QuantVisualizer.QHO_aliases).
    { destruct (pure_plot_oscillator x o ev w (t ++ [Subplots; AxisOff])%list)
        as (o' & ext & ->).
      exists o', w, ext. repeat split. }
    exists (Done tt), (snd (print QuantVisualizer.not_found_msg w)), [].
    unfold pprint. rewrite app_nil_r. repeat split. discriminate. }
  unfold QuantVisualizer.plot_func, pbind at 1, emit at 1.
  unfold pbind at 1, emit at 1. rewrite <- app_assoc. cbn [app].
  unfold pbind at 1, read_param at 1.
  destruct (sim_params (quantsim w) !! "x_vals") as [x|];
    [| exists (Fail (PyExn (KeyError "x_vals"))), w, [Subplots; AxisOff]; repeat split].
  unfold pbind at 1, read_soln at 1.
  destruct (soln (quantsim w)) as [o|];
    [| exists (Fail (AttributeError "soln")), w, [Subplots; AxisOff]; repeat split].
  unfold pbind at 1, read_param at 1.
  destruct (sim_params (quantsim w) !! "E_array") as [ev|];
    [| exists (Fail (PyExn (KeyError "E_array"))), w, [Subplots; AxisOff]; repeat split].
  unfold pbind at 1.
  destruct (Hbranch x o ev) as (o' & w' & ext & Hrun & Hq & Hk). rewrite Hrun.
  destruct o' as [u | e].
  - unfold emit. exists (Done tt), w', ([Subplots; AxisOff] ++ ext ++ [Legend])%list.
    split; [| split; assumption].
    rewrite <- !app_assoc. reflexivity.
  - exists (Fail e), w', ([Subplots; AxisOff] ++ ext)%list.
    split; [| split; assumption].
    rewrite <- !app_assoc. reflexivity.
Qed.

(** X26.  A finite square well cannot be plotted.  On a context without a
    grid, [simulate] on a finite-well alias returns normally, and
    [plot_func] on the result raises [KeyError] for ['x_vals'] right after
    creating the figure. *)
Theorem finite_well_cannot_be_plotted (w : World) :
  QuantVisualizer.py_in (sys (quantsim w)) QuantVisualizer.FSW_aliases = true ->
  sim_params (quantsim w) !! "x_vals" = None ->
  exists w1,
    QuantVisualizer.simulate w = (Ret tt, w1) /\
    QuantVisualizer.plot_func w1 [] =
      (Fail (PyExn (KeyError "x_vals")), w1, [Subplots; AxisOff]).
Proof.
  intros Hs Hx. exists (with_soln w PyNone).
  split; [apply simulate_finite_well, Hs |].
  unfold QuantVisualizer.plot_func, pbind, emit, read_param. simpl.
  rewrite Hx. reflexivity.
Qed.

Lemma finite_well_cannot_be_plotted_witness :
  exists w1,
    QuantVisualizer.simulate (well_context "FSW" 10 1 (1 / 10) 3) = (Ret tt, w1) /\
    QuantVisualizer.plot_func w1 [] =
      (Fail (PyExn (KeyError "x_vals")), w1, [Subplots; AxisOff]).
Proof.
  apply finite_well_cannot_be_plotted; reflexivity.
Defined.

(** X27.  Calling a solver directly is not enough to plot.  On a context
    that has no [soln] attribute yet, after either solver has returned (and
    stored its grid), [plot_func] raises [AttributeError] for [soln], which
    only [simulate] sets. *)
Theorem plot_needs_simulate (w : World) (r : list (list R) * list (list R)) (w1 : World) :
  soln (quantsim w) = None ->
  QuantVisualizer.InfSqWell w = (Ret r, w1) \/
  QuantVisualizer.ParabSqWell w = (Ret r, w1) ->
  QuantVisualizer.plot_func w1 [] =
    (Fail (AttributeError "soln"), w1, [Subplots; AxisOff]).
Proof.
  intros Hs [H | H].
  - destruct r as [sol pd].
    apply InfSqWell_success in H as (vL & vm & vdx & vn & r & _ & _ & _ & _ & ->).
    unfold QuantVisualizer.plot_func, pbind, emit, read_param, read_soln,
      well_world, with_sim_params. simpl.
    rewrite lookup_insert_ne, lookup_insert_eq by discriminate. rewrite Hs. reflexivity.
  - destruct r as [sol pd].
    apply ParabSqWell_success in H as (vL & vm & vk & vdx & vn & r & om & _ & _ & _ & _ & ->).
    unfold QuantVisualizer.plot_func, pbind, emit, read_param, read_soln,
      osc_world, with_sim_params. simpl.
    rewrite !lookup_insert_ne, lookup_insert_eq by discriminate. rewrite Hs. reflexivity.
Qed.

Lemma plot_needs_simulate_witness :
  exists r w1,
    QuantVisualizer.InfSqWell (well_context "ISW" 10 1 (1 / 10) 3) = (Ret r, w1) /\
    QuantVisualizer.plot_func w1 [] =
      (Fail (AttributeError "soln"), w1, [Subplots; AxisOff]).
Proof.
  assert (Hdx : 0 < 1 / 10) by lra. assert (HL : 0 <= 10) by lra.
  pose proof (InfSqWell_valid_run (well_context "ISW" 10 1 (1 / 10) 3) 10 1 (1 / 10) 3
                (well_context_params _ _ _ _ _) Hdx HL) as Hrun.
  eexists _, _. split; [exact Hrun |].
  apply (plot_needs_simulate (well_context "ISW" 10 1 (1 / 10) 3) _ _ eq_refl
           (or_introl Hrun)).
Defined.
